(** * PathLab: the ClientHello inspector, the QUIC Initial parser, the
    impairment state, the rule DSL and the per-connection profile selection,
    embedded from the Go sources and checked against the specification.

    Conventions of the embedding.
    - A Go [[]byte] is a [list byte]; [u8] reads a byte as an integer.
    - A Go [string] is a [string], byte for byte.  The functions of package
      [strings] that go by bytes ([HasPrefix], [Contains], [SplitN], ...) are
      written out.  Those that go by Unicode code points ([ToLower],
      [ToUpper], [TrimSpace], [Fields]) are written out for ASCII text in
      [Go]; the rule DSL, whose text comes from the client, takes them as a
      parameter ([strings.Library]) of which only the behaviour on ASCII text
      is assumed, and only where a statement says so.
    - A Go [int] is a [Z].  Inside the parsers every integer is a length or an
      offset bounded by the number of bytes read, so 64-bit arithmetic never
      wraps there; where a value is built from unbounded text ([parseInt]) the
      wrap-around is written out.
    - A Go [error] is a value of an inductive type, one constructor per
      [errors.New]/[fmt.Errorf] site, wrapped errors ([%w]) as arguments.
    - An [io.Reader] is the list of bytes that are still to come, followed by
      end of file; the reader of a rules text is its text and the way it ends,
      with end of file or with an error of its own. *)

From Stdlib Require Import ZArith List String Ascii Bool Lia.
From Stdlib Require Import Init.Byte Strings.Byte.
From Stdlib Require DecimalString.
Import ListNotations.
Open Scope string_scope.
Open Scope list_scope.
Open Scope Z_scope.

Infix "+++" := String.append (at level 60, right associativity).

(** ** Go primitives: slices, integers, package [strings], [strconv], [io] *)

Module Go.

Definition u8 (b : byte) : Z := Z.of_N (Byte.to_N b).

(** [byte(z)] for an integer in range; used to write inputs down. *)
Definition B (z : Z) : byte :=
  match Byte.of_N (Z.to_N (z mod 256)) with
  | Some b => b
  | None => x00
  end.

Definition len {A} (s : list A) : Z := Z.of_nat (List.length s).

(** [s[i]] *)
Definition at_ (s : list byte) (i : Z) : byte := nth (Z.to_nat i) s x00.

(** [s[i:j]] *)
Definition slice {A} (s : list A) (i j : Z) : list A :=
  firstn (Z.to_nat (j - i)) (skipn (Z.to_nat i) s).

(** [binary.BigEndian.Uint16(s[i:i+2])] *)
Definition be16 (s : list byte) (i : Z) : Z :=
  Z.lor (Z.shiftl (u8 (at_ s i)) 8) (u8 (at_ s (i + 1))).

(** [binary.BigEndian.Uint32(s[i:i+4])] *)
Definition be32 (s : list byte) (i : Z) : Z :=
  Z.lor (Z.lor (Z.lor (Z.shiftl (u8 (at_ s i)) 24)
                      (Z.shiftl (u8 (at_ s (i + 1))) 16))
               (Z.shiftl (u8 (at_ s (i + 2))) 8))
        (u8 (at_ s (i + 3))).

(** [bytes.HasPrefix] and [bytes.Contains] *)
Fixpoint bytesHasPrefix (s prefix : list byte) {struct prefix} : bool :=
  match prefix, s with
  | [], _ => true
  | _ :: _, [] => false
  | p :: prefix', c :: s' => Byte.eqb p c && bytesHasPrefix s' prefix'
  end.

Fixpoint bytesContains (s sub : list byte) : bool :=
  bytesHasPrefix s sub ||
  match s with
  | [] => false
  | _ :: s' => bytesContains s' sub
  end.

(** [strconv.Itoa] *)
Definition Itoa (n : Z) : string :=
  DecimalString.NilZero.string_of_int (Z.to_int n).

(** [strings.Join] *)
Fixpoint Join (l : list string) (sep : string) : string :=
  match l with
  | [] => ""
  | [x] => x
  | x :: l' => x +++ sep +++ Join l' sep
  end.

Definition isUpper (c : ascii) : bool :=
  let n := nat_of_ascii c in (65 <=? n)%nat && (n <=? 90)%nat.
Definition isLower (c : ascii) : bool :=
  let n := nat_of_ascii c in (97 <=? n)%nat && (n <=? 122)%nat.

Definition toLowerChar (c : ascii) : ascii :=
  if isUpper c then ascii_of_nat (nat_of_ascii c + 32) else c.
Definition toUpperChar (c : ascii) : ascii :=
  if isLower c then ascii_of_nat (nat_of_ascii c - 32) else c.

(** [strings.ToLower], [strings.ToUpper] on ASCII text: the letters A-Z
    and a-z are mapped, every other byte is kept. *)
Fixpoint ToLower (s : string) : string :=
  match s with
  | EmptyString => EmptyString
  | String c s' => String (toLowerChar c) (ToLower s')
  end.
Fixpoint ToUpper (s : string) : string :=
  match s with
  | EmptyString => EmptyString
  | String c s' => String (toUpperChar c) (ToUpper s')
  end.

(** The ASCII white space of [strings.TrimSpace] and [strings.Fields]:
    tab, line feed, vertical tab, form feed, carriage return, space.
    [TrimSpace] and [Fields] below are the two functions on ASCII text. *)
Definition isSpace (c : ascii) : bool :=
  let n := nat_of_ascii c in
  ((9 <=? n)%nat && (n <=? 13)%nat) || (n =? 32)%nat.

Fixpoint trimLeft (s : string) : string :=
  match s with
  | EmptyString => EmptyString
  | String c s' => if isSpace c then trimLeft s' else s
  end.

Fixpoint trimRight (s : string) : string :=
  match s with
  | EmptyString => EmptyString
  | String c s' =>
      match trimRight s' with
      | EmptyString => if isSpace c then EmptyString else String c EmptyString
      | t => String c t
      end
  end.

Definition TrimSpace (s : string) : string := trimRight (trimLeft s).

(** [strings.HasPrefix] *)
Fixpoint HasPrefix (s prefix : string) {struct prefix} : bool :=
  match prefix, s with
  | EmptyString, _ => true
  | String _ _, EmptyString => false
  | String p prefix', String c s' => Ascii.eqb p c && HasPrefix s' prefix'
  end.

(** [s[n:]] on a string *)
Fixpoint dropStr (n : nat) (s : string) : string :=
  match n, s with
  | O, _ => s
  | S _, EmptyString => EmptyString
  | S n', String _ s' => dropStr n' s'
  end.

(** [s[:n]] on a string *)
Fixpoint takeStr (n : nat) (s : string) : string :=
  match n, s with
  | O, _ => EmptyString
  | S _, EmptyString => EmptyString
  | S n', String c s' => String c (takeStr n' s')
  end.

(** [strings.TrimPrefix] *)
Definition TrimPrefix (s prefix : string) : string :=
  if HasPrefix s prefix then dropStr (String.length prefix) s else s.

(** [strings.Contains] *)
Fixpoint Contains (s sub : string) : bool :=
  HasPrefix s sub ||
  match s with
  | EmptyString => false
  | String _ s' => Contains s' sub
  end.

(** [strings.Cut]: the text before and after the first occurrence of a
    non-empty separator. *)
Fixpoint Cut (s sep : string) : option (string * string) :=
  if HasPrefix s sep then Some (EmptyString, dropStr (String.length sep) s)
  else match s with
       | EmptyString => None
       | String c s' =>
           match Cut s' sep with
           | Some (before, after) => Some (String c before, after)
           | None => None
           end
       end.

(** [strings.SplitN(s, sep, 2)] for a non-empty separator: at most two
    pieces, cut at the first occurrence. *)
Definition SplitN2 (s sep : string) : list string :=
  match Cut s sep with
  | Some (before, after) => [before; after]
  | None => [s]
  end.

(** [strings.Fields]: the maximal runs of characters that are not white
    space.  [cur] is the run being read, reversed. *)
Definition revString (l : list ascii) : string :=
  fold_left (fun acc c => String c acc) l EmptyString.

Fixpoint fieldsFrom (s : string) (cur : list ascii) : list string :=
  match s with
  | EmptyString =>
      match cur with [] => [] | _ => [revString cur] end
  | String c s' =>
      if isSpace c
      then match cur with
           | [] => fieldsFrom s' []
           | _ => revString cur :: fieldsFrom s' []
           end
      else fieldsFrom s' (c :: cur)
  end.

Definition Fields (s : string) : list string := fieldsFrom s [].

(** [io.EOF] and [io.ErrUnexpectedEOF] *)
Inductive io_error := EOF | ErrUnexpectedEOF.

Definition Reader := list byte.

(** An [io.Reader] over text, as [rules.Parse] is given one: the text it
    delivers and the way it ends, with [io.EOF] ([None]) or with an error of
    its own, kept as its message. *)
Record TextReader := mkTextReader {
  content : string;
  failure : option string
}.

(** [io.ReadFull(r, buf)] with [len(buf) = n]: the [n] bytes read and the
    reader after them, or the error and the drained reader. *)
Definition ReadFull (r : Reader) (n : Z) : (list byte * Reader) + (io_error * Reader) :=
  if len r <? n
  then inr (match r with [] => EOF | _ => ErrUnexpectedEOF end, [])
  else inl (slice r 0 n, skipn (Z.to_nat n) r).

End Go.

(** ** Package [strings]: the functions that go by code points *)

Module strings.

(** Every byte of the text is below [0x80]. *)
Definition isASCIIChar (c : ascii) : bool :=
  match c with Ascii _ _ _ _ _ _ _ b7 => negb b7 end.

Fixpoint isASCII (s : string) : bool :=
  match s with
  | EmptyString => true
  | String c s' => isASCIIChar c && isASCII s'
  end.

(** [strings.ToLower], [strings.ToUpper], [strings.TrimSpace] and
    [strings.Fields] of the Go library, which decode UTF-8 and consult the
    Unicode tables. *)
Class Library := mkLibrary {
  ToLower : string -> string;
  ToUpper : string -> string;
  TrimSpace : string -> string;
  Fields : string -> list string
}.

(** What is known of them: on ASCII text they are the functions of [Go]. *)
Class OnASCII (lib : Library) : Prop := mkOnASCII {
  ToLower_ascii : forall s, isASCII s = true -> ToLower s = Go.ToLower s;
  ToUpper_ascii : forall s, isASCII s = true -> ToUpper s = Go.ToUpper s;
  TrimSpace_ascii : forall s, isASCII s = true -> TrimSpace s = Go.TrimSpace s;
  Fields_ascii : forall s, isASCII s = true -> Fields s = Go.Fields s
}.

(** The library cut down to ASCII, for examples. *)
Definition ascii : Library :=
  mkLibrary Go.ToLower Go.ToUpper Go.TrimSpace Go.Fields.

(** [strings.NewReader(s)] *)
Definition NewReader (s : string) : Go.TextReader := Go.mkTextReader s None.

End strings.

(** ** Package [tlsinspect]: the ClientHello inspector *)

Module tlsinspect.
Import Go.

(** [type Result struct] *)
Record Result := mkResult {
  HandshakeBytes : Z;
  RecordsBytes : Z;
  PQCHint : bool;
  ClientHelloLen : Z;
  SNI : string;
  ALPN : list string;
  CipherSuites : Z;
  JA3 : string
}.

(** The zero value of the struct, which [res] holds on entry. *)
Definition zeroResult : Result := mkResult 0 0 false 0 "" [] 0 "".

Definition setHandshakeBytes (r : Result) (v : Z) : Result :=
  mkResult v (RecordsBytes r) (PQCHint r) (ClientHelloLen r) (SNI r) (ALPN r) (CipherSuites r) (JA3 r).
Definition setRecordsBytes (r : Result) (v : Z) : Result :=
  mkResult (HandshakeBytes r) v (PQCHint r) (ClientHelloLen r) (SNI r) (ALPN r) (CipherSuites r) (JA3 r).
Definition setPQCHint (r : Result) (v : bool) : Result :=
  mkResult (HandshakeBytes r) (RecordsBytes r) v (ClientHelloLen r) (SNI r) (ALPN r) (CipherSuites r) (JA3 r).
Definition setClientHelloLen (r : Result) (v : Z) : Result :=
  mkResult (HandshakeBytes r) (RecordsBytes r) (PQCHint r) v (SNI r) (ALPN r) (CipherSuites r) (JA3 r).
Definition setSNI (r : Result) (v : string) : Result :=
  mkResult (HandshakeBytes r) (RecordsBytes r) (PQCHint r) (ClientHelloLen r) v (ALPN r) (CipherSuites r) (JA3 r).
Definition setALPN (r : Result) (v : list string) : Result :=
  mkResult (HandshakeBytes r) (RecordsBytes r) (PQCHint r) (ClientHelloLen r) (SNI r) v (CipherSuites r) (JA3 r).
Definition setCipherSuites (r : Result) (v : Z) : Result :=
  mkResult (HandshakeBytes r) (RecordsBytes r) (PQCHint r) (ClientHelloLen r) (SNI r) (ALPN r) v (JA3 r).
Definition setJA3 (r : Result) (v : string) : Result :=
  mkResult (HandshakeBytes r) (RecordsBytes r) (PQCHint r) (ClientHelloLen r) (SNI r) (ALPN r) (CipherSuites r) v.

(** The errors [ParseClientHello] returns, one per return site. *)
Inductive error :=
| ErrReadRecordHeader (e : io_error)        (* "read record header: %w" *)
| ErrInvalidRecordLength                    (* "invalid TLS record length" *)
| ErrReadRecordBody (e : io_error)          (* "read record body: %w" *)
| ErrUnexpectedContentType (contentType : byte) (version : Z)
| ErrNotClientHello (handshakeType : byte). (* "not a ClientHello (type=..)" *)

(** The sixteen values of the [switch] in [isGrease]. *)
Definition greaseValues : list Z :=
  [0x0a0a; 0x1a1a; 0x2a2a; 0x3a3a; 0x4a4a; 0x5a5a; 0x6a6a; 0x7a7a;
   0x8a8a; 0x9a9a; 0xaaaa; 0xbaba; 0xcaca; 0xdada; 0xeaea; 0xfafa].

(** [func isGrease(v uint16) bool]; [byte(x)] keeps the low eight bits. *)
Definition isGrease (v : Z) : bool :=
  if ((Z.shiftr v 8) mod 256 =? (Z.land v 0xff) mod 256)
     && ((Z.land v 0xff) mod 256 =? 0x0a)
  then true
  else if existsb (Z.eqb v) greaseValues then true
  else false.

(** What one run of the record loop ends with: an early [return nil, res,
    err], or the [break] with the assembled handshake message. *)
Inductive loopExit :=
| Failed (res : Result) (e : error) (r : Reader)
| Assembled (raw : list byte) (res : Result) (totalRecordsBytes : Z) (r : Reader).

(** The [for] loop of [ParseClientHello] (lines 34-77).  The state is the
    reader, [buf], [totalRecordsBytes], [need] and [res]; one unit of fuel is
    one record.  [None] is the loop still running when the fuel is spent. *)
Fixpoint readRecords (fuel : nat) (r : Reader) (buf : list byte)
    (totalRecordsBytes need : Z) (res : Result) : option loopExit :=
  match fuel with
  | O => None
  | S fuel' =>
    match ReadFull r 5 with
    | inr (e, r') => Some (Failed res (ErrReadRecordHeader e) r')
    | inl (hdr, r1) =>
      let contentType := at_ hdr 0 in
      let version := be16 hdr 1 in
      let length := be16 hdr 3 in
      if (length <=? 0) || (length >? Z.shiftl 1 14 + 256)
      then Some (Failed res ErrInvalidRecordLength r1)
      else
        match ReadFull r1 length with
        | inr (e, r') => Some (Failed res (ErrReadRecordBody e) r')
        | inl (body, r2) =>
          let totalRecordsBytes := totalRecordsBytes + (5 + length) in
          if negb (u8 contentType =? 0x16)
          then Some (Failed res (ErrUnexpectedContentType contentType version) r2)
          else
            let buf := buf ++ body in
            let continue (need : Z) (res : Result) :=
              if (need >? 0) && (len buf >=? need)
              then Some (Assembled (slice buf 0 need) res totalRecordsBytes r2)
              else readRecords fuel' r2 buf totalRecordsBytes need res in
            if (need <? 0) && (len buf >=? 4)
            then
              let handshakeType := at_ buf 0 in
              if negb (u8 handshakeType =? 0x01)
              then Some (Failed res (ErrNotClientHello handshakeType) r2)
              else
                let hl := Z.lor (Z.lor (Z.shiftl (u8 (at_ buf 1)) 16)
                                       (Z.shiftl (u8 (at_ buf 2)) 8))
                                (u8 (at_ buf 3)) in
                continue (hl + 4) (setClientHelloLen res hl)
            else continue need res
        end
    end
  end.

(** The [server_name] case: the loop over the entries of the list.  The
    host name is lower-cased as ASCII text, which host names on the wire
    are; the framing fields do not depend on it. *)
Fixpoint serverNameLoop (fuel : nat) (edata : list byte) (listLen p : Z)
    (res : Result) : Result :=
  match fuel with
  | O => res
  | S fuel' =>
    if p + 3 <=? 2 + listLen then
      let nameType := at_ edata p in
      if p + 3 >? len edata then res
      else
        let nameLen := be16 edata (p + 1) in
        let p := p + 3 in
        if p + nameLen >? len edata then res
        else if u8 nameType =? 0
        then setSNI res (ToLower (string_of_list_byte (slice edata p (p + nameLen))))
        else serverNameLoop fuel' edata listLen (p + nameLen) res
    else res
  end.

(** The [ALPN] case: the loop over the protocol names. *)
Fixpoint alpnLoop (fuel : nat) (edata : list byte) (listLen p : Z)
    (res : Result) : Result :=
  match fuel with
  | O => res
  | S fuel' =>
    if (p <? 2 + listLen) && (p <? len edata) then
      if p >=? len edata then res
      else
        let l := u8 (at_ edata p) in
        let p := p + 1 in
        if p + l >? len edata then res
        else
          let res := if l >? 0
                     then setALPN res (ALPN res ++ [string_of_list_byte (slice edata p (p + l))])
                     else res in
          alpnLoop fuel' edata listLen (p + l) res
    else res
  end.

(** The [supported_groups] case: [for p := 2; p < 2+glen; p += 2]. *)
Fixpoint groupsLoop (fuel : nat) (edata : list byte) (glen p : Z)
    (ja3Groups : list string) : list string :=
  match fuel with
  | O => ja3Groups
  | S fuel' =>
    if p <? 2 + glen then
      let gid := be16 edata p in
      if isGrease gid
      then groupsLoop fuel' edata glen (p + 2) ja3Groups
      else groupsLoop fuel' edata glen (p + 2) (ja3Groups ++ [Itoa gid])
    else ja3Groups
  end.

(** The [ec_point_formats] case: [for p := 1; p < 1+plen; p++]. *)
Fixpoint pointFormatsLoop (fuel : nat) (edata : list byte) (plen p : Z)
    (ja3PF : list string) : list string :=
  match fuel with
  | O => ja3PF
  | S fuel' =>
    if p <? 1 + plen
    then pointFormatsLoop fuel' edata plen (p + 1) (ja3PF ++ [Itoa (u8 (at_ edata p))])
    else ja3PF
  end.

(** The cipher suite loop: [for i := 0; i < csLen; i += 2]. *)
Fixpoint ciphersLoop (fuel : nat) (body : list byte) (cipherStart csLen i : Z)
    (ja3Ciphers : list string) : list string :=
  match fuel with
  | O => ja3Ciphers
  | S fuel' =>
    if i <? csLen then
      let val := be16 body (cipherStart + i) in
      if isGrease val
      then ciphersLoop fuel' body cipherStart csLen (i + 2) ja3Ciphers
      else ciphersLoop fuel' body cipherStart csLen (i + 2) (ja3Ciphers ++ [Itoa val])
    else ja3Ciphers
  end.

(** The body of the [switch etype] for one extension. *)
Definition handleExtension (etype : Z) (edata : list byte)
    (st : Result * list string * list string) : Result * list string * list string :=
  let '(res, ja3Groups, ja3PF) := st in
  let fuel := S (List.length edata) in
  if etype =? 0x0000 then
    if len edata >=? 2 then
      let listLen := be16 edata 0 in
      if listLen + 2 <=? len edata
      then (serverNameLoop fuel edata listLen 2 res, ja3Groups, ja3PF)
      else st
    else st
  else if etype =? 0x0010 then
    if len edata >=? 2 then
      let listLen := be16 edata 0 in
      if listLen + 2 <=? len edata
      then (alpnLoop fuel edata listLen 2 res, ja3Groups, ja3PF)
      else st
    else st
  else if etype =? 0x000a then
    if len edata >=? 2 then
      let glen := be16 edata 0 in
      if (glen + 2 <=? len edata) && (glen mod 2 =? 0)
      then (res, groupsLoop fuel edata glen 2 ja3Groups, ja3PF)
      else st
    else st
  else if etype =? 0x000b then
    if len edata >=? 1 then
      let plen := u8 (at_ edata 0) in
      if plen + 1 <=? len edata
      then (res, ja3Groups, pointFormatsLoop fuel edata plen 1 ja3PF)
      else st
    else st
  else st.

(** The extension walk: [for off+4 <= extEnd]. *)
Fixpoint extensionsLoop (fuel : nat) (body : list byte) (extEnd off : Z)
    (res : Result) (ja3Exts ja3Groups ja3PF : list string)
    : Result * list string * list string * list string :=
  match fuel with
  | O => (res, ja3Exts, ja3Groups, ja3PF)
  | S fuel' =>
    if off + 4 <=? extEnd then
      let etype := be16 body off in
      let elen := be16 body (off + 2) in
      let off := off + 4 in
      if off + elen >? extEnd then (res, ja3Exts, ja3Groups, ja3PF)
      else
        let edata := slice body off (off + elen) in
        let '(res, ja3Groups, ja3PF) :=
          handleExtension etype edata (res, ja3Groups, ja3PF) in
        let ja3Exts := if negb (isGrease etype)
                       then ja3Exts ++ [Itoa etype] else ja3Exts in
        extensionsLoop fuel' body extEnd (off + elen) res ja3Exts ja3Groups ja3PF
    else (res, ja3Exts, ja3Groups, ja3PF)
  end.

Section WithMD5.

(** [hex.EncodeToString(md5.Sum([]byte(s)))], from Go's [crypto/md5]. *)
Variable md5_hex : string -> string.

(** The best-effort parse of the ClientHello body (lines 86-214): session
    id, cipher suites, compression methods, extensions, JA3. *)
Definition parseBody (raw : list byte) (res : Result) : Result :=
  if len raw >=? 4 then
    let body := slice raw 4 (len raw) in
    let off := 0 in
    if len body >=? off + 34 then
      let off := off + 34 in
      if len body >? off then
        let sidLen := u8 (at_ body off) in
        if len body >=? off + 1 + sidLen then
          let off := off + 1 + sidLen in
          if len body >=? off + 2 then
            let csLen := be16 body off in
            let off := off + 2 in
            if (csLen mod 2 =? 0) && (len body >=? off + csLen) then
              let cipherStart := off in
              let res := setCipherSuites res (csLen / 2) in
              let off := off + csLen in
              if len body >? off then
                let compLen := u8 (at_ body off) in
                if len body >=? off + 1 + compLen then
                  let off := off + 1 + compLen in
                  if len body >=? off + 2 then
                    let extLen := be16 body off in
                    let off := off + 2 in
                    if len body >=? off + extLen then
                      let extEnd := off + extLen in
                      let legacyVersion := be16 body 0 in
                      let fuel := S (List.length body) in
                      let ja3Ciphers := ciphersLoop fuel body cipherStart csLen 0 [] in
                      let '(res, ja3Exts, ja3Groups, ja3PF) :=
                        extensionsLoop fuel body extEnd off res [] [] [] in
                      let ja3Str :=
                        Itoa legacyVersion +++ "," +++ Join ja3Ciphers "-" +++ ","
                        +++ Join ja3Exts "-" +++ "," +++ Join ja3Groups "-" +++ ","
                        +++ Join ja3PF "-" in
                      setJA3 res (md5_hex ja3Str)
                    else res
                  else res
                else res
              else res
            else res
          else res
        else res
      else res
    else res
  else res.

(** What [ParseClientHello] returns, [(raw, res, err)], and the reader
    after the call. *)
Record output := mkOutput {
  raw : list byte;
  res : Result;
  err : option error;
  rest : Reader
}.

(** The code after the loop (lines 79-216). *)
Definition finish (raw : list byte) (res : Result) (totalRecordsBytes : Z)
    (r : Reader) : output :=
  let res := if bytesContains raw [B 0x11; B 0xec] then setPQCHint res true else res in
  let res := setHandshakeBytes res (len raw) in
  let res := setRecordsBytes res totalRecordsBytes in
  mkOutput raw (parseBody raw res) None r.

(** [ParseClientHello] with the loop given [fuel] records to run. *)
Definition ParseClientHelloFuel (fuel : nat) (r : Reader) : option output :=
  match readRecords fuel r [] 0 (-1) zeroResult with
  | None => None
  | Some (Failed res e r') => Some (mkOutput [] res (Some e) r')
  | Some (Assembled raw res total r') => Some (finish raw res total r')
  end.

(** [func ParseClientHello(r io.Reader) (raw []byte, res Result, err error)].
    Every record takes at least six bytes off the reader, so one unit of
    fuel per byte (and one more) is never spent; [ParseClientHello_total]
    proves it. *)
Definition ParseClientHello (r : Reader) : option output :=
  ParseClientHelloFuel (S (List.length r)) r.

End WithMD5.

End tlsinspect.

(** ** Package [quicinspect]: the QUIC Initial parser *)

Module quicinspect.
Import Go.

(** [type InitialSummary struct] *)
Record InitialSummary := mkSummary {
  Version : Z;
  DCIDLen : Z;
  SCIDLen : Z;
  TokenLen : Z;
  DeclaredLen : Z;
  PacketNumber : Z;     (* json:"packet_number_len" *)
  DatagramSize : Z;
  Valid : bool;
  Err : string
}.

Definition setErr (s : InitialSummary) (e : string) : InitialSummary :=
  mkSummary (Version s) (DCIDLen s) (SCIDLen s) (TokenLen s) (DeclaredLen s)
            (PacketNumber s) (DatagramSize s) (Valid s) e.
Definition setPacketNumber (s : InitialSummary) (v : Z) : InitialSummary :=
  mkSummary (Version s) (DCIDLen s) (SCIDLen s) (TokenLen s) (DeclaredLen s)
            v (DatagramSize s) (Valid s) (Err s).
Definition setVersion (s : InitialSummary) (v : Z) : InitialSummary :=
  mkSummary v (DCIDLen s) (SCIDLen s) (TokenLen s) (DeclaredLen s)
            (PacketNumber s) (DatagramSize s) (Valid s) (Err s).
Definition setDCIDLen (s : InitialSummary) (v : Z) : InitialSummary :=
  mkSummary (Version s) v (SCIDLen s) (TokenLen s) (DeclaredLen s)
            (PacketNumber s) (DatagramSize s) (Valid s) (Err s).
Definition setSCIDLen (s : InitialSummary) (v : Z) : InitialSummary :=
  mkSummary (Version s) (DCIDLen s) v (TokenLen s) (DeclaredLen s)
            (PacketNumber s) (DatagramSize s) (Valid s) (Err s).
Definition setTokenLen (s : InitialSummary) (v : Z) : InitialSummary :=
  mkSummary (Version s) (DCIDLen s) (SCIDLen s) v (DeclaredLen s)
            (PacketNumber s) (DatagramSize s) (Valid s) (Err s).
Definition setDeclaredLen (s : InitialSummary) (v : Z) : InitialSummary :=
  mkSummary (Version s) (DCIDLen s) (SCIDLen s) (TokenLen s) v
            (PacketNumber s) (DatagramSize s) (Valid s) (Err s).
Definition setValid (s : InitialSummary) (v : bool) : InitialSummary :=
  mkSummary (Version s) (DCIDLen s) (SCIDLen s) (TokenLen s) (DeclaredLen s)
            (PacketNumber s) (DatagramSize s) v (Err s).

(** [int(x)] of a [uint64]: the same 64 bits read as signed. *)
Definition int_of_uint64 (x : Z) : Z := (x + 2 ^ 63) mod 2 ^ 64 - 2 ^ 63.

(** [for i := 1; i < length; i++ { val = (val << 8) | uint64(b[i]) }] *)
Fixpoint varintLoop (fuel : nat) (b : list byte) (length i val : Z) : Z :=
  match fuel with
  | O => val
  | S fuel' =>
    if i <? length
    then varintLoop fuel' b length (i + 1)
           (Z.lor ((Z.shiftl val 8) mod 2 ^ 64) (u8 (at_ b i)))
    else val
  end.

(** [func readVarint(b []byte) (uint64, int)] *)
Definition readVarint (b : list byte) : Z * Z :=
  if len b =? 0 then (0, 0)
  else
    let first := u8 (at_ b 0) in
    let prefix := Z.shiftr first 6 in
    let length :=
      if prefix =? 0 then 1
      else if prefix =? 1 then 2
      else if prefix =? 2 then 4
      else if prefix =? 3 then 8
      else 0 in
    if len b <? length then (0, 0)
    else (varintLoop 8 b length 1 (Z.land first 0x3f), length).

(** [func ParseInitial(b []byte) InitialSummary] *)
Definition ParseInitial (b : list byte) : InitialSummary :=
  let s := mkSummary 0 0 0 0 0 0 (len b) false "" in
  if len b <? 7 then setErr s "too short"
  else
    let first := u8 (at_ b 0) in
    if Z.land first 0x80 =? 0 then setErr s "not long header"
    else
      let s := setPacketNumber s (Z.land first 0x03 + 1) in
      let s := setVersion s (be32 b 1) in
      let dcidLen := u8 (at_ b 5) in
      let off := 6 in
      if len b <? off + dcidLen + 1 then setErr s "trunc dcid"
      else
        let s := setDCIDLen s dcidLen in
        let off := off + dcidLen in
        let scidLen := u8 (at_ b off) in
        let off := off + 1 in
        if len b <? off + scidLen then setErr s "trunc scid"
        else
          let s := setSCIDLen s scidLen in
          let off := off + scidLen in
          if off >=? len b then setErr s "trunc token len"
          else
            let '(tlen, n) := readVarint (slice b off (len b)) in
            if n =? 0 then setErr s "bad token varint"
            else
              let off := off + n in
              if len b <? off + int_of_uint64 tlen then setErr s "trunc token"
              else
                let s := setTokenLen s (int_of_uint64 tlen) in
                let off := off + int_of_uint64 tlen in
                if off >=? len b then setErr s "trunc length"
                else
                  let '(dlen, n2) := readVarint (slice b off (len b)) in
                  if n2 =? 0 then setErr s "bad length varint"
                  else
                    let s := setDeclaredLen s (int_of_uint64 dlen) in
                    setValid s (String.eqb (Err s) "").

End quicinspect.

(** ** Package [impair]: the global impairment state *)

Module impair.

(** [type ProfileName string] *)
Definition ProfileName := string.

Definition ProfileClean : ProfileName := "CLEAN".
Definition ProfileAbortAfterCH : ProfileName := "ABORT_AFTER_CH".
Definition ProfileMTUBlackhole : ProfileName := "MTU1300_BLACKHOLE".
Definition ProfileLatencyJitter : ProfileName := "LATENCY_50MS_JITTER_10".
Definition ProfileBandwidthLimit : ProfileName := "BANDWIDTH_1MBPS".

(** The five names the package defines. *)
Definition definedProfiles : list ProfileName :=
  [ProfileClean; ProfileAbortAfterCH; ProfileMTUBlackhole;
   ProfileLatencyJitter; ProfileBandwidthLimit].

(** [type Config struct]; [UpdatedAt] is a [time.Time], here the instant as
    a number. *)
Record Config := mkConfig {
  Profile : ProfileName;
  ThresholdBytes : Z;
  LatencyMs : Z;
  JitterMs : Z;
  BandwidthKbps : Z;
  BandwidthDownKbps : Z;
  BlackholeSeconds : Z;
  Notes : string;
  UpdatedAt : Z
}.

Definition zeroConfig : Config := mkConfig "" 0 0 0 0 0 0 "" 0.

Definition setProfile (c : Config) (v : ProfileName) : Config :=
  mkConfig v (ThresholdBytes c) (LatencyMs c) (JitterMs c) (BandwidthKbps c)
           (BandwidthDownKbps c) (BlackholeSeconds c) (Notes c) (UpdatedAt c).
Definition setThresholdBytes (c : Config) (v : Z) : Config :=
  mkConfig (Profile c) v (LatencyMs c) (JitterMs c) (BandwidthKbps c)
           (BandwidthDownKbps c) (BlackholeSeconds c) (Notes c) (UpdatedAt c).
Definition setLatencyMs (c : Config) (v : Z) : Config :=
  mkConfig (Profile c) (ThresholdBytes c) v (JitterMs c) (BandwidthKbps c)
           (BandwidthDownKbps c) (BlackholeSeconds c) (Notes c) (UpdatedAt c).
Definition setJitterMs (c : Config) (v : Z) : Config :=
  mkConfig (Profile c) (ThresholdBytes c) (LatencyMs c) v (BandwidthKbps c)
           (BandwidthDownKbps c) (BlackholeSeconds c) (Notes c) (UpdatedAt c).
Definition setBandwidthKbps (c : Config) (v : Z) : Config :=
  mkConfig (Profile c) (ThresholdBytes c) (LatencyMs c) (JitterMs c) v
           (BandwidthDownKbps c) (BlackholeSeconds c) (Notes c) (UpdatedAt c).
Definition setBlackholeSeconds (c : Config) (v : Z) : Config :=
  mkConfig (Profile c) (ThresholdBytes c) (LatencyMs c) (JitterMs c) (BandwidthKbps c)
           (BandwidthDownKbps c) v (Notes c) (UpdatedAt c).
Definition setUpdatedAt (c : Config) (v : Z) : Config :=
  mkConfig (Profile c) (ThresholdBytes c) (LatencyMs c) (JitterMs c) (BandwidthKbps c)
           (BandwidthDownKbps c) (BlackholeSeconds c) (Notes c) v.

(** [type State struct]; the mutex serialises the methods, which therefore
    run one at a time on the stored config. *)
Record State := mkState { curr : Config }.

Definition zeroState : State := mkState zeroConfig.

(** [func (s *State) Apply(cfg Config)]; [now] is [time.Now().UTC()]. *)
Definition Apply (s : State) (cfg : Config) (now : Z) : State :=
  let cfg := setUpdatedAt cfg now in
  let cfg := if String.eqb (Profile cfg) "" then setProfile cfg ProfileClean else cfg in
  let cfg := if ThresholdBytes cfg =? 0 then setThresholdBytes cfg 1300 else cfg in
  let cfg :=
    if String.eqb (Profile cfg) ProfileLatencyJitter then
      let cfg := if LatencyMs cfg =? 0 then setLatencyMs cfg 50 else cfg in
      if JitterMs cfg =? 0 then setJitterMs cfg 10 else cfg
    else cfg in
  let cfg :=
    if String.eqb (Profile cfg) ProfileBandwidthLimit then
      if BandwidthKbps cfg =? 0 then setBandwidthKbps cfg 1000 else cfg
    else cfg in
  let cfg := if BlackholeSeconds cfg <=? 0 then setBlackholeSeconds cfg 30 else cfg in
  mkState cfg.

(** [func (s *State) Get() Config] *)
Definition Get (s : State) : Config := curr s.

(** [func (s *State) Snapshot() Config] *)
Definition Snapshot (s : State) : Config := Get s.

End impair.

(** ** Package [rules]: the rule DSL *)

Module rules.
Import Go.

(** [type Rule struct]; the predicate is the closure [parseLine] builds. *)
Record Rule := mkRule {
  Raw : string;
  Predicate : tlsinspect.Result -> bool;
  Profile : impair.ProfileName
}.

(** [type Set struct] ([Set] is a reserved word here). *)
Record Set_ := mkSet { Rules : list Rule }.

Definition emptySet : Set_ := mkSet [].

(** The errors of the Go library that the package passes on. *)
Inductive lib_error :=
| HexErrLength                           (* hex.ErrLength *)
| HexInvalidByte (c : ascii)             (* hex.InvalidByteError *)
| NumErrSyntax (fn num : string)         (* strconv.NumError, ErrSyntax *)
| NumErrRange (fn num : string)          (* strconv.NumError, ErrRange *)
| ScannerErrTooLong                      (* bufio.ErrTooLong *)
| ReaderError (message : string).        (* the error of the reader *)

(** The errors of the package, one per [fmt.Errorf] site. *)
Inductive error :=
| ErrMissingWhen                         (* "missing 'when'" *)
| ErrMissingThen                         (* "missing 'then'" *)
| ErrInvalidProfile                      (* "invalid profile" *)
| ErrInvalidCondition                    (* "invalid condition format" *)
| ErrBadInt (e : lib_error)              (* "bad int: %w" *)
| ErrBadBool (e : lib_error)             (* "bad bool: %w" *)
| ErrUnsupportedOperator (op : string)   (* "unsupported operator %s" *)
| ErrUnsupportedOperatorPQC (op : string)(* "unsupported operator for pqc_hint: %s" *)
| ErrJA3Operator                         (* "ja3 only supports == operator" *)
| ErrJA3Length                           (* "expected 32 hex chars for ja3" *)
| ErrJA3Hex                              (* "invalid hex in ja3" *)
| ErrEmptySubstring                      (* "empty substring" *)
| ErrEmptyALPN                           (* "empty alpn token" *)
| ErrUnsupportedField (field : string)   (* "unsupported field %s" *)
| ErrLine (lineNo : Z) (e : error)       (* "line %d: %w" *)
| ErrScanner (e : lib_error).            (* s.Err() *)

Section Messages.

(** [strconv.Quote] and the [%#U] verb of [fmt], from the Go library. *)
Variable quote : string -> string.
Variable fmtUnicode : ascii -> string.

Definition libMessage (e : lib_error) : string :=
  match e with
  | HexErrLength => "encoding/hex: odd length hex string"
  | HexInvalidByte c => "encoding/hex: invalid byte: " +++ fmtUnicode c
  | NumErrSyntax fn num => "strconv." +++ fn +++ ": parsing " +++ quote num +++ ": invalid syntax"
  | NumErrRange fn num => "strconv." +++ fn +++ ": parsing " +++ quote num +++ ": value out of range"
  | ScannerErrTooLong => "bufio.Scanner: token too long"
  | ReaderError message => message
  end.

(** [err.Error()] *)
Fixpoint Error (e : error) : string :=
  match e with
  | ErrMissingWhen => "missing 'when'"
  | ErrMissingThen => "missing 'then'"
  | ErrInvalidProfile => "invalid profile"
  | ErrInvalidCondition => "invalid condition format"
  | ErrBadInt e' => "bad int: " +++ libMessage e'
  | ErrBadBool e' => "bad bool: " +++ libMessage e'
  | ErrUnsupportedOperator op => "unsupported operator " +++ op
  | ErrUnsupportedOperatorPQC op => "unsupported operator for pqc_hint: " +++ op
  | ErrJA3Operator => "ja3 only supports == operator"
  | ErrJA3Length => "expected 32 hex chars for ja3"
  | ErrJA3Hex => "invalid hex in ja3"
  | ErrEmptySubstring => "empty substring"
  | ErrEmptyALPN => "empty alpn token"
  | ErrUnsupportedField field => "unsupported field " +++ field
  | ErrLine lineNo e' => "line " +++ Itoa lineNo +++ ": " +++ Error e'
  | ErrScanner e' => libMessage e'
  end.

End Messages.

(** A Go [int] is 64 bits wide. *)
Definition wrap64 (x : Z) : Z := (x + 2 ^ 63) mod 2 ^ 64 - 2 ^ 63.

(** The digit a hexadecimal character stands for ([encoding/hex]). *)
Definition fromHexChar (c : ascii) : option Z :=
  let n := Z.of_nat (nat_of_ascii c) in
  if (48 <=? n) && (n <=? 57) then Some (n - 48)
  else if (97 <=? n) && (n <=? 102) then Some (n - 97 + 10)
  else if (65 <=? n) && (n <=? 70) then Some (n - 65 + 10)
  else None.

(** [hex.DecodeString]: pairs of digits from the left; a bad character is
    reported before an odd length. *)
Fixpoint hexDecodeString (s : string) : list Z + lib_error :=
  match s with
  | EmptyString => inl []
  | String p EmptyString =>
      match fromHexChar p with
      | None => inr (HexInvalidByte p)
      | Some _ => inr HexErrLength
      end
  | String p (String q s') =>
      match fromHexChar p, fromHexChar q with
      | None, _ => inr (HexInvalidByte p)
      | Some _, None => inr (HexInvalidByte q)
      | Some a, Some b =>
          match hexDecodeString s' with
          | inl bs => inl (Z.lor (Z.shiftl a 4) b :: bs)
          | inr e => inr e
          end
      end
  end.

Definition isDigit (c : ascii) : bool :=
  let n := nat_of_ascii c in (48 <=? n)%nat && (n <=? 57)%nat.

(** The digit loop of [strconv.ParseUint] in base 10 at 64 bits: [inr
    true] is a character that is not a digit, [inr false] a value past
    [2^64-1]; whichever comes first from the left is reported. *)
Fixpoint parseDigits (s : string) (n : Z) : Z + bool :=
  match s with
  | EmptyString => inl n
  | String c s' =>
      if isDigit c then
        let n1 := n * 10 + (Z.of_nat (nat_of_ascii c) - 48) in
        if n1 >? 2 ^ 64 - 1 then inr false else parseDigits s' n1
      else inr true
  end.

(** [strconv.Atoi] *)
Definition Atoi (s0 : string) : Z + lib_error :=
  match s0 with
  | EmptyString => inr (NumErrSyntax "Atoi" s0)
  | String c t =>
      let neg := Ascii.eqb c "-" in
      let s := if Ascii.eqb c "-" || Ascii.eqb c "+" then t else s0 in
      match s with
      | EmptyString => inr (NumErrSyntax "Atoi" s0)
      | _ =>
          match parseDigits s 0 with
          | inr true => inr (NumErrSyntax "Atoi" s0)
          | inr false => inr (NumErrRange "Atoi" s0)
          | inl un =>
              if neg
              then if un >? 2 ^ 63 then inr (NumErrRange "Atoi" s0) else inl (- un)
              else if un >=? 2 ^ 63 then inr (NumErrRange "Atoi" s0) else inl un
          end
      end
  end.

(** [strconv.ParseBool] *)
Definition ParseBool (str : string) : bool + lib_error :=
  if existsb (String.eqb str) ["1"; "t"; "T"; "TRUE"; "true"; "True"] then inl true
  else if existsb (String.eqb str) ["0"; "f"; "F"; "FALSE"; "false"; "False"] then inl false
  else inr (NumErrSyntax "ParseBool" str).

(** [func parseInt(v string) (int, error)] *)
Definition parseInt (v : string) : Z + lib_error :=
  if HasPrefix v "0x" then
    match hexDecodeString (TrimPrefix v "0x") with
    | inr e => inr e
    | inl b => inl (fold_left (fun n bb => wrap64 (n * 256 + bb)) b 0)
    end
  else Atoi v.

(** [for _, c := range hexVal { if (c < '0' || c > '9') && (c < 'a' || c > 'f') ... }] *)
Fixpoint allLowerHex (s : string) : bool :=
  match s with
  | EmptyString => true
  | String c s' =>
      let n := nat_of_ascii c in
      if ((n <? 48)%nat || (57 <? n)%nat) && ((n <? 97)%nat || (102 <? n)%nat)
      then false
      else allLowerHex s'
  end.

Section WithStrings.

Context {lib : strings.Library}.

(** The second half of [parseLine] (lines 99-161): the condition, already
    lower-cased and trimmed, compiled to a predicate. *)
Definition parseCondition (cond : string) : (tlsinspect.Result -> bool) + error :=
  let fields := strings.Fields cond in
  match
    match fields with
    | [f; o; v] => Some (f, o, v)
    | [f; v] => Some (f, "contains", v)
    | _ => None
    end
  with
  | None => inr ErrInvalidCondition
  | Some (field, op, val) =>
    if String.eqb field "ch_bytes" then
      match parseInt val with
      | inr e => inr (ErrBadInt e)
      | inl n =>
        if String.eqb op ">" then inl (fun r => tlsinspect.HandshakeBytes r >? n)
        else if String.eqb op ">=" then inl (fun r => tlsinspect.HandshakeBytes r >=? n)
        else if String.eqb op "<" then inl (fun r => tlsinspect.HandshakeBytes r <? n)
        else if String.eqb op "<=" then inl (fun r => tlsinspect.HandshakeBytes r <=? n)
        else if String.eqb op "==" then inl (fun r => tlsinspect.HandshakeBytes r =? n)
        else inr (ErrUnsupportedOperator op)
      end
    else if String.eqb field "pqc_hint" then
      match ParseBool val with
      | inr e => inr (ErrBadBool e)
      | inl b =>
        if String.eqb op "==" then inl (fun r => Bool.eqb (tlsinspect.PQCHint r) b)
        else inr (ErrUnsupportedOperatorPQC op)
      end
    else if String.eqb field "cipher_count" then
      match parseInt val with
      | inr e => inr (ErrBadInt e)
      | inl n =>
        if String.eqb op ">" then inl (fun r => tlsinspect.CipherSuites r >? n)
        else if String.eqb op ">=" then inl (fun r => tlsinspect.CipherSuites r >=? n)
        else if String.eqb op "<" then inl (fun r => tlsinspect.CipherSuites r <? n)
        else if String.eqb op "<=" then inl (fun r => tlsinspect.CipherSuites r <=? n)
        else if String.eqb op "==" then inl (fun r => tlsinspect.CipherSuites r =? n)
        else inr (ErrUnsupportedOperator op)
      end
    else if String.eqb field "ja3" then
      if negb (String.eqb op "==") then inr ErrJA3Operator
      else
        let hexVal := strings.ToLower val in
        if negb (Z.of_nat (String.length hexVal) =? 32) then inr ErrJA3Length
        else if negb (allLowerHex hexVal) then inr ErrJA3Hex
        else inl (fun r => String.eqb (tlsinspect.JA3 r) hexVal)
    else if String.eqb field "sni_contains" then
      if String.eqb val "" then inr ErrEmptySubstring
      else
        let needle := strings.ToLower val in
        inl (fun r => negb (String.eqb (tlsinspect.SNI r) "")
                      && Contains (strings.ToLower (tlsinspect.SNI r)) needle)
    else if String.eqb field "alpn_contains" then
      if String.eqb val "" then inr ErrEmptyALPN
      else
        let needle := strings.ToLower val in
        inl (fun r => existsb (fun p => String.eqb (strings.ToLower p) needle)
                        (tlsinspect.ALPN r))
    else inr (ErrUnsupportedField field)
  end.

(** [func parseLine(line string) (Rule, error)] *)
Definition parseLine (line : string) : Rule + error :=
  let lower := strings.ToLower line in
  if negb (HasPrefix lower "when ") then inr ErrMissingWhen
  else
    match SplitN2 (dropStr (String.length "when ") lower) " then " with
    | [part0; part1] =>
        let cond := strings.TrimSpace part0 in
        let action := strings.TrimSpace part1 in
        let prof := strings.ToUpper action in
        if String.eqb prof "" then inr ErrInvalidProfile
        else
          match parseCondition cond with
          | inr e => inr e
          | inl predicate => inl (mkRule line predicate prof)
          end
    | _ => inr ErrMissingThen
    end.

(** [bufio.MaxScanTokenSize] *)
Definition MaxScanTokenSize : Z := 64 * 1024.

(** The [dropCR] of [bufio.ScanLines]: one trailing carriage return goes. *)
Fixpoint dropCR (s : string) : string :=
  match s with
  | EmptyString => EmptyString
  | String c EmptyString => if Ascii.eqb c "013" then EmptyString else s
  | String c s' => String c (dropCR s')
  end.

(** A [bufio.Scanner] with the default [ScanLines] run over a text to its
    end: the tokens [s.Scan()] hands out, in order, and [ErrTooLong] when a
    line fills the scanner's buffer before its line feed, which stops the
    scan; the lines before it were handed out.  [cur] is the line being read,
    reversed, and [n] its length. *)
Fixpoint scanFrom (s : string) (cur : list ascii) (n : Z)
    : list string * option lib_error :=
  match s with
  | EmptyString =>
      match cur with
      | [] => ([], None)
      | _ => ([dropCR (revString cur)], None)
      end
  | String c s' =>
      if Ascii.eqb c "010"
      then let '(lines, e) := scanFrom s' [] 0 in (dropCR (revString cur) :: lines, e)
      else if n + 1 >=? MaxScanTokenSize then ([], Some ScannerErrTooLong)
      else scanFrom s' (c :: cur) (n + 1)
  end.

(** The scanner on a reader that reports its end with a read of its own:
    the tokens, then [s.Err()].  When the reader ends with an error, the
    text delivered before it is scanned to its end, the last line included,
    and the error of the reader is the error of the scanner. *)
Definition scanLines (r : TextReader) : list string * option lib_error :=
  let '(lines, tooLong) := scanFrom (content r) [] 0 in
  (lines,
   match tooLong with
   | Some e => Some e
   | None => option_map ReaderError (failure r)
   end).

(** The [for s.Scan()] loop of [Parse] over the scanned lines: the rules
    appended so far, or the [return Set{}, fmt.Errorf("line %d: %w", ...)]. *)
Fixpoint parseLines (lines : list string) (lineNo : Z) (set : list Rule)
    : list Rule + error :=
  match lines with
  | [] => inl set
  | text :: lines' =>
      let lineNo := lineNo + 1 in
      let line := strings.TrimSpace text in
      if String.eqb line "" || HasPrefix line "#"
      then parseLines lines' lineNo set
      else
        match parseLine line with
        | inr e => inr (ErrLine lineNo e)
        | inl rw => parseLines lines' lineNo (set ++ [rw])
        end
  end.

(** [func Parse(r io.Reader) (Set, error)] *)
Definition Parse (r : TextReader) : Set_ * option error :=
  let '(lines, scanErr) := scanLines r in
  match parseLines lines 0 [] with
  | inr e => (emptySet, Some e)
  | inl set =>
      match scanErr with
      | Some e => (emptySet, Some (ErrScanner e))
      | None => (mkSet set, None)
      end
  end.

End WithStrings.

(** [for _, r := range s.Rules { if r.Predicate(res) { return r.Profile, true } }] *)
Fixpoint matchRules (rs : list Rule) (res : tlsinspect.Result)
    : impair.ProfileName * bool :=
  match rs with
  | [] => ("", false)
  | r :: rs' => if Predicate r res then (Profile r, true) else matchRules rs' res
  end.

(** [func (s Set) Match(res tlsinspect.Result) (impair.ProfileName, bool)] *)
Definition Match (s : Set_) (res : tlsinspect.Result) : impair.ProfileName * bool :=
  matchRules (Rules s) res.

End rules.

(** ** Package [proxy]: the dispatch of the connection engine *)

Module proxy.

(** The five shaping strategies [HandleConnection] can hand a connection
    to.  What a strategy does to the sockets (copying, sleeping, resetting)
    is outside this development. *)
Inductive strategy :=
| handleAbortAfterCH
| handleMTUBlackhole
| handleLatencyJitter
| handleBandwidthLimit
| handleCleanPassthrough.

(** The [switch cfg.Profile] of [HandleConnection] (lines 104-115). *)
Definition dispatch (cfg : impair.Config) : strategy :=
  let p := impair.Profile cfg in
  if String.eqb p impair.ProfileAbortAfterCH then handleAbortAfterCH
  else if String.eqb p impair.ProfileMTUBlackhole then handleMTUBlackhole
  else if String.eqb p impair.ProfileLatencyJitter then handleLatencyJitter
  else if String.eqb p impair.ProfileBandwidthLimit then handleBandwidthLimit
  else handleCleanPassthrough.

(** [func HandleConnection(client, upstreamAddr, cfg, id, logger) error]:
    [dial] is the error of [net.DialTimeout], if any, and [run] what the
    chosen strategy returns on this connection's sockets.  The result is
    the strategy that ran, if one did, and the returned error message. *)
Definition HandleConnection (dial : option string) (run : strategy -> option string)
    (cfg : impair.Config) : option strategy * option string :=
  match dial with
  | Some e => (None, Some ("dial upstream: " +++ e))
  | None => (Some (dispatch cfg), run (dispatch cfg))
  end.

End proxy.

(** ** Command [pathlab]: the rules endpoint and the accept loop *)

Module pathlab.

(** Modelled from the spec: the struct [receipts.Receipt] of package
    [internal/receipts], which is not among the sources.  The fields are
    those named by the composite literal in [main] (lines 297-313) and by
    the data model of the specification; [Hash] and [Sig] are filled in by
    the receipt manager and are left out. *)
Record Receipt := mkReceipt {
  ConnID : Z;
  Timestamp : Z;
  ClientAddr : string;
  UpstreamAddr : string;
  AppliedProfile : string;
  GlobalProfile : string;
  RuleMatched : string;
  HandshakeBytes : Z;
  CipherCount : Z;
  PQCHint : bool;
  SNI : string;
  ALPN : list string;
  JA3 : string;
  Outcome : string;
  Error : string
}.

(** What the [POST /rules] handler writes. *)
Inductive response :=
| BadRequest (message : string)   (* http.Error(w, message, 400) *)
| Loaded (n : Z).                 (* {"loaded": n} *)

Section Handlers.

Variable quote : string -> string.
Variable fmtUnicode : ascii -> string.
Context {lib : strings.Library}.

(** The [http.MethodPost] case of the [/rules] handler (lines 198-206):
    [ruleSet] is the value the atomic holds before the request, [body] the
    body of the request; the result is the value it holds after, and the
    response. *)
Definition rulesPOST (ruleSet : rules.Set_) (body : Go.TextReader)
    : rules.Set_ * response :=
  match rules.Parse body with
  | (_, Some err) =>
      (ruleSet, BadRequest ("parse error: " +++ rules.Error quote fmtUnicode err))
  | (set, None) => (set, Loaded (Go.len (rules.Rules set)))
  end.

End Handlers.

(** The profile selection of the accept loop (lines 270-277): [chosen]
    starts as the global profile and is overwritten by a matching rule when
    the ClientHello parsed. *)
Definition chooseProfile (baseCfg : impair.Config) (res : tlsinspect.Result)
    (perr : option tlsinspect.error) (ruleSet : rules.Set_) : impair.ProfileName :=
  let chosen := impair.Profile baseCfg in
  match perr with
  | None =>
      let '(prof, ok) := rules.Match ruleSet res in
      if ok then prof else chosen
  | Some _ => chosen
  end.

(** The per-connection goroutine of [main] from the parse on (lines
    269-315), given what [ParseClientHello] returned for the connection:
    the strategy the connection was handed to and the receipt passed to
    [rcpts.Add].  [state] and [ruleSet] are the shared values as loaded by
    this connection, [now] is [time.Now().UTC()] at teardown, [dial] and
    [run] are as in [proxy.HandleConnection]. *)
Definition serveParsed (id now : Z) (clientAddr upstreamAddr : string)
    (state : impair.State) (ruleSet : rules.Set_)
    (dial : option string) (run : proxy.strategy -> option string)
    (parsed : tlsinspect.output) : option proxy.strategy * Receipt :=
  let baseCfg := impair.Get state in
  let res := tlsinspect.res parsed in
  let chosen := chooseProfile baseCfg res (tlsinspect.err parsed) ruleSet in
  let cfg := impair.setProfile baseCfg chosen in
  let '(ran, err) := proxy.HandleConnection dial run cfg in
  let '(outcome, errStr) :=
    match err with
    | Some e => ("error", e)
    | None => ("closed", "")
    end in
  (ran,
   mkReceipt id now clientAddr upstreamAddr
     (impair.Profile cfg) (impair.Profile baseCfg) chosen
     (tlsinspect.HandshakeBytes res) (tlsinspect.CipherSuites res)
     (tlsinspect.PQCHint res) (tlsinspect.SNI res) (tlsinspect.ALPN res)
     (tlsinspect.JA3 res) outcome errStr).

(** The goroutine on the bytes [conn] of the client connection. *)
Definition serve (md5_hex : string -> string) (id now : Z)
    (clientAddr upstreamAddr : string)
    (state : impair.State) (ruleSet : rules.Set_)
    (dial : option string) (run : proxy.strategy -> option string)
    (conn : Go.Reader) : option (option proxy.strategy * Receipt) :=
  option_map (serveParsed id now clientAddr upstreamAddr state ruleSet dial run)
             (tlsinspect.ParseClientHello md5_hex conn).

(** The state [main] starts the listener with (lines 52-53 and 64-65). *)
Definition initialState (now : Z) : impair.State :=
  impair.Apply impair.zeroState
    (impair.mkConfig impair.ProfileClean 1300 0 0 0 0 0 "" 0) now.

Definition initialRuleSet : rules.Set_ := rules.emptySet.

End pathlab.

(** ** Command [pathlab]: the other methods of the rules endpoint *)

Module admin.

(** The [http.MethodGet] case of the [/rules] handler (lines 192-197): the
    raw lines of the rules currently stored, in order. *)
Definition rulesGET (ruleSet : rules.Set_) : list string :=
  map rules.Raw (rules.Rules ruleSet).

(** The [http.MethodDelete] case (lines 207-209): the stored value after
    the request and the status written. *)
Definition rulesDELETE (ruleSet : rules.Set_) : rules.Set_ * Z :=
  (rules.emptySet, 204).

End admin.

(** ** Package [proxy]: the arithmetic of the shaping strategies *)

Module shaping.
Import Go.

(** A Go [int] and a [time.Duration] are 64 bits wide. *)
Definition wrap64 (x : Z) : Z := (x + 2 ^ 63) mod 2 ^ 64 - 2 ^ 63.

(** [time.Millisecond] and [time.Second], in nanoseconds. *)
Definition Millisecond : Z := 1000000.
Definition Second : Z := 1000000000.

(** [handleMTUBlackhole], lines 190-193: the threshold in force. *)
Definition blackholeThreshold (cfg : impair.Config) : Z :=
  let th := impair.ThresholdBytes cfg in
  if th <=? 0 then 1300 else th.

(** [handleMTUBlackhole], lines 197-202: the bytes written to upstream. *)
Definition blackholeToSend (cfg : impair.Config) (raw : list byte) : list byte :=
  let th := blackholeThreshold cfg in
  let toSend := raw in
  if len toSend >? th then slice toSend 0 th else toSend.

(** [handleMTUBlackhole], lines 254-255: how long the connection is held. *)
Definition blackholeDuration (cfg : impair.Config) : Z :=
  let dur := wrap64 (impair.BlackholeSeconds cfg * Second) in
  if dur <=? 0 then wrap64 (30 * Second) else dur.

(** [handleLatencyJitter], lines 273-279: the delay before the hello and
    before every later chunk; [now] is [time.Now().UnixNano()].  [None] is
    the run-time panic of [%] when the jitter in nanoseconds wraps to 0. *)
Definition latencyDelay (cfg : impair.Config) (now : Z) : option Z :=
  let delay := wrap64 (impair.LatencyMs cfg * Millisecond) in
  if impair.JitterMs cfg >? 0 then
    let j := wrap64 (impair.JitterMs cfg * Millisecond) in
    if j =? 0 then None
    else
      let delay := wrap64 (delay + wrap64 (Z.rem now j - Z.quot j 2)) in
      Some (if delay <? 0 then 0 else delay)
  else Some delay.

(** [handleBandwidthLimit], lines 314-326: the rate, the read size and the
    capacity of the bucket. *)
Record bucketParams := mkParams {
  bytesPerSec : Z;
  chunk : Z;
  bucketCap : Z
}.

Definition bandwidthParams (cfg : impair.Config) : bucketParams :=
  let limitKbps := impair.BandwidthKbps cfg in
  let limitKbps := if limitKbps <=? 0 then 1000 else limitKbps in
  let bytesPerSec := wrap64 (limitKbps * 125) in
  let bytesPerSec := if bytesPerSec <=? 0 then 125000 else bytesPerSec in
  let chunk := 8 * 1024 in
  let chunk := if chunk >? bytesPerSec then bytesPerSec else chunk in
  mkParams bytesPerSec chunk (Z.quot bytesPerSec 5).

(** What forwarding one read has done: the writes to upstream in order, the
    bucket afterwards, the ticks waited for. *)
Record forwarded := mkForwarded {
  writes : list (list byte);
  bucketAfter : Z;
  ticks : Z
}.

(** [handleBandwidthLimit], lines 340-346: the loop that sends the rest of
    a read after the bucket ran dry, one refill per turn.  [None] is the
    loop still running when the fuel is spent. *)
Fixpoint refillLoop (fuel : nat) (bucketCap : Z) (buf : list byte)
    (n toSend bucket : Z) (done : forwarded) : option forwarded :=
  match fuel with
  | O => None
  | S fuel' =>
    if n >? 0 then
      let bucket := bucketCap in
      let w := n in
      let w := if w >? bucket then bucket else w in
      refillLoop fuel' bucketCap buf (n - w) (toSend + w) (bucket - w)
        (mkForwarded (writes done ++ [slice buf toSend (toSend + w)])
                     (bucket - w) (ticks done + 1))
    else Some (mkForwarded (writes done) bucket (ticks done))
  end.

(** [handleBandwidthLimit], lines 331-350: one turn of the client-to-upstream
    loop for a read that returned the bytes [buf] (so [n = len buf]), with
    [bucket] tokens left from the turns before. *)
Definition forwardRead (bucketCap bucket : Z) (buf : list byte) : option forwarded :=
  let '(bucket, waited) := if bucket <=? 0 then (bucketCap, 1) else (bucket, 0) in
  let n := len buf in
  if n >? 0 then
    if n >? bucket then
      let toSend := bucket in
      let '(sent, n) :=
        if toSend >? 0 then ([slice buf 0 toSend], n - toSend) else ([], n) in
      let bucket := 0 in
      refillLoop (S (List.length buf)) bucketCap buf n toSend bucket
        (mkForwarded sent bucket waited)
    else Some (mkForwarded [slice buf 0 n] (bucket - n) waited)
  else Some (mkForwarded [] bucket waited).

End shaping.

(** ** Command [pathlab]: replaying the bytes already read *)

Module replay.
Import Go.

Section Rest.

(** The live connection behind the replayed bytes: its state, and its
    [Read] into a buffer of a given length (the bytes delivered and the
    state after). *)
Variable Conn : Type.
Variable connRead : Conn -> Z -> list byte * Conn.

(** [type prependReader struct] *)
Record prependReader := mkPrepend {
  prefix : list byte;
  rest : Conn
}.

(** [func (p *prependReader) Read(b []byte) (int, error)] with
    [len(b) = n]: the bytes copied into [b] and the reader afterwards. *)
Definition Read (p : prependReader) (n : Z) : list byte * prependReader :=
  if len (prefix p) >? 0 then
    let copied := if n <? len (prefix p) then n else len (prefix p) in
    (slice (prefix p) 0 copied, mkPrepend (skipn (Z.to_nat copied) (prefix p)) (rest p))
  else
    let '(bytes, c) := connRead (rest p) n in
    (bytes, mkPrepend (prefix p) c).

(** A run of [Read]s with buffers of the given lengths: the chunks
    delivered, in order, and the reader afterwards. *)
Fixpoint readMany (sizes : list Z) (p : prependReader)
    : list (list byte) * prependReader :=
  match sizes with
  | [] => ([], p)
  | n :: sizes' =>
      let '(chunk, p1) := Read p n in
      let '(chunks, p2) := readMany sizes' p1 in
      (chunk :: chunks, p2)
  end.

End Rest.

(** Lines 279-280 of [main]: the reader handed to the strategy replays the
    handshake bytes [raw] and whatever else the buffered reader held. *)
Definition replayReader {Conn : Type} (raw buffered : list byte) (c : Conn)
    : prependReader Conn :=
  mkPrepend Conn (raw ++ buffered) c.

End replay.

(** ** Vocabulary of the statements *)

Module Spec.
Import Go.

(** The 24-bit big-endian length in bytes 1-3 of a handshake message. *)
Definition headerLength (hs : list byte) : Z :=
  Z.lor (Z.lor (Z.shiftl (u8 (at_ hs 1)) 16) (Z.shiftl (u8 (at_ hs 2)) 8))
        (u8 (at_ hs 3)).

(** A TLS record on the wire, as its five header bytes and its body. *)
Definition tlsRecord : Type := list byte * list byte.

Definition encodeRecords (recs : list tlsRecord) : list byte :=
  flat_map (fun hb => fst hb ++ snd hb) recs.

Definition payload (recs : list tlsRecord) : list byte :=
  flat_map snd recs.


(** The fields of a [Result] that the record loop and the lines after it
    decide; the best-effort body parse leaves them alone. *)
Definition framing (res : tlsinspect.Result) : Z * Z * bool * Z :=
  (tlsinspect.HandshakeBytes res, tlsinspect.RecordsBytes res,
   tlsinspect.PQCHint res, tlsinspect.ClientHelloLen res).

(** The right-hand side of the GREASE property of the specification. *)
Definition greasePattern (v : Z) : bool :=
  (Z.land v 0x0F0F =? 0x0A0A) && (Z.shiftr v 8 =? Z.land v 0xFF).

(** [isGrease] compared with the pattern and with the sixteen values. *)
Definition greaseAgrees (v : Z) : bool :=
  Bool.eqb (tlsinspect.isGrease v) (greasePattern v)
  && Bool.eqb (tlsinspect.isGrease v) (existsb (Z.eqb v) tlsinspect.greaseValues).

(** The loop invariant of [ParseClientHello]: the handshake header is
    either still to come, or decoded into [need] and [res]. *)
Definition loopInv (buf : list byte) (need : Z) (res : tlsinspect.Result) : Prop :=
  (need = -1 /\ len buf < 4) \/
  (4 <= len buf /\ len buf < need /\ need = headerLength buf + 4 /\
   tlsinspect.ClientHelloLen res = headerLength buf /\ u8 (at_ buf 0) = 1).

(** A line of a rules text that [Parse] hands to [parseLine] and that
    [parseLine] rejects. *)
Definition lineFails {lib : strings.Library} (text : string) : bool :=
  let line := strings.TrimSpace text in
  if String.eqb line "" || HasPrefix line "#" then false
  else match rules.parseLine line with
       | inr _ => true
       | inl _ => false
       end.

(** No white space in a string. *)
Fixpoint noSpace (s : string) : bool :=
  match s with
  | EmptyString => true
  | String c s' => negb (isSpace c) && noSpace s'
  end.

(** A digest for examples whose input never reaches the JA3 computation,
    or whose JA3 is not looked at. *)
Definition anyDigest : string -> string := fun s => s.

(** The ClientHello of the package's test: TLS 1.2, random 0..31, one
    cipher suite, no extensions, in one record. *)
Definition minimalHello : list byte :=
  map B ([0x16; 0x03; 0x01; 0x00; 0x2f; 0x01; 0x00; 0x00; 0x2b; 0x03; 0x03]
         ++ map Z.of_nat (seq 0 32)
         ++ [0x00; 0x00; 0x02; 0x13; 0x01; 0x01; 0x00; 0x00; 0x00]).

(** The minimal ClientHello in a record that carries one more byte after
    the end of the handshake message. *)
Definition helloWithTrailingByte : list byte :=
  map B ([0x16; 0x03; 0x01; 0x00; 0x30; 0x01; 0x00; 0x00; 0x2b; 0x03; 0x03]
         ++ map Z.of_nat (seq 0 32)
         ++ [0x00; 0x00; 0x02; 0x13; 0x01; 0x01; 0x00; 0x00; 0x00; 0x00]).

(** The 256 values of one byte. *)
Definition byteValues : list Z := map Z.of_nat (seq 0 256).

(** The datagram of the package's test: long header, packet number length
    bits 3, version 1, one-byte connection ids, empty token, length 5. *)
Definition minimalInitial : list byte :=
  map B [0xC3; 0; 0; 0; 1; 1; 0x11; 1; 0x22; 0x00; 0x05; 0; 0; 0; 0; 0].

(** A rules text whose second line is not a rule. *)
Definition rulesWithBadSecondLine : string :=
  "when ch_bytes > 100 then CLEAN" +++ String "010" "whenever".

(** Renderings of [strconv.Quote] and of the [%#U] verb for examples. *)
Definition anyQuote : string -> string := fun s => s.
Definition anyUnicode : ascii -> string := fun c => String c "".

(** A record as the loop of [ParseClientHello] accepts it: five header
    bytes, content type handshake, a length field that is the length of the
    body, between 1 and 16384+256. *)
Definition handshakeRecord (hb : tlsRecord) : Prop :=
  List.length (fst hb) = 5%nat /\
  u8 (at_ (fst hb) 0) = 0x16 /\
  be16 (fst hb) 3 = len (snd hb) /\
  1 <= len (snd hb) <= 16640.

(** A record of type application data carrying one byte. *)
Definition applicationDataRecord : list byte :=
  map B [0x17; 0x03; 0x03; 0x00; 0x01; 0x00].
(** A ClientHello with two cipher suites (one GREASE) and the extensions
    server_name (ExAmple.com), ALPN (h2), supported_groups (GREASE, x25519),
    ec_point_formats (uncompressed) and one GREASE extension. *)
Definition helloExtensions : list Z :=
  [0; 0; 0; 0x10; 0; 0x0e; 0; 0; 0x0b; 69; 120; 65; 109; 112; 108; 101; 46; 99; 111; 109;
   0; 0x10; 0; 5; 0; 3; 2; 104; 50;
   0; 0x0a; 0; 6; 0; 4; 0x0a; 0x0a; 0; 0x1d;
   0; 0x0b; 0; 2; 1; 0;
   0x1a; 0x1a; 0; 0].

Definition helloWithExtensionsBody : list Z :=
  [3; 3] ++ map Z.of_nat (seq 0 32)
  ++ [0; 0; 4; 0x0a; 0x0a; 0x13; 0x01; 1; 0; 0; len helloExtensions]
  ++ helloExtensions.

Definition helloWithExtensions : list byte :=
  map B ([0x16; 3; 1; 0; len helloWithExtensionsBody + 4;
          1; 0; 0; len helloWithExtensionsBody]
         ++ helloWithExtensionsBody).

(** The number a run of bytes spells in base 256, most significant byte
    first. *)
Definition beValue (l : list byte) : Z :=
  fold_left (fun a x => a * 256 + u8 x) l 0.

(** The length of a QUIC variable-length integer whose first byte is
    [first]: 1, 2, 4 or 8 by the two top bits. *)
Definition varintLength (first : byte) : Z := 2 ^ Z.shiftr (u8 first) 6.

(** A trimmed line that [Parse] treats as a rule: neither blank nor a
    comment. *)
Definition isRuleLine (line : string) : bool :=
  negb (String.eqb line "" || HasPrefix line "#").

(** All characters are hexadecimal digits. *)
Fixpoint allHex (s : string) : bool :=
  match s with
  | EmptyString => true
  | String c s' =>
      match rules.fromHexChar c with
      | Some _ => allHex s'
      | None => false
      end
  end.

(** The number a run of hexadecimal digits spells. *)
Fixpoint hexValueFrom (s : string) (acc : Z) : Z :=
  match s with
  | EmptyString => acc
  | String c s' =>
      hexValueFrom s' (acc * 16 + match rules.fromHexChar c with Some d => d | None => 0 end)
  end.

Definition hexValue (s : string) : Z := hexValueFrom s 0.

(** No line feed in a string. *)
Fixpoint noLineFeed (s : string) : bool :=
  match s with
  | EmptyString => true
  | String c s' => negb (Ascii.eqb c "010") && noLineFeed s'
  end.

(** A rule line with another action: the text up to and with the first
    [ then ] of the line, found as [parseLine] finds it on ASCII text, then
    [a]. *)
Definition withAction (line a : string) : string :=
  match Cut (dropStr 5 (ToLower line)) " then " with
  | Some (part0, _) => takeStr (5 + String.length part0 + 6) line +++ a
  | None => line
  end.

(** [n] times the character [c]. *)
Fixpoint replicate (n : nat) (c : ascii) : string :=
  match n with
  | O => EmptyString
  | S n' => String c (replicate n' c)
  end.

(** A rules text whose second line is as long as the buffer of the scanner
    can get. *)
Definition rulesWithOverlongLine : string :=
  "when ch_bytes > 100 then CLEAN" +++ String "010" (replicate (Z.to_nat 65536) "a").

(** The body of a request that breaks off after its first rule. *)
Definition rulesCutShort : TextReader :=
  mkTextReader "when ch_bytes > 100 then CLEAN" (Some "unexpected EOF").

(** A rules text with a comment, a blank line and two rules. *)
Definition rulesWithComment : string :=
  "# drills" +++ String "010" (String "010"
    ("  when ch_bytes > 1400 then MTU1300_BLACKHOLE" +++ String "010"
       "when pqc_hint == true then abort_after_ch")).

(** The four profile names with a shaping strategy of their own. *)
Definition shapingProfiles : list impair.ProfileName :=
  [impair.ProfileAbortAfterCH; impair.ProfileMTUBlackhole;
   impair.ProfileLatencyJitter; impair.ProfileBandwidthLimit].

(** What one write of the rate limiter must look like: not empty and within
    the capacity of the bucket. *)
Definition withinBucket (bucketCap : Z) (w : list byte) : Prop :=
  0 < len w <= bucketCap.

(** A run of [Read]s on the live connection itself. *)
Fixpoint connReadMany {Conn : Type} (connRead : Conn -> Z -> list byte * Conn)
    (sizes : list Z) (c : Conn) : list (list byte) * Conn :=
  match sizes with
  | [] => ([], c)
  | n :: sizes' =>
      let '(chunk, c1) := connRead c n in
      let '(chunks, c2) := connReadMany connRead sizes' c1 in
      (chunk :: chunks, c2)
  end.

End Spec.

(** * Proofs *)

Section Proofs.
Import Go tlsinspect Spec.

(** ** Bytes, slices and readers *)

Lemma u8_range (b : byte) : 0 <= u8 b < 256.
Proof.
  unfold u8. pose proof (Byte.to_N_bounded b). lia.
Qed.

Lemma len_nonneg {A} (s : list A) : 0 <= len s.
Proof. unfold len. lia. Qed.

Lemma len_app {A} (s t : list A) : len (s ++ t) = len s + len t.
Proof. unfold len. rewrite length_app. lia. Qed.

Lemma be16_range (s : list byte) (i : Z) : 0 <= be16 s i < 65536.
Proof.
  unfold be16.
  pose proof (u8_range (at_ s i)) as Ha. pose proof (u8_range (at_ s (i + 1))) as Hb.
  assert (Hs : 0 <= Z.shiftl (u8 (at_ s i)) 8) by (apply Z.shiftl_nonneg; lia).
  split.
  - apply Z.lor_nonneg. lia.
  - assert (H16 : 65536 = 2 ^ 16) by reflexivity. rewrite H16.
    assert (Hlor : 0 <= Z.lor (Z.shiftl (u8 (at_ s i)) 8) (u8 (at_ s (i + 1))))
      by (apply Z.lor_nonneg; lia).
    destruct (Z.eq_dec (Z.lor (Z.shiftl (u8 (at_ s i)) 8) (u8 (at_ s (i + 1)))) 0) as [E|E]; [lia|].
    apply Z.log2_lt_pow2; [lia|].
    rewrite Z.log2_lor by lia.
    apply Z.max_lub_lt.
    + destruct (Z.eq_dec (u8 (at_ s i)) 0) as [E0|E0].
      * rewrite E0. rewrite Z.shiftl_0_l. simpl. lia.
      * rewrite Z.log2_shiftl by lia.
        assert (Z.log2 (u8 (at_ s i)) < 8) by (apply Z.log2_lt_pow2; simpl; lia). lia.
    + destruct (Z.eq_dec (u8 (at_ s (i+1))) 0) as [E0|E0].
      * rewrite E0. simpl. lia.
      * assert (Z.log2 (u8 (at_ s (i+1))) < 8) by (apply Z.log2_lt_pow2; simpl; lia). lia.
Qed.

Lemma ReadFull_ok (r : Reader) (n : Z) (x : list byte) (r' : Reader) :
  0 <= n -> ReadFull r n = inl (x, r') -> r = x ++ r' /\ len x = n.
Proof.
  unfold ReadFull, slice, len. intros Hn H.
  destruct (Z.ltb_spec (Z.of_nat (List.length r)) n) as [Hlt|Hge]; [discriminate|].
  injection H as <- <-. simpl skipn. rewrite Z.sub_0_r.
  split.
  - symmetry. apply firstn_skipn.
  - rewrite length_firstn. lia.
Qed.

(** ** The record loop of [ParseClientHello] *)

Lemma at_app_l (s t : list byte) (i : Z) :
  0 <= i < len s -> at_ (s ++ t) i = at_ s i.
Proof.
  unfold at_, len. intros H. apply app_nth1. lia.
Qed.

Lemma at_slice0 (s : list byte) (n i : Z) :
  0 <= i < n -> at_ (slice s 0 n) i = at_ s i.
Proof.
  unfold at_, slice. intros H. simpl skipn. rewrite Z.sub_0_r.
  rewrite nth_firstn.
  destruct (Nat.ltb_spec (Z.to_nat i) (Z.to_nat n)); [reflexivity | lia].
Qed.

Lemma headerLength_app (s t : list byte) :
  4 <= len s -> headerLength (s ++ t) = headerLength s.
Proof.
  intros H. unfold headerLength. rewrite !at_app_l by lia. reflexivity.
Qed.

Lemma headerLength_slice0 (s : list byte) (n : Z) :
  4 <= n -> headerLength (slice s 0 n) = headerLength s.
Proof.
  intros H. unfold headerLength. rewrite !at_slice0 by lia. reflexivity.
Qed.

Lemma len_slice0 {A} (s : list A) (n : Z) :
  0 <= n <= len s -> len (slice s 0 n) = n.
Proof.
  unfold len, slice. intros H. simpl skipn. rewrite Z.sub_0_r, length_firstn. lia.
Qed.

Lemma slice0_split {A} (s : list A) (n : Z) :
  s = slice s 0 n ++ skipn (Z.to_nat n) s.
Proof.
  unfold slice. simpl skipn. rewrite Z.sub_0_r. symmetry. apply firstn_skipn.
Qed.

Lemma headerLength_nonneg (s : list byte) : 0 <= headerLength s.
Proof.
  unfold headerLength.
  pose proof (u8_range (at_ s 1)). pose proof (u8_range (at_ s 2)).
  pose proof (u8_range (at_ s 3)).
  apply Z.lor_nonneg. split; [|lia].
  apply Z.lor_nonneg. split; apply Z.shiftl_nonneg; lia.
Qed.

Lemma setClientHelloLen_twice (res : Result) (a b : Z) :
  setClientHelloLen (setClientHelloLen res a) b = setClientHelloLen res b.
Proof. reflexivity. Qed.

Lemma setClientHelloLen_same (res : Result) :
  res = setClientHelloLen res (ClientHelloLen res).
Proof. destruct res; reflexivity. Qed.

Lemma readRecords_S (fuel : nat) (r : Reader) (buf : list byte)
    (total need : Z) (res : Result) :
  readRecords (S fuel) r buf total need res =
  match ReadFull r 5 with
  | inr (e, r') => Some (Failed res (ErrReadRecordHeader e) r')
  | inl (hdr, r1) =>
    if (be16 hdr 3 <=? 0) || (be16 hdr 3 >? Z.shiftl 1 14 + 256)
    then Some (Failed res ErrInvalidRecordLength r1)
    else
      match ReadFull r1 (be16 hdr 3) with
      | inr (e, r') => Some (Failed res (ErrReadRecordBody e) r')
      | inl (body, r2) =>
        if negb (u8 (at_ hdr 0) =? 0x16)
        then Some (Failed res (ErrUnexpectedContentType (at_ hdr 0) (be16 hdr 1)) r2)
        else
          if (need <? 0) && (len (buf ++ body) >=? 4)
          then
            if negb (u8 (at_ (buf ++ body) 0) =? 0x01)
            then Some (Failed res (ErrNotClientHello (at_ (buf ++ body) 0)) r2)
            else
              if (headerLength (buf ++ body) + 4 >? 0)
                 && (len (buf ++ body) >=? headerLength (buf ++ body) + 4)
              then Some (Assembled (slice (buf ++ body) 0 (headerLength (buf ++ body) + 4))
                           (setClientHelloLen res (headerLength (buf ++ body)))
                           (total + (5 + be16 hdr 3)) r2)
              else readRecords fuel r2 (buf ++ body) (total + (5 + be16 hdr 3))
                     (headerLength (buf ++ body) + 4)
                     (setClientHelloLen res (headerLength (buf ++ body)))
          else
            if (need >? 0) && (len (buf ++ body) >=? need)
            then Some (Assembled (slice (buf ++ body) 0 need) res
                         (total + (5 + be16 hdr 3)) r2)
            else readRecords fuel r2 (buf ++ body) (total + (5 + be16 hdr 3)) need res
      end
  end.
Proof. reflexivity. Qed.

Lemma readRecords_assembled (fuel : nat) :
  forall r buf total need res raw res' total' r',
  loopInv buf need res ->
  readRecords fuel r buf total need res = Some (Assembled raw res' total' r') ->
  exists recs surplus,
    recs <> [] /\
    Forall (fun hb : tlsRecord => List.length (fst hb) = 5%nat) recs /\
    r = encodeRecords recs ++ r' /\
    total' = total + 5 * len recs + len (payload recs) /\
    buf ++ payload recs = raw ++ surplus /\
    len raw = headerLength raw + 4 /\
    ClientHelloLen res' = headerLength raw /\
    u8 (at_ raw 0) = 1 /\
    res' = setClientHelloLen res (ClientHelloLen res').
Proof.
  induction fuel as [|fuel IH]; intros r buf total need res raw res' total' r' Hinv H.
  - discriminate.
  - rewrite readRecords_S in H.
    destruct (ReadFull r 5) as [[hdr r1]|[e r0]] eqn:Hhdr; [|discriminate].
    apply ReadFull_ok in Hhdr; [|lia]. destruct Hhdr as [Hr Hlh].
    pose proof (be16_range hdr 3) as Hlen.
    destruct ((be16 hdr 3 <=? 0) || (be16 hdr 3 >? Z.shiftl 1 14 + 256)) eqn:Hchk; [discriminate|].
    apply orb_false_elim in Hchk. destruct Hchk as [Hpos _].
    apply Z.leb_gt in Hpos.
    destruct (ReadFull r1 (be16 hdr 3)) as [[body r2]|[e r0]] eqn:Hbody; [|discriminate].
    apply ReadFull_ok in Hbody; [|lia]. destruct Hbody as [Hr1 Hlb].
    destruct (negb (u8 (at_ hdr 0) =? 22)); [discriminate|].
    remember (total + (5 + be16 hdr 3)) as tot1 eqn:Htot1.
    (* the tail shared by both branches *)
    assert (Hexit : forall need1 res1,
      res1 = setClientHelloLen res (ClientHelloLen res1) ->
      4 <= len (buf ++ body) -> need1 = headerLength (buf ++ body) + 4 ->
      ClientHelloLen res1 = headerLength (buf ++ body) ->
      u8 (at_ (buf ++ body) 0) = 1 ->
      (if (need1 >? 0) && (len (buf ++ body) >=? need1)
       then Some (Assembled (slice (buf ++ body) 0 need1) res1 tot1 r2)
       else readRecords fuel r2 (buf ++ body) tot1 need1 res1)
      = Some (Assembled raw res' total' r') ->
      exists recs surplus,
        recs <> [] /\
        Forall (fun hb : tlsRecord => List.length (fst hb) = 5%nat) recs /\
        r = encodeRecords recs ++ r' /\
        total' = total + 5 * len recs + len (payload recs) /\
        buf ++ payload recs = raw ++ surplus /\
        len raw = headerLength raw + 4 /\
        ClientHelloLen res' = headerLength raw /\
        u8 (at_ raw 0) = 1 /\
        res' = setClientHelloLen res (ClientHelloLen res')).
    { intros need1 res1 Hres1 Hl4 Hneed1 Hchl Hty Hx.
      pose proof (headerLength_nonneg (buf ++ body)) as Hhl.
      destruct ((need1 >? 0) && (len (buf ++ body) >=? need1)) eqn:Hdone.
      - injection Hx as <- <- <- <-.
        apply andb_prop in Hdone. destruct Hdone as [_ Hge].
        apply Z.geb_le in Hge.
        exists [(hdr, body)], (skipn (Z.to_nat need1) (buf ++ body)).
        split; [discriminate|].
        split; [constructor; [cbn [fst]; unfold len in Hlh; lia | constructor]|].
        split; [unfold encodeRecords; cbn [flat_map fst snd]; rewrite app_nil_r, <- app_assoc; congruence|].
        split; [unfold payload; cbn [flat_map snd]; rewrite app_nil_r; unfold len in *; cbn [List.length]; lia|].
        split; [unfold payload; cbn [flat_map snd]; rewrite app_nil_r; apply slice0_split|].
        rewrite headerLength_slice0 by lia.
        rewrite len_slice0 by lia.
        rewrite at_slice0 by lia.
        auto.
      - apply IH in Hx.
        + destruct Hx as (recs & surplus & Hne & Hall & Hr2 & Htot & Hbuf & Hraw & Hc & Ht & Hres).
          exists ((hdr, body) :: recs), surplus.
          split; [discriminate|].
          split; [constructor; [cbn [fst]; unfold len in Hlh; lia | exact Hall]|].
          split; [unfold encodeRecords in *; cbn [flat_map fst snd]; rewrite <- !app_assoc; congruence|].
          split.
          { unfold payload in *. cbn [flat_map snd]. unfold len in *. rewrite length_app. cbn [List.length]. lia. }
          split; [unfold payload in *; cbn [flat_map snd]; rewrite app_assoc; exact Hbuf|].
          repeat split; try assumption.
          rewrite Hres, Hres1. reflexivity.
        + right. apply andb_false_iff in Hdone.
          repeat split; try assumption.
          destruct Hdone as [Hd|Hd]; [rewrite Z.gtb_ltb in Hd; apply Z.ltb_ge in Hd; lia|].
          rewrite Z.geb_leb in Hd. apply Z.leb_gt in Hd. exact Hd. }
    destruct ((need <? 0) && (len (buf ++ body) >=? 4)) eqn:Hfirst.
    + apply andb_prop in Hfirst. destruct Hfirst as [Hneg H4].
      apply Z.ltb_lt in Hneg. apply Z.geb_le in H4.
      destruct (u8 (at_ (buf ++ body) 0) =? 1) eqn:Hty; [|discriminate].
      cbn [negb] in H.
      apply Z.eqb_eq in Hty.
      refine (Hexit (headerLength (buf ++ body) + 4)
                (setClientHelloLen res (headerLength (buf ++ body)))
                eq_refl H4 eq_refl eq_refl Hty H).
    + destruct Hinv as [[Hn Hl]|(Hl4 & Hlt & Hneed & Hchl & Hty)].
      * (* header still to come, and still fewer than four bytes *)
        subst need. cbn [Z.ltb Z.compare andb] in Hfirst.
        rewrite Z.geb_leb in Hfirst. apply Z.leb_gt in Hfirst.
        cbn [Z.gtb Z.compare andb] in H. apply IH in H.
        -- destruct H as (recs & surplus & Hne & Hall & Hr2 & Htot & Hbuf & Hraw & Hc & Ht & Hres).
           exists ((hdr, body) :: recs), surplus.
           split; [discriminate|].
           split; [constructor; [cbn [fst]; unfold len in Hlh; lia | exact Hall]|].
           split; [unfold encodeRecords in *; cbn [flat_map fst snd]; rewrite <- !app_assoc; congruence|].
           split.
           { unfold payload in *. cbn [flat_map snd]. unfold len in *. rewrite length_app. cbn [List.length]. lia. }
           split; [unfold payload in *; cbn [flat_map snd]; rewrite app_assoc; exact Hbuf|].
           repeat split; assumption.
        -- left. split; [reflexivity | exact Hfirst].
      * pose proof (len_nonneg body) as Hb0.
        refine (Hexit need res _ _ _ _ _ H).
        -- apply setClientHelloLen_same.
        -- rewrite len_app. lia.
        -- rewrite headerLength_app by lia. exact Hneed.
        -- rewrite headerLength_app by lia. exact Hchl.
        -- rewrite at_app_l by lia. exact Hty.
Qed.

Lemma readRecords_total (fuel : nat) :
  forall r buf total need res,
  (List.length r < fuel)%nat ->
  readRecords fuel r buf total need res <> None.
Proof.
  induction fuel as [|fuel IH]; intros r buf total need res Hf; [lia|].
  rewrite readRecords_S.
  destruct (ReadFull r 5) as [[hdr r1]|[e r0]] eqn:Hhdr; [|discriminate].
  apply ReadFull_ok in Hhdr; [|lia]. destruct Hhdr as [Hr Hlh].
  destruct ((be16 hdr 3 <=? 0) || (be16 hdr 3 >? Z.shiftl 1 14 + 256)) eqn:Hchk; [discriminate|].
  apply orb_false_elim in Hchk. destruct Hchk as [Hpos _]. apply Z.leb_gt in Hpos.
  destruct (ReadFull r1 (be16 hdr 3)) as [[body r2]|[e r0]] eqn:Hbody; [|discriminate].
  apply ReadFull_ok in Hbody; [|lia]. destruct Hbody as [Hr1 Hlb].
  assert (Hshort : (List.length r2 < fuel)%nat).
  { subst r r1. rewrite !length_app in Hf. unfold len in *. lia. }
  destruct (negb (u8 (at_ hdr 0) =? 22)); [discriminate|].
  destruct ((need <? 0) && (len (buf ++ body) >=? 4)).
  - destruct (negb (u8 (at_ (buf ++ body) 0) =? 1)); [discriminate|].
    match goal with |- (if ?c then _ else _) <> None => destruct c end;
      [discriminate | apply IH; exact Hshort].
  - match goal with |- (if ?c then _ else _) <> None => destruct c end;
      [discriminate | apply IH; exact Hshort].
Qed.



Lemma serverNameLoop_framing (fuel : nat) :
  forall edata listLen p res,
  framing (serverNameLoop fuel edata listLen p res) = framing res.
Proof.
  induction fuel as [|fuel IH]; intros; cbn [serverNameLoop]; [reflexivity|].
  repeat match goal with
         | |- context [if ?c then _ else _] => destruct c
         end; try reflexivity; apply IH.
Qed.

Lemma alpnLoop_framing (fuel : nat) :
  forall edata listLen p res,
  framing (alpnLoop fuel edata listLen p res) = framing res.
Proof.
  induction fuel as [|fuel IH]; intros; cbn [alpnLoop]; [reflexivity|].
  repeat match goal with
         | |- context [if ?c then _ else _] => destruct c
         end; try reflexivity; rewrite IH; reflexivity.
Qed.

Lemma handleExtension_framing (etype : Z) (edata : list byte)
    (res : Result) (groups pf : list string) :
  framing (fst (fst (handleExtension etype edata (res, groups, pf)))) = framing res.
Proof.
  unfold handleExtension.
  repeat match goal with
         | |- context [if ?c then _ else _] => destruct c
         end; try reflexivity; cbn [fst].
  - apply serverNameLoop_framing.
  - apply alpnLoop_framing.
Qed.

Lemma extensionsLoop_framing (fuel : nat) :
  forall body extEnd off res exts groups pf,
  framing (fst (fst (fst (extensionsLoop fuel body extEnd off res exts groups pf))))
  = framing res.
Proof.
  induction fuel as [|fuel IH]; intros body extEnd off r0 exts groups pf;
    cbn [extensionsLoop]; [reflexivity|].
  destruct (off + 4 <=? extEnd); [|reflexivity].
  destruct (off + 4 + be16 body (off + 2) >? extEnd); [reflexivity|].
  pose proof (handleExtension_framing (be16 body off)
                (slice body (off + 4) (off + 4 + be16 body (off + 2))) r0 groups pf) as Hh.
  destruct (handleExtension _ _ _) as [[res1 groups1] pf1].
  cbn [fst] in Hh. rewrite IH. exact Hh.
Qed.

Lemma parseBody_framing (md5_hex : string -> string) (raw : list byte) (res : Result) :
  framing (parseBody md5_hex raw res) = framing res.
Proof.
  unfold parseBody.
  repeat match goal with
         | |- context [if ?c then _ else _] => destruct c
         end; try reflexivity.
  match goal with
  | |- context [extensionsLoop ?f ?b ?e ?o ?r ?x ?g ?p] =>
      pose proof (extensionsLoop_framing f b e o r x g p) as Hh;
      destruct (extensionsLoop f b e o r x g p) as [[[res1 exts1] groups1] pf1]
  end.
  cbn [fst] in Hh. exact Hh.
Qed.

(** What a successful [ParseClientHello] returns, in terms of the records
    it read. *)
Lemma ParseClientHello_success (md5_hex : string -> string) (r : Reader) (out : output) :
  ParseClientHello md5_hex r = Some out -> err out = None ->
  exists recs surplus,
    recs <> [] /\
    Forall (fun hb : tlsRecord => List.length (fst hb) = 5%nat) recs /\
    r = encodeRecords recs ++ rest out /\
    payload recs = raw out ++ surplus /\
    len (raw out) = headerLength (raw out) + 4 /\
    u8 (at_ (raw out) 0) = 1 /\
    framing (res out) =
      (len (raw out), 5 * len recs + len (payload recs),
       bytesContains (raw out) [B 0x11; B 0xec], headerLength (raw out)).
Proof.
  unfold ParseClientHello, ParseClientHelloFuel. intros H Herr.
  destruct (readRecords (S (List.length r)) r [] 0 (-1) zeroResult)
    as [[res1 e r1|raw1 res1 total1 r1]|] eqn:Hloop; try discriminate.
  - injection H as <-. discriminate.
  - injection H as <-.
    apply readRecords_assembled in Hloop; [|left; split; [reflexivity | unfold len; simpl; lia]].
    destruct Hloop as (recs & surplus & Hne & Hall & Hr & Htot & Hbuf & Hraw & Hc & Ht & Hres).
    exists recs, surplus. unfold finish. cbn [raw res rest].
    repeat split; try assumption.
    rewrite parseBody_framing. rewrite Hres. rewrite Hc, Htot.
    destruct (bytesContains raw1 [B 17; B 236]); reflexivity.
Qed.

Lemma ParseClientHello_total (md5_hex : string -> string) (r : Reader) :
  exists out, ParseClientHello md5_hex r = Some out.
Proof.
  unfold ParseClientHello, ParseClientHelloFuel.
  pose proof (readRecords_total (S (List.length r)) r [] 0 (-1) zeroResult) as Ht.
  destruct (readRecords (S (List.length r)) r [] 0 (-1) zeroResult) as [[res1 e r1|raw1 res1 total1 r1]|].
  - eexists; reflexivity.
  - eexists; reflexivity.
  - exfalso. apply Ht; [lia | reflexivity].
Qed.

Lemma framing_fields (res : Result) (a b : Z) (c : bool) (d : Z) :
  framing res = (a, b, c, d) ->
  HandshakeBytes res = a /\ RecordsBytes res = b /\ PQCHint res = c /\ ClientHelloLen res = d.
Proof. unfold framing. intros H. injection H as -> -> -> ->. auto. Qed.

(** C6: whenever [ParseClientHello] succeeds, [HandshakeBytes] is at least
    4 and equals [ClientHelloLen + 4], where [ClientHelloLen] is the 3-byte
    big-endian length of the handshake header; it is also the length of the
    returned handshake bytes. *)
Theorem handshake_bytes_is_header_length_plus_four
    (md5_hex : string -> string) (r : Reader) (out : output) :
  ParseClientHello md5_hex r = Some out -> err out = None ->
  HandshakeBytes (res out) >= 4 /\
  HandshakeBytes (res out) = ClientHelloLen (res out) + 4 /\
  ClientHelloLen (res out) = headerLength (raw out) /\
  HandshakeBytes (res out) = len (raw out).
Proof.
  intros H Herr.
  destruct (ParseClientHello_success md5_hex r out H Herr)
    as (recs & surplus & _ & _ & _ & _ & Hraw & _ & Hf).
  apply framing_fields in Hf. destruct Hf as (Hh & _ & _ & Hc).
  pose proof (headerLength_nonneg (raw out)). lia.
Qed.

Lemma handshake_bytes_is_header_length_plus_four_witness :
  exists out, ParseClientHello anyDigest minimalHello = Some out /\ err out = None /\
    HandshakeBytes (res out) = 47 /\ ClientHelloLen (res out) = 43 /\
    HandshakeBytes (res out) = ClientHelloLen (res out) + 4.
Proof.
  destruct (ParseClientHello anyDigest minimalHello) as [out|] eqn:E.
  - exists out. split; [reflexivity|].
    assert (Herr : err out = None) by (vm_compute in E; injection E as <-; reflexivity).
    split; [exact Herr|].
    split; [vm_compute in E; injection E as <-; reflexivity|].
    split; [vm_compute in E; injection E as <-; reflexivity|].
    apply (handshake_bytes_is_header_length_plus_four anyDigest minimalHello out E Herr).
  - vm_compute in E. discriminate.
Defined.

Lemma last_cons_nonempty {A} (x : A) (l : list A) (d : A) :
  l <> [] -> last (x :: l) d = last l d.
Proof. destruct l; [congruence | reflexivity]. Qed.

Lemma readRecords_accounting (fuel : nat) :
  forall r buf total need res0 raw res' total' r',
  loopInv buf need res0 ->
  readRecords fuel r buf total need res0 = Some (Assembled raw res' total' r') ->
  exists recs surplus,
    recs <> [] /\
    Forall handshakeRecord recs /\
    r = encodeRecords recs ++ r' /\
    total' = total + 5 * len recs + len (payload recs) /\
    buf ++ payload recs = raw ++ surplus /\
    len buf < len raw /\
    len surplus < len (snd (last recs ([], []))).
Proof.
  induction fuel as [|fuel IH]; intros r buf total need res0 raw res' total' r' Hinv H;
    [discriminate|].
  rewrite readRecords_S in H.
  destruct (ReadFull r 5) as [[hdr r1]|[e r0]] eqn:Hhdr; [|discriminate].
  apply ReadFull_ok in Hhdr; [|lia]. destruct Hhdr as [Hr Hlh].
  destruct ((be16 hdr 3 <=? 0) || (be16 hdr 3 >? Z.shiftl 1 14 + 256)) eqn:Hchk; [discriminate|].
  apply orb_false_elim in Hchk. destruct Hchk as [Hpos Hmax].
  apply Z.leb_gt in Hpos. rewrite Z.gtb_ltb in Hmax. apply Z.ltb_ge in Hmax.
  change (Z.shiftl 1 14 + 256) with 16640 in Hmax.
  destruct (ReadFull r1 (be16 hdr 3)) as [[body r2]|[e r0]] eqn:Hbody; [|discriminate].
  apply ReadFull_ok in Hbody; [|lia]. destruct Hbody as [Hr1 Hlb].
  destruct (u8 (at_ hdr 0) =? 22) eqn:Hct; [|discriminate]. cbn [negb] in H.
  apply Z.eqb_eq in Hct.
  assert (Hwf : handshakeRecord (hdr, body)).
  { unfold handshakeRecord. cbn [fst snd]. unfold len in Hlh. repeat split; try lia; assumption. }
  remember (total + (5 + be16 hdr 3)) as tot1 eqn:Htot1.
  pose proof (len_nonneg buf) as Hbuf0.
  pose proof (len_app buf body) as Happ.
  assert (Hexit : forall need1 res1,
    len buf < need1 ->
    (4 <= len (buf ++ body) /\ need1 = headerLength (buf ++ body) + 4 /\
     ClientHelloLen res1 = headerLength (buf ++ body) /\ u8 (at_ (buf ++ body) 0) = 1) ->
    (if (need1 >? 0) && (len (buf ++ body) >=? need1)
     then Some (Assembled (slice (buf ++ body) 0 need1) res1 tot1 r2)
     else readRecords fuel r2 (buf ++ body) tot1 need1 res1)
    = Some (Assembled raw res' total' r') ->
    exists recs surplus,
      recs <> [] /\
      Forall handshakeRecord recs /\
      r = encodeRecords recs ++ r' /\
      total' = total + 5 * len recs + len (payload recs) /\
      buf ++ payload recs = raw ++ surplus /\
      len buf < len raw /\
      len surplus < len (snd (last recs ([], [])))).
  { intros need1 res1 Hlt (Hl4 & Hneed1 & Hchl & Hty) Hx.
    destruct ((need1 >? 0) && (len (buf ++ body) >=? need1)) eqn:Hdone.
    - injection Hx as <- <- <- <-.
      apply andb_prop in Hdone. destruct Hdone as [_ Hge]. apply Z.geb_le in Hge.
      exists [(hdr, body)], (skipn (Z.to_nat need1) (buf ++ body)).
      split; [discriminate|].
      split; [constructor; [exact Hwf | constructor]|].
      split; [unfold encodeRecords; cbn [flat_map fst snd]; rewrite app_nil_r, <- app_assoc; congruence|].
      split; [unfold payload; cbn [flat_map snd]; rewrite app_nil_r; unfold len in *; cbn [List.length]; lia|].
      split; [unfold payload; cbn [flat_map snd]; rewrite app_nil_r; apply slice0_split|].
      rewrite len_slice0 by lia. split; [exact Hlt|].
      cbn [last snd]. unfold len in *. rewrite length_skipn. lia.
    - apply IH in Hx.
      + destruct Hx as (recs & surplus & Hne & Hall & Hr2 & Htot & Hb & Hlraw & Hsur).
        exists ((hdr, body) :: recs), surplus.
        split; [discriminate|].
        split; [constructor; assumption|].
        split; [unfold encodeRecords in *; cbn [flat_map fst snd]; rewrite <- !app_assoc; congruence|].
        split.
        { unfold payload in *. cbn [flat_map snd]. unfold len in *. rewrite length_app. cbn [List.length]. lia. }
        split; [unfold payload in *; cbn [flat_map snd]; rewrite app_assoc; exact Hb|].
        split; [lia|].
        rewrite last_cons_nonempty by exact Hne. exact Hsur.
      + right. apply andb_false_iff in Hdone.
        pose proof (headerLength_nonneg (buf ++ body)) as Hhl.
        repeat split; try assumption.
        destruct Hdone as [Hd|Hd]; [rewrite Z.gtb_ltb in Hd; apply Z.ltb_ge in Hd; lia|].
        rewrite Z.geb_leb in Hd. apply Z.leb_gt in Hd. exact Hd. }
  destruct ((need <? 0) && (len (buf ++ body) >=? 4)) eqn:Hfirst.
  - apply andb_prop in Hfirst. destruct Hfirst as [Hneg H4].
    apply Z.ltb_lt in Hneg. apply Z.geb_le in H4.
    destruct (u8 (at_ (buf ++ body) 0) =? 1) eqn:Hty; [|discriminate].
    cbn [negb] in H. apply Z.eqb_eq in Hty.
    pose proof (headerLength_nonneg (buf ++ body)) as Hhl.
    apply (Hexit (headerLength (buf ++ body) + 4)
             (setClientHelloLen res0 (headerLength (buf ++ body)))); [| |exact H].
    + destruct Hinv as [[Hn Hl]|(Hl4 & Hlt & Hneed & _)]; lia.
    + repeat split; try assumption.
  - destruct Hinv as [[Hn Hl]|(Hl4 & Hlt & Hneed & Hchl & Hty)].
    + subst need. cbn [Z.ltb Z.compare andb] in Hfirst.
      rewrite Z.geb_leb in Hfirst. apply Z.leb_gt in Hfirst.
      cbn [Z.gtb Z.compare andb] in H. apply IH in H.
      * destruct H as (recs & surplus & Hne & Hall & Hr2 & Htot & Hb & Hlraw & Hsur).
        exists ((hdr, body) :: recs), surplus.
        split; [discriminate|].
        split; [constructor; assumption|].
        split; [unfold encodeRecords in *; cbn [flat_map fst snd]; rewrite <- !app_assoc; congruence|].
        split.
        { unfold payload in *. cbn [flat_map snd]. unfold len in *. rewrite length_app. cbn [List.length]. lia. }
        split; [unfold payload in *; cbn [flat_map snd]; rewrite app_assoc; exact Hb|].
        split; [lia|].
        rewrite last_cons_nonempty by exact Hne. exact Hsur.
      * left. split; [reflexivity | exact Hfirst].
    + pose proof (len_nonneg body) as Hb0.
      apply (Hexit need res0); [exact Hlt | | exact H].
      assert (Hl4' : 4 <= len (buf ++ body)) by lia.
      rewrite headerLength_app by lia.
      rewrite at_app_l by lia.
      repeat split; assumption.
Qed.

Lemma finish_framing (md5_hex : string -> string) (raw : list byte) (res0 : Result)
    (total : Z) (r : Reader) :
  HandshakeBytes (res (finish md5_hex raw res0 total r)) = len raw /\
  RecordsBytes (res (finish md5_hex raw res0 total r)) = total.
Proof.
  unfold finish. cbn [res].
  pose proof (parseBody_framing md5_hex raw
    (setRecordsBytes (setHandshakeBytes
       (if bytesContains raw [B 17; B 236] then setPQCHint res0 true else res0)
       (len raw)) total)) as Hf.
  unfold framing in Hf. injection Hf as Hh Hr _ _.
  fold (B 17) (B 236) in *.
  split; [rewrite Hh | rewrite Hr];
    destruct (bytesContains raw [B 17; B 236]); reflexivity.
Qed.

(** C2, amended: whenever [ParseClientHello] succeeds, [RecordsBytes] is at
    least [HandshakeBytes + 5].  The bytes taken from the reader are the
    handshake records read, each a five-byte header and the body its length
    field announces; the ClientHello ends inside the last of them, and the
    difference [RecordsBytes - HandshakeBytes] is five bytes for each record
    read plus the bytes of the last record that lie after the end of the
    ClientHello (so it is a multiple of 5 only when their number is). *)
Theorem records_bytes_accounting
    (md5_hex : string -> string) (r : Reader) (out : output) :
  ParseClientHello md5_hex r = Some out -> err out = None ->
  RecordsBytes (res out) >= HandshakeBytes (res out) + 5 /\
  exists recs surplus,
    recs <> [] /\
    Forall handshakeRecord recs /\
    r = encodeRecords recs ++ rest out /\
    payload recs = raw out ++ surplus /\
    len surplus < len (snd (last recs ([], []))) /\
    RecordsBytes (res out) - HandshakeBytes (res out) = 5 * len recs + len surplus.
Proof.
  unfold ParseClientHello, ParseClientHelloFuel. intros H Herr.
  destruct (readRecords (S (List.length r)) r [] 0 (-1) zeroResult)
    as [[res1 e r1|raw1 res1 total1 r1]|] eqn:Hloop; try discriminate.
  - injection H as <-. discriminate.
  - injection H as <-.
    destruct (finish_framing md5_hex raw1 res1 total1 r1) as [Hh Hr].
    rewrite Hh, Hr. unfold finish. cbn [raw rest].
    apply readRecords_accounting in Hloop;
      [|left; split; [reflexivity | unfold len; simpl; lia]].
    destruct Hloop as (recs & surplus & Hne & Hall & Hrd & Htot & Hbuf & _ & Hsur).
    cbn [app] in Hbuf.
    assert (Hlen : len (payload recs) = len raw1 + len surplus)
      by (rewrite Hbuf; apply len_app).
    assert (Hrecs : 1 <= len recs)
      by (destruct recs; [congruence | unfold len; cbn [List.length]; lia]).
    pose proof (len_nonneg surplus).
    split; [lia|].
    exists recs, surplus. repeat split; try assumption. lia.
Qed.

Lemma records_bytes_accounting_witness :
  exists out, ParseClientHello anyDigest minimalHello = Some out /\ err out = None /\
    RecordsBytes (res out) = 52 /\
    RecordsBytes (res out) >= HandshakeBytes (res out) + 5.
Proof.
  destruct (ParseClientHello anyDigest minimalHello) as [out|] eqn:E.
  - exists out. split; [reflexivity|].
    assert (Herr : err out = None) by (vm_compute in E; injection E as <-; reflexivity).
    split; [exact Herr|].
    split; [vm_compute in E; injection E as <-; reflexivity|].
    apply (records_bytes_accounting anyDigest minimalHello out E Herr).
  - vm_compute in E. discriminate.
Defined.

(** C2 as stated fails: the minimal ClientHello in a record with one more
    byte after it gives a difference of 6. *)
Lemma records_bytes_not_multiple_of_five :
  exists out, ParseClientHello anyDigest helloWithTrailingByte = Some out /\
    err out = None /\
    HandshakeBytes (res out) = 47 /\ RecordsBytes (res out) = 53 /\
    (RecordsBytes (res out) - HandshakeBytes (res out)) mod 5 <> 0.
Proof.
  eexists. split; [vm_compute; reflexivity|].
  repeat split. vm_compute. discriminate.
Qed.



(** ** GREASE *)

Lemma greaseAgrees_all :
  forallb (fun h => forallb (fun l => greaseAgrees (256 * h + l)) byteValues) byteValues = true.
Proof. vm_compute. reflexivity. Qed.

Lemma In_byteValues (x : Z) : 0 <= x < 256 -> In x byteValues.
Proof.
  intros H. unfold byteValues. apply in_map_iff.
  exists (Z.to_nat x). split; [lia|]. apply in_seq. lia.
Qed.

Lemma forallb_byteValues (f : Z -> bool) :
  forallb f byteValues = true -> forall x, 0 <= x < 256 -> f x = true.
Proof.
  intros H x Hx. rewrite forallb_forall in H. apply H. apply In_byteValues. exact Hx.
Qed.

Lemma existsb_eqb_In (v : Z) (l : list Z) :
  existsb (Z.eqb v) l = true <-> In v l.
Proof.
  rewrite existsb_exists. split.
  - intros (x & Hin & Hx). apply Z.eqb_eq in Hx. subst x. exact Hin.
  - intros Hin. exists v. split; [exact Hin | apply Z.eqb_refl].
Qed.

(** C7: for every 16-bit value [v], [isGrease v] holds if and only if
    [v & 0x0F0F = 0x0A0A] and [v >> 8 = v & 0xFF], that is exactly for the
    sixteen values of RFC 8701. *)
Theorem isGrease_iff_pattern (v : Z) :
  0 <= v < 65536 ->
  (isGrease v = true <-> Z.land v 0x0F0F = 0x0A0A /\ Z.shiftr v 8 = Z.land v 0xFF) /\
  (isGrease v = true <-> In v greaseValues).
Proof.
  intros Hv.
  assert (Hag : greaseAgrees v = true).
  { assert (Hh : 0 <= v / 256 < 256)
      by (split; [apply Z.div_pos; lia | apply Z.div_lt_upper_bound; lia]).
    pose proof (Z.mod_pos_bound v 256 eq_refl) as Hl.
    pose proof (forallb_byteValues _ greaseAgrees_all (v / 256) Hh) as H1.
    pose proof (forallb_byteValues _ H1 (v mod 256) Hl) as H2.
    cbv beta in H2. rewrite <- Z.div_mod in H2 by lia. exact H2. }
  unfold greaseAgrees in Hag. apply andb_prop in Hag. destruct Hag as [Hp Hl].
  apply eqb_prop in Hp. apply eqb_prop in Hl.
  split.
  - rewrite Hp. unfold greasePattern. rewrite andb_true_iff, !Z.eqb_eq. reflexivity.
  - rewrite Hl. apply existsb_eqb_In.
Qed.

Lemma isGrease_iff_pattern_witness :
  (isGrease 0x3a3a = true <-> Z.land 0x3a3a 0x0F0F = 0x0A0A /\ Z.shiftr 0x3a3a 8 = Z.land 0x3a3a 0xFF) /\
  (isGrease 0x3a3a = true <-> In 0x3a3a greaseValues).
Proof.
  apply (isGrease_iff_pattern 0x3a3a). lia.
Defined.


(** ** The QUIC Initial parser, the impairment state *)


Lemma land3_range (x : Z) : 0 <= Z.land x 3 <= 3.
Proof.
  assert (H : Z.land x 3 = x mod 4)
    by (change 3 with (Z.ones 2); rewrite Z.land_ones by lia; reflexivity).
  rewrite H. pose proof (Z.mod_pos_bound x 4 eq_refl). lia.
Qed.

Lemma ParseInitial_PacketNumber (b : list byte) :
  quicinspect.PacketNumber (quicinspect.ParseInitial b) =
  if (len b <? 7) || (Z.land (u8 (at_ b 0)) 0x80 =? 0) then 0
  else Z.land (u8 (at_ b 0)) 0x03 + 1.
Proof.
  unfold quicinspect.ParseInitial.
  destruct (len b <? 7); [reflexivity|].
  destruct (Z.land (u8 (at_ b 0)) 128 =? 0); [reflexivity|].
  cbn [orb].
  repeat match goal with
         | |- context [if ?c then _ else _] => destruct c
         | |- context [let '(_, _) := ?p in _] => destruct p
         end; reflexivity.
Qed.

Lemma ParseInitial_Valid (b : list byte) :
  quicinspect.Valid (quicinspect.ParseInitial b) = true ->
  7 <= len b /\ Z.land (u8 (at_ b 0)) 0x80 <> 0.
Proof.
  unfold quicinspect.ParseInitial.
  destruct (Z.ltb_spec (len b) 7) as [Hl|Hl]; [discriminate|].
  destruct (Z.eqb_spec (Z.land (u8 (at_ b 0)) 128) 0) as [He|He]; [discriminate|].
  intros _. split; assumption.
Qed.

(** C4, amended: for every datagram of at least 7 bytes whose first byte has
    bit 7 set (in particular for every datagram that parses as valid), the
    summary's [packet_number_len] is in {1,2,3,4}: it is the low two bits of
    the first byte plus one.  For a datagram rejected as too short or as not
    a long header it is 0. *)
Theorem packet_number_len_of_long_header (b : list byte) :
  let s := quicinspect.ParseInitial b in
  (7 <= len b -> Z.land (u8 (at_ b 0)) 0x80 <> 0 ->
   In (quicinspect.PacketNumber s) [1; 2; 3; 4] /\
   quicinspect.PacketNumber s = Z.land (u8 (at_ b 0)) 0x03 + 1) /\
  (quicinspect.Valid s = true -> In (quicinspect.PacketNumber s) [1; 2; 3; 4]) /\
  (len b < 7 ->
   quicinspect.PacketNumber s = 0 /\ quicinspect.Err s = "too short") /\
  (7 <= len b -> Z.land (u8 (at_ b 0)) 0x80 = 0 ->
   quicinspect.PacketNumber s = 0 /\ quicinspect.Err s = "not long header").
Proof.
  intros s.
  assert (Hlong : 7 <= len b -> Z.land (u8 (at_ b 0)) 0x80 <> 0 ->
    In (quicinspect.PacketNumber s) [1; 2; 3; 4] /\
    quicinspect.PacketNumber s = Z.land (u8 (at_ b 0)) 0x03 + 1).
  { intros Hlen Hl. subst s. rewrite ParseInitial_PacketNumber.
    destruct (Z.ltb_spec (len b) 7) as [Hl7|Hl7]; [lia|].
    destruct (Z.eqb_spec (Z.land (u8 (at_ b 0)) 128) 0) as [He|He]; [contradiction|].
    cbn [orb]. split; [|reflexivity].
    pose proof (land3_range (u8 (at_ b 0))) as Hr.
    cbn [In]. lia. }
  split; [exact Hlong|]. split; [|split].
  - intros Hv. destruct (ParseInitial_Valid b Hv) as [Hlen Hl].
    exact (proj1 (Hlong Hlen Hl)).
  - intros Hshort. subst s. unfold quicinspect.ParseInitial.
    destruct (Z.ltb_spec (len b) 7) as [Hl7|Hl7]; [|lia].
    split; reflexivity.
  - intros Hlen Hshort. subst s. unfold quicinspect.ParseInitial.
    destruct (Z.ltb_spec (len b) 7) as [Hl7|Hl7]; [lia|].
    destruct (Z.eqb_spec (Z.land (u8 (at_ b 0)) 128) 0) as [He|He]; [|contradiction].
    split; reflexivity.
Qed.

Lemma packet_number_len_of_long_header_witness :
  In (quicinspect.PacketNumber (quicinspect.ParseInitial Spec.minimalInitial)) [1; 2; 3; 4] /\
  quicinspect.PacketNumber (quicinspect.ParseInitial Spec.minimalInitial)
  = Z.land (u8 (at_ Spec.minimalInitial 0)) 0x03 + 1.
Proof.
  apply (proj1 (packet_number_len_of_long_header Spec.minimalInitial)).
  - vm_compute. discriminate.
  - vm_compute. discriminate.
Defined.

(** C4 as stated fails: the one-byte datagram [0x80] is rejected as too
    short and its summary has [packet_number_len = 0]. *)
Lemma packet_number_len_zero_when_too_short :
  quicinspect.PacketNumber (quicinspect.ParseInitial [B 0x80]) = 0 /\
  ~ In (quicinspect.PacketNumber (quicinspect.ParseInitial [B 0x80])) [1; 2; 3; 4].
Proof.
  split; [reflexivity|]. vm_compute. intuition discriminate.
Qed.

(** ** The impairment state *)

Lemma Apply_Profile (s : impair.State) (cfg : impair.Config) (now : Z) :
  impair.Profile (impair.Snapshot (impair.Apply s cfg now)) =
  if String.eqb (impair.Profile cfg) "" then impair.ProfileClean else impair.Profile cfg.
Proof.
  unfold impair.Snapshot, impair.Get, impair.Apply. cbn [impair.curr].
  cbn [impair.setUpdatedAt impair.Profile].
  destruct (String.eqb (impair.Profile cfg) ""); 
  repeat match goal with
         | |- context [if ?c then _ else _] => destruct c
         end; reflexivity.
Qed.

Lemma dispatch_unknown (cfg : impair.Config) :
  ~ In (impair.Profile cfg) impair.definedProfiles ->
  proxy.dispatch cfg = proxy.handleCleanPassthrough.
Proof.
  intros Hn. unfold proxy.dispatch.
  repeat match goal with
         | |- context [String.eqb ?a ?b] =>
             let E := fresh "E" in
             destruct (String.eqb_spec a b) as [E|E];
             [exfalso; apply Hn; rewrite E; cbn; tauto|]
         end.
  reflexivity.
Qed.

(** C5, amended: after [Apply] of a config whose profile is a non-empty name
    outside the five defined ones, [Snapshot] returns that name unchanged
    ([Apply] replaces only the empty profile by CLEAN); the fallback happens
    in the connection engine, whose dispatch hands such a config to the
    clean passthrough. *)
Theorem apply_keeps_unknown_profile (s : impair.State) (cfg : impair.Config) (now : Z) :
  impair.Profile cfg <> "" ->
  ~ In (impair.Profile cfg) impair.definedProfiles ->
  impair.Profile (impair.Snapshot (impair.Apply s cfg now)) = impair.Profile cfg /\
  proxy.dispatch (impair.Snapshot (impair.Apply s cfg now)) = proxy.handleCleanPassthrough.
Proof.
  intros Hne Hun.
  assert (Hp : impair.Profile (impair.Snapshot (impair.Apply s cfg now)) = impair.Profile cfg).
  { rewrite Apply_Profile. destruct (String.eqb_spec (impair.Profile cfg) ""); [contradiction | reflexivity]. }
  split; [exact Hp|].
  apply dispatch_unknown. rewrite Hp. exact Hun.
Qed.

Lemma apply_keeps_unknown_profile_witness :
  impair.Profile (impair.Snapshot
    (impair.Apply impair.zeroState (impair.setProfile impair.zeroConfig "TURBO") 0)) = "TURBO" /\
  proxy.dispatch (impair.Snapshot
    (impair.Apply impair.zeroState (impair.setProfile impair.zeroConfig "TURBO") 0))
  = proxy.handleCleanPassthrough.
Proof.
  apply (apply_keeps_unknown_profile impair.zeroState (impair.setProfile impair.zeroConfig "TURBO") 0).
  - discriminate.
  - cbn. intuition discriminate.
Defined.

(** C5 as stated fails: the unknown profile TURBO is still there after
    [Apply]. *)
Lemma apply_unknown_profile_is_not_clean :
  impair.Profile (impair.Snapshot
    (impair.Apply impair.zeroState (impair.setProfile impair.zeroConfig "TURBO") 0)) <> "CLEAN".
Proof. vm_compute. discriminate. Qed.

(** ** The rule evaluator *)

Lemma matchRules_first (rs : list rules.Rule) (res : tlsinspect.Result) :
  (exists before r after,
     rs = before ++ r :: after /\
     Forall (fun r' => rules.Predicate r' res = false) before /\
     rules.Predicate r res = true /\
     rules.matchRules rs res = (rules.Profile r, true)) \/
  (Forall (fun r => rules.Predicate r res = false) rs /\
   rules.matchRules rs res = ("", false)).
Proof.
  induction rs as [|r rs IH]; cbn [rules.matchRules].
  - right. split; [constructor | reflexivity].
  - destruct (rules.Predicate r res) eqn:Hp.
    + left. exists [], r, rs. repeat split; [constructor | exact Hp].
    + destruct IH as [(before & r1 & after & -> & Hb & Hr & Hm)|[Hall Hm]].
      * left. exists (r :: before), r1, after.
        repeat split; [constructor; assumption | exact Hr | exact Hm].
      * right. split; [constructor; assumption | exact Hm].
Qed.

(** C8: [Match] returns the profile of the first rule, in load order, whose
    predicate is true (every rule before it is false), and the empty name
    with [false] when no predicate is true; the empty rule set never
    matches. *)
Theorem match_returns_first_true_rule (s : rules.Set_) (res : tlsinspect.Result) :
  ((exists before r after,
      rules.Rules s = before ++ r :: after /\
      Forall (fun r' => rules.Predicate r' res = false) before /\
      rules.Predicate r res = true /\
      rules.Match s res = (rules.Profile r, true)) \/
   (Forall (fun r => rules.Predicate r res = false) (rules.Rules s) /\
    rules.Match s res = ("", false))) /\
  rules.Match rules.emptySet res = ("", false).
Proof.
  split; [apply matchRules_first | reflexivity].
Qed.

(** ** Loading rules *)

Lemma scanFrom_error (s : string) :
  forall cur n e, snd (rules.scanFrom s cur n) = Some e -> e = rules.ScannerErrTooLong.
Proof.
  induction s as [|c s IH]; intros cur n e; cbn [rules.scanFrom].
  - destruct cur; discriminate.
  - destruct (Ascii.eqb c "010").
    + specialize (IH [] 0 e). destruct (rules.scanFrom s [] 0) as [ls e']. exact IH.
    + destruct (n + 1 >=? rules.MaxScanTokenSize); [|apply IH].
      cbn [snd]. congruence.
Qed.

Lemma scanLines_lines (body : TextReader) :
  fst (rules.scanLines body) = fst (rules.scanFrom (content body) [] 0).
Proof.
  unfold rules.scanLines. destruct (rules.scanFrom (content body) [] 0). reflexivity.
Qed.

Lemma scanLines_error (body : TextReader) (se : rules.lib_error) :
  snd (rules.scanLines body) = Some se ->
  se = rules.ScannerErrTooLong \/
  exists message, failure body = Some message /\ se = rules.ReaderError message.
Proof.
  unfold rules.scanLines.
  destruct (rules.scanFrom (content body) [] 0) as [lines [e|]] eqn:Hs; cbn [snd].
  - intros H. injection H as <-. left.
    apply (scanFrom_error (content body) [] 0). rewrite Hs. reflexivity.
  - destruct (failure body) as [message|]; [|discriminate].
    intros H. injection H as <-. right. exists message. auto.
Qed.

Lemma lineFails_false {lib : strings.Library} (t : string) :
  Spec.lineFails t = false ->
  (String.eqb (strings.TrimSpace t) "" || HasPrefix (strings.TrimSpace t) "#" = true) \/
  (String.eqb (strings.TrimSpace t) "" || HasPrefix (strings.TrimSpace t) "#" = false /\
   exists rw, rules.parseLine (strings.TrimSpace t) = inl rw).
Proof.
  unfold Spec.lineFails.
  destruct (String.eqb (strings.TrimSpace t) "" || HasPrefix (strings.TrimSpace t) "#");
    [left; reflexivity|].
  destruct (rules.parseLine (strings.TrimSpace t)) as [rw|e]; [|discriminate].
  intros _. right. split; [reflexivity | exists rw; reflexivity].
Qed.

Lemma lineFails_true {lib : strings.Library} (t : string) :
  Spec.lineFails t = true ->
  String.eqb (strings.TrimSpace t) "" || HasPrefix (strings.TrimSpace t) "#" = false /\
  exists e, rules.parseLine (strings.TrimSpace t) = inr e.
Proof.
  unfold Spec.lineFails.
  destruct (String.eqb (strings.TrimSpace t) "" || HasPrefix (strings.TrimSpace t) "#");
    [discriminate|].
  destruct (rules.parseLine (strings.TrimSpace t)) as [rw|e]; [discriminate|].
  intros _. split; [reflexivity | exists e; reflexivity].
Qed.

Lemma parseLines_ok {lib : strings.Library} (lines : list string) :
  forall lineNo set,
  Forall (fun t => Spec.lineFails t = false) lines ->
  exists set', rules.parseLines lines lineNo set = inl set'.
Proof.
  induction lines as [|t lines IH]; intros lineNo set Hall; cbn [rules.parseLines].
  - exists set. reflexivity.
  - inversion Hall as [|? ? Ht Hrest]; subst.
    destruct (lineFails_false t Ht) as [Hskip|[Hskip [rw Hrw]]]; rewrite Hskip.
    + apply IH. exact Hrest.
    + rewrite Hrw. apply IH. exact Hrest.
Qed.

Lemma parseLines_first_failure {lib : strings.Library} (before : list string) :
  forall t after lineNo set,
  Forall (fun l => Spec.lineFails l = false) before ->
  Spec.lineFails t = true ->
  exists e, rules.parseLine (strings.TrimSpace t) = inr e /\
    rules.parseLines (before ++ t :: after) lineNo set
    = inr (rules.ErrLine (lineNo + len before + 1) e).
Proof.
  induction before as [|b before IH]; intros t after lineNo set Hall Ht.
  - destruct (lineFails_true t Ht) as [Hskip [e He]].
    exists e. split; [exact He|].
    cbn [app rules.parseLines]. rewrite Hskip, He.
    unfold len. cbn [List.length]. do 2 f_equal. lia.
  - inversion Hall as [|? ? Hb Hrest]; subst.
    cbn [app rules.parseLines].
    assert (Hlen : forall n, n + 1 + len before + 1 = n + len (b :: before) + 1)
      by (intros n; unfold len; cbn [List.length]; lia).
    destruct (lineFails_false b Hb) as [Hskip|[Hskip [rw Hrw]]]; rewrite Hskip.
    + destruct (IH t after (lineNo + 1) set Hrest Ht) as [e [He Hp]].
      exists e. split; [exact He|]. rewrite Hp, Hlen. reflexivity.
    + rewrite Hrw.
      destruct (IH t after (lineNo + 1) (set ++ [rw]) Hrest Ht) as [e [He Hp]].
      exists e. split; [exact He|]. rewrite Hp, Hlen. reflexivity.
Qed.

Lemma first_failing_line {lib : strings.Library} (lines : list string) :
  (exists t, In t lines /\ Spec.lineFails t = true) ->
  exists before t after,
    lines = before ++ t :: after /\
    Forall (fun l => Spec.lineFails l = false) before /\
    Spec.lineFails t = true.
Proof.
  induction lines as [|l lines IH]; intros [t [Hin Ht]]; [destruct Hin|].
  destruct (Spec.lineFails l) eqn:Hl.
  - exists [], l, lines. repeat split; [constructor | exact Hl].
  - destruct Hin as [->|Hin]; [congruence|].
    destruct IH as (before & t' & after & -> & Hb & Ht'); [exists t; auto|].
    exists (l :: before), t', after. repeat split; [constructor; assumption | exact Ht'].
Qed.

Lemma no_failing_line {lib : strings.Library} (lines : list string) :
  Forall (fun l => Spec.lineFails l = false) lines \/
  exists t, In t lines /\ Spec.lineFails t = true.
Proof.
  induction lines as [|l lines [IH|[t [Hin Ht]]]].
  - left. constructor.
  - destruct (Spec.lineFails l) eqn:Hl.
    + right. exists l. split; [left; reflexivity | exact Hl].
    + left. constructor; assumption.
  - right. exists t. split; [right; exact Hin | exact Ht].
Qed.

Lemma Parse_unfold {lib : strings.Library} (body : TextReader) :
  rules.Parse body =
  match rules.parseLines (fst (rules.scanLines body)) 0 [] with
  | inr e => (rules.emptySet, Some e)
  | inl set =>
      match snd (rules.scanLines body) with
      | Some e => (rules.emptySet, Some (rules.ErrScanner e))
      | None => (rules.mkSet set, None)
      end
  end.
Proof.
  unfold rules.Parse. destruct (rules.scanLines body) as [lines e]. reflexivity.
Qed.

Lemma Parse_error_no_rules {lib : strings.Library} (body : TextReader) :
  snd (rules.Parse body) <> None -> fst (rules.Parse body) = rules.emptySet.
Proof.
  rewrite Parse_unfold.
  destruct (rules.parseLines _ _ _) as [set|e]; [|reflexivity].
  destruct (snd (rules.scanLines body)); [reflexivity|].
  cbn [snd]. congruence.
Qed.

Lemma Parse_ok_iff {lib : strings.Library} (body : TextReader) :
  snd (rules.Parse body) = None <->
  Forall (fun l => Spec.lineFails l = false) (fst (rules.scanLines body)) /\
  snd (rules.scanLines body) = None.
Proof.
  rewrite Parse_unfold. split.
  - intros H.
    destruct (no_failing_line (fst (rules.scanLines body))) as [Hall|Hfail].
    + split; [exact Hall|].
      destruct (rules.parseLines _ _ _) as [set|e]; [|discriminate].
      destruct (snd (rules.scanLines body)); [discriminate | reflexivity].
    + exfalso.
      destruct (first_failing_line _ Hfail) as (before & t & after & Hl & Hb & Ht).
      destruct (parseLines_first_failure before t after 0 [] Hb Ht) as [e [_ Hp]].
      rewrite Hl, Hp in H. discriminate.
  - intros [Hall Hs].
    destruct (parseLines_ok _ 0 [] Hall) as [set Hset].
    rewrite Hset, Hs. reflexivity.
Qed.

(** C9, amended: when a line that [Parse] hands to [parseLine] fails to
    parse, [Parse] returns the error of the first such line wrapped with its
    1-based line number (the message starts with [line N: ]) and no rules.
    When no line fails and the scanner does (a line too long for its buffer,
    or an error of the reader), [Parse] returns the error of the scanner as
    it is, without a line number, and no rules.  On any error the handler
    answers 400 and leaves the stored rule set as it was; it stores the
    parsed set only when [Parse] returned no error, which is when no line
    failed and the scanner did not. *)
Theorem rules_load_is_all_or_nothing {lib : strings.Library}
    (quote : string -> string) (fmtUnicode : ascii -> string)
    (ruleSet : rules.Set_) (body : TextReader) :
  ((exists t, In t (fst (rules.scanLines body)) /\ Spec.lineFails t = true) ->
   exists before t after e,
     fst (rules.scanLines body) = before ++ t :: after /\
     Forall (fun l => Spec.lineFails l = false) before /\
     rules.parseLine (strings.TrimSpace t) = inr e /\
     rules.Parse body = (rules.emptySet, Some (rules.ErrLine (len before + 1) e)) /\
     rules.Error quote fmtUnicode (rules.ErrLine (len before + 1) e)
       = "line " +++ Itoa (len before + 1) +++ ": " +++ rules.Error quote fmtUnicode e /\
     pathlab.rulesPOST quote fmtUnicode ruleSet body
       = (ruleSet,
          pathlab.BadRequest
            ("parse error: " +++ "line " +++ Itoa (len before + 1) +++ ": "
             +++ rules.Error quote fmtUnicode e))) /\
  (Forall (fun l => Spec.lineFails l = false) (fst (rules.scanLines body)) ->
   forall se, snd (rules.scanLines body) = Some se ->
     (se = rules.ScannerErrTooLong \/
      exists message, failure body = Some message /\ se = rules.ReaderError message) /\
     rules.Parse body = (rules.emptySet, Some (rules.ErrScanner se)) /\
     rules.Error quote fmtUnicode (rules.ErrScanner se) = rules.libMessage quote fmtUnicode se /\
     pathlab.rulesPOST quote fmtUnicode ruleSet body
       = (ruleSet,
          pathlab.BadRequest ("parse error: " +++ rules.libMessage quote fmtUnicode se))) /\
  (snd (rules.Parse body) <> None ->
   rules.Rules (fst (rules.Parse body)) = [] /\
   exists message,
     pathlab.rulesPOST quote fmtUnicode ruleSet body = (ruleSet, pathlab.BadRequest message)) /\
  (snd (rules.Parse body) = None ->
   pathlab.rulesPOST quote fmtUnicode ruleSet body
   = (fst (rules.Parse body), pathlab.Loaded (len (rules.Rules (fst (rules.Parse body)))))) /\
  (snd (rules.Parse body) = None <->
   Forall (fun l => Spec.lineFails l = false) (fst (rules.scanLines body)) /\
   snd (rules.scanLines body) = None).
Proof.
  split; [|split; [|split; [|split]]].
  - intros Hfail.
    destruct (first_failing_line _ Hfail) as (before & t & after & Hlines & Hb & Ht).
    destruct (parseLines_first_failure before t after 0 [] Hb Ht) as [e [He Hp]].
    exists before, t, after, e.
    assert (HP : rules.Parse body = (rules.emptySet, Some (rules.ErrLine (len before + 1) e))).
    { rewrite Parse_unfold, Hlines, Hp. reflexivity. }
    repeat split; try assumption.
    unfold pathlab.rulesPOST. rewrite HP. reflexivity.
  - intros Hall se Hse.
    destruct (parseLines_ok _ 0 [] Hall) as [set Hset].
    assert (HP : rules.Parse body = (rules.emptySet, Some (rules.ErrScanner se))).
    { rewrite Parse_unfold, Hset, Hse. reflexivity. }
    split; [exact (scanLines_error body se Hse)|].
    split; [exact HP|]. split; [reflexivity|].
    unfold pathlab.rulesPOST. rewrite HP. reflexivity.
  - intros Herr. split.
    + rewrite Parse_error_no_rules by exact Herr. reflexivity.
    + unfold pathlab.rulesPOST.
      destruct (rules.Parse body) as [set [e|]]; [|cbn [snd] in Herr; congruence].
      eexists. reflexivity.
  - intros Hok. unfold pathlab.rulesPOST.
    destruct (rules.Parse body) as [set [e|]]; [discriminate | reflexivity].
  - apply Parse_ok_iff.
Qed.

Lemma rules_load_is_all_or_nothing_witness :
  exists before t after e,
    fst (rules.scanLines (strings.NewReader Spec.rulesWithBadSecondLine))
      = before ++ t :: after /\
    Forall (fun l => Spec.lineFails (lib := strings.ascii) l = false) before /\
    rules.parseLine (lib := strings.ascii) (TrimSpace t) = inr e /\
    rules.Parse (lib := strings.ascii) (strings.NewReader Spec.rulesWithBadSecondLine)
      = (rules.emptySet, Some (rules.ErrLine (len before + 1) e)) /\
    rules.Error Spec.anyQuote Spec.anyUnicode (rules.ErrLine (len before + 1) e)
      = "line " +++ Itoa (len before + 1) +++ ": "
        +++ rules.Error Spec.anyQuote Spec.anyUnicode e /\
    pathlab.rulesPOST (lib := strings.ascii) Spec.anyQuote Spec.anyUnicode rules.emptySet
        (strings.NewReader Spec.rulesWithBadSecondLine)
      = (rules.emptySet,
         pathlab.BadRequest
           ("parse error: " +++ "line " +++ Itoa (len before + 1) +++ ": "
            +++ rules.Error Spec.anyQuote Spec.anyUnicode e)).
Proof.
  apply (proj1 (rules_load_is_all_or_nothing (lib := strings.ascii)
                  Spec.anyQuote Spec.anyUnicode
                  rules.emptySet (strings.NewReader Spec.rulesWithBadSecondLine))).
  exists "whenever". split; [vm_compute; auto | vm_compute; reflexivity].
Defined.

(** C9 as stated fails: the second line of this load is too long for the
    scanner, the load is rejected, and the error names no line. *)
Lemma rules_load_overlong_line_has_no_line_number :
  rules.Parse (lib := strings.ascii) (strings.NewReader Spec.rulesWithOverlongLine)
    = (rules.emptySet, Some (rules.ErrScanner rules.ScannerErrTooLong)) /\
  rules.Error Spec.anyQuote Spec.anyUnicode (rules.ErrScanner rules.ScannerErrTooLong)
    = "bufio.Scanner: token too long" /\
  pathlab.rulesPOST (lib := strings.ascii) Spec.anyQuote Spec.anyUnicode rules.emptySet
      (strings.NewReader Spec.rulesWithOverlongLine)
    = (rules.emptySet, pathlab.BadRequest "parse error: bufio.Scanner: token too long").
Proof.
  split; [vm_compute; reflexivity|]. split; [reflexivity|]. vm_compute. reflexivity.
Qed.

(** ** Case mapping and trimming *)

Lemma toUpperChar_toLowerChar (c : ascii) :
  toUpperChar (toLowerChar c) = toUpperChar c.
Proof. destruct c as [[] [] [] [] [] [] [] []]; reflexivity. Qed.

Lemma toUpperChar_idempotent (c : ascii) :
  toUpperChar (toUpperChar c) = toUpperChar c.
Proof. destruct c as [[] [] [] [] [] [] [] []]; reflexivity. Qed.

Lemma isSpace_toLowerChar (c : ascii) :
  isSpace (toLowerChar c) = isSpace c.
Proof. destruct c as [[] [] [] [] [] [] [] []]; reflexivity. Qed.

Lemma ToUpper_ToLower (s : string) : ToUpper (ToLower s) = ToUpper s.
Proof.
  induction s as [|c s IH]; cbn [ToUpper ToLower]; [reflexivity|].
  rewrite toUpperChar_toLowerChar, IH. reflexivity.
Qed.

Lemma ToUpper_idempotent (s : string) : ToUpper (ToUpper s) = ToUpper s.
Proof.
  induction s as [|c s IH]; cbn [ToUpper]; [reflexivity|].
  rewrite toUpperChar_idempotent, IH. reflexivity.
Qed.

Lemma noSpace_ToLower (s : string) : Spec.noSpace (ToLower s) = Spec.noSpace s.
Proof.
  induction s as [|c s IH]; cbn [Spec.noSpace ToLower]; [reflexivity|].
  rewrite isSpace_toLowerChar, IH. reflexivity.
Qed.

Lemma trimRight_noSpace (s : string) : Spec.noSpace s = true -> trimRight s = s.
Proof.
  induction s as [|c s IH]; cbn [Spec.noSpace trimRight]; [reflexivity|].
  intros H. apply andb_prop in H. destruct H as [Hc Hs].
  rewrite (IH Hs). destruct s; [|reflexivity].
  destruct (isSpace c); [discriminate | reflexivity].
Qed.

Lemma TrimSpace_noSpace (s : string) : Spec.noSpace s = true -> TrimSpace s = s.
Proof.
  intros H. unfold TrimSpace.
  assert (Hl : trimLeft s = s).
  { destruct s as [|c s]; [reflexivity|]. cbn [trimLeft Spec.noSpace] in *.
    apply andb_prop in H. destruct H as [Hc _].
    destruct (isSpace c); [discriminate | reflexivity]. }
  rewrite Hl. apply trimRight_noSpace. exact H.
Qed.

Lemma ToUpper_nonempty (s : string) : s <> "" -> ToUpper s <> "".
Proof. destruct s; [congruence | cbn [ToUpper]; discriminate]. Qed.

Lemma ToLower_append (s t : string) : ToLower (s +++ t) = ToLower s +++ ToLower t.
Proof.
  induction s as [|c s IH]; cbn [ToLower String.append]; [reflexivity|].
  rewrite IH. reflexivity.
Qed.

(** ** Strings *)

Lemma append_nil_r (s : string) : s +++ "" = s.
Proof. induction s as [|c s IH]; cbn [String.append]; [reflexivity | rewrite IH; reflexivity]. Qed.

Lemma append_assoc (s t u : string) : (s +++ t) +++ u = s +++ (t +++ u).
Proof. induction s as [|c s IH]; cbn [String.append]; [reflexivity | rewrite IH; reflexivity]. Qed.

Lemma length_append (s t : string) :
  String.length (s +++ t) = (String.length s + String.length t)%nat.
Proof.
  induction s as [|c s IH]; cbn [String.append String.length]; [reflexivity | rewrite IH; reflexivity].
Qed.

Lemma takeStr_append (x y : string) : takeStr (String.length x) (x +++ y) = x.
Proof.
  induction x as [|c x IH]; cbn [String.length takeStr String.append]; [reflexivity|].
  rewrite IH. reflexivity.
Qed.

Lemma ToLower_takeStr (n : nat) :
  forall s, ToLower (takeStr n s) = takeStr n (ToLower s).
Proof.
  induction n as [|n IH]; intros [|c s]; cbn [takeStr ToLower]; try reflexivity.
  rewrite IH. reflexivity.
Qed.

Lemma HasPrefix_split (p : string) :
  forall s, HasPrefix s p = true -> s = p +++ dropStr (String.length p) s.
Proof.
  induction p as [|c p IH]; intros s H; cbn [String.length dropStr String.append].
  - reflexivity.
  - destruct s as [|d s]; [discriminate|]. cbn [HasPrefix] in H.
    apply andb_prop in H. destruct H as [Hc Hp].
    apply Ascii.eqb_eq in Hc. subst d. f_equal. apply IH. exact Hp.
Qed.

Lemma HasPrefix_append_self (p z : string) : HasPrefix (p +++ z) p = true.
Proof.
  induction p as [|c p IH]; cbn [String.append HasPrefix]; [reflexivity|].
  rewrite Ascii.eqb_refl. exact IH.
Qed.

Lemma dropStr_append (p z : string) : dropStr (String.length p) (p +++ z) = z.
Proof.
  induction p as [|c p IH]; cbn [String.length String.append dropStr]; [reflexivity | exact IH].
Qed.

Lemma HasPrefix_append_long (sep : string) :
  forall u y, (String.length sep <= String.length u)%nat ->
  HasPrefix (u +++ y) sep = HasPrefix u sep.
Proof.
  induction sep as [|c sep IH]; intros u y H; [reflexivity|].
  destruct u as [|d u]; cbn [String.length] in H; [lia|].
  cbn [String.append HasPrefix]. f_equal. apply IH. lia.
Qed.

Lemma Cut_unfold (s sep : string) :
  Cut s sep =
  if HasPrefix s sep then Some (EmptyString, dropStr (String.length sep) s)
  else match s with
       | EmptyString => None
       | String c s' =>
           match Cut s' sep with
           | Some (before, after) => Some (String c before, after)
           | None => None
           end
       end.
Proof. destruct s; reflexivity. Qed.

Lemma Cut_split (sep : string) :
  forall s x y, Cut s sep = Some (x, y) -> s = x +++ sep +++ y.
Proof.
  induction s as [|c s IH]; intros x y H; rewrite Cut_unfold in H;
    destruct (HasPrefix _ sep) eqn:E.
  - injection H as <- <-. apply (HasPrefix_split sep). exact E.
  - discriminate.
  - injection H as <- <-. apply (HasPrefix_split sep). exact E.
  - destruct (Cut s sep) as [[b t]|]; [|discriminate].
    injection H as <- <-. cbn [String.append]. f_equal. apply IH. reflexivity.
Qed.

Lemma Cut_replace_tail (sep : string) :
  forall x y z,
  Cut (x +++ sep +++ y) sep = Some (x, y) -> Cut (x +++ sep +++ z) sep = Some (x, z).
Proof.
  induction x as [|c x IH]; intros y z H.
  - cbn [String.append]. rewrite Cut_unfold, HasPrefix_append_self, dropStr_append.
    reflexivity.
  - cbn [String.append] in *. rewrite Cut_unfold in H. rewrite Cut_unfold.
    assert (Hsame : HasPrefix (String c (x +++ sep +++ z)) sep
                    = HasPrefix (String c (x +++ sep +++ y)) sep).
    { change (String c (x +++ sep +++ z)) with (String c x +++ sep +++ z).
      change (String c (x +++ sep +++ y)) with (String c x +++ sep +++ y).
      rewrite <- !append_assoc.
      rewrite (HasPrefix_append_long sep (String c x +++ sep) z)
        by (rewrite length_append; cbn [String.length]; lia).
      rewrite (HasPrefix_append_long sep (String c x +++ sep) y)
        by (rewrite length_append; cbn [String.length]; lia).
      reflexivity. }
    rewrite Hsame.
    destruct (HasPrefix (String c (x +++ sep +++ y)) sep); [discriminate|].
    destruct (Cut (x +++ sep +++ y) sep) as [[b t]|] eqn:E2; [|discriminate].
    injection H as -> ->. rewrite (IH y z E2). reflexivity.
Qed.

Lemma isASCII_append (s t : string) :
  strings.isASCII (s +++ t) = strings.isASCII s && strings.isASCII t.
Proof.
  induction s as [|c s IH]; cbn [String.append strings.isASCII]; [reflexivity|].
  rewrite IH, andb_assoc. reflexivity.
Qed.

Lemma isASCII_takeStr (n : nat) :
  forall s, strings.isASCII s = true -> strings.isASCII (takeStr n s) = true.
Proof.
  induction n as [|n IH]; intros [|c s] H; cbn [takeStr strings.isASCII] in *; try reflexivity.
  apply andb_prop in H. destruct H as [Hc Hs]. rewrite Hc, (IH s Hs). reflexivity.
Qed.

Lemma isASCIIChar_toLowerChar (c : ascii) :
  strings.isASCIIChar (toLowerChar c) = strings.isASCIIChar c.
Proof. destruct c as [[] [] [] [] [] [] [] []]; reflexivity. Qed.

Lemma isASCII_ToLower (s : string) : strings.isASCII (ToLower s) = strings.isASCII s.
Proof.
  induction s as [|c s IH]; cbn [ToLower strings.isASCII]; [reflexivity|].
  rewrite isASCIIChar_toLowerChar, IH. reflexivity.
Qed.

(** The ASCII functions are a library that is known on ASCII text. *)
Lemma ascii_OnASCII : strings.OnASCII strings.ascii.
Proof. constructor; intros s _; reflexivity. Qed.

(** ** What [parseLine] does with the action *)

Lemma parseLine_inv {lib : strings.Library} (line : string) (r : rules.Rule) :
  rules.parseLine line = inl r ->
  exists part0 part1 p,
    HasPrefix (strings.ToLower line) "when " = true /\
    Cut (dropStr 5 (strings.ToLower line)) " then " = Some (part0, part1) /\
    strings.ToUpper (strings.TrimSpace part1) <> "" /\
    rules.parseCondition (strings.TrimSpace part0) = inl p /\
    r = rules.mkRule line p (strings.ToUpper (strings.TrimSpace part1)).
Proof.
  unfold rules.parseLine, SplitN2.
  destruct (HasPrefix (strings.ToLower line) "when ") eqn:Hw; [|discriminate]. cbn [negb].
  change (String.length "when ") with 5%nat.
  destruct (Cut (dropStr 5 (strings.ToLower line)) " then ") as [[part0 part1]|] eqn:Hcut;
    [|discriminate].
  destruct (String.eqb_spec (strings.ToUpper (strings.TrimSpace part1)) "") as [E|E];
    [discriminate|].
  destruct (rules.parseCondition (strings.TrimSpace part0)) as [p|e] eqn:Hcond;
    [|discriminate].
  intros H. injection H as <-. exists part0, part1, p.
  repeat split; try assumption; reflexivity.
Qed.

Lemma parseLine_intro {lib : strings.Library} (line part0 part1 : string)
    (p : tlsinspect.Result -> bool) :
  HasPrefix (strings.ToLower line) "when " = true ->
  Cut (dropStr 5 (strings.ToLower line)) " then " = Some (part0, part1) ->
  strings.ToUpper (strings.TrimSpace part1) <> "" ->
  rules.parseCondition (strings.TrimSpace part0) = inl p ->
  rules.parseLine line = inl (rules.mkRule line p (strings.ToUpper (strings.TrimSpace part1))).
Proof.
  intros Hw Hcut Hprof Hcond. unfold rules.parseLine, SplitN2.
  rewrite Hw. cbn [negb]. change (String.length "when ") with 5%nat.
  rewrite Hcut.
  destruct (String.eqb_spec (strings.ToUpper (strings.TrimSpace part1)) "") as [E|E];
    [contradiction|].
  rewrite Hcond. reflexivity.
Qed.

Lemma parseLine_profile {lib : strings.Library} (line : string) (r : rules.Rule) :
  rules.parseLine line = inl r ->
  exists part0 part1,
    SplitN2 (dropStr 5 (strings.ToLower line)) " then " = [part0; part1] /\
    rules.Profile r = strings.ToUpper (strings.TrimSpace part1) /\
    rules.Profile r <> "" /\
    rules.Raw r = line.
Proof.
  intros H. destruct (parseLine_inv line r H) as (part0 & part1 & p & _ & Hcut & Hne & _ & ->).
  exists part0, part1. unfold SplitN2. rewrite Hcut. cbn [rules.Profile rules.Raw]. auto.
Qed.

Lemma parseLine_same_condition {lib : strings.Library}
    (line1 line2 part0 a1 a2 : string) (r1 : rules.Rule) :
  rules.parseLine line1 = inl r1 ->
  SplitN2 (dropStr 5 (strings.ToLower line1)) " then " = [part0; a1] ->
  HasPrefix (strings.ToLower line2) "when " = true ->
  SplitN2 (dropStr 5 (strings.ToLower line2)) " then " = [part0; a2] ->
  strings.ToUpper (strings.TrimSpace a2) <> "" ->
  exists r2, rules.parseLine line2 = inl r2 /\
    rules.Profile r2 = strings.ToUpper (strings.TrimSpace a2) /\
    rules.Predicate r2 = rules.Predicate r1 /\
    rules.Raw r2 = line2.
Proof.
  intros Hp Hs1 Hw Hs2 Hne.
  destruct (parseLine_inv line1 r1 Hp) as (p0 & p1 & p & _ & Hcut & _ & Hcond & ->).
  unfold SplitN2 in Hs1, Hs2. rewrite Hcut in Hs1. injection Hs1 as -> ->.
  destruct (Cut (dropStr 5 (strings.ToLower line2)) " then ") as [[b t]|] eqn:Hcut2;
    [|discriminate].
  injection Hs2 as -> ->.
  eexists. split; [exact (parseLine_intro line2 part0 a2 p Hw Hcut2 Hne Hcond)|].
  cbn [rules.Profile rules.Predicate rules.Raw]. auto.
Qed.

Lemma parseLine_any_action {lib : strings.Library} {known : strings.OnASCII lib}
    (line : string) (r : rules.Rule) (a : string) :
  strings.isASCII line = true -> rules.parseLine line = inl r ->
  strings.isASCII a = true -> a <> "" -> Spec.noSpace a = true ->
  exists r', rules.parseLine (Spec.withAction line a) = inl r' /\
    rules.Profile r' = ToUpper a /\
    rules.Predicate r' = rules.Predicate r /\
    rules.Raw r' = Spec.withAction line a.
Proof.
  intros Hl Hp Ha Hne Hns.
  destruct (parseLine_inv line r Hp) as (part0 & part1 & p & Hw & Hcut & _ & Hcond & ->).
  rewrite (strings.ToLower_ascii line Hl) in Hw, Hcut.
  pose proof (HasPrefix_split "when " _ Hw) as Hl1.
  pose proof (Cut_split " then " _ _ _ Hcut) as Hl2.
  change (String.length "when ") with 5%nat in Hl1.
  unfold Spec.withAction. rewrite Hcut.
  set (pre := takeStr (5 + String.length part0 + 6) line).
  assert (Hpre : ToLower pre = "when " +++ part0 +++ " then ").
  { subst pre. rewrite ToLower_takeStr, Hl1, Hl2.
    replace ("when " +++ part0 +++ " then " +++ part1)
      with (("when " +++ part0 +++ " then ") +++ part1)
      by (rewrite !append_assoc; reflexivity).
    replace (5 + String.length part0 + 6)%nat
      with (String.length ("when " +++ part0 +++ " then "))
      by (rewrite !length_append; cbn [String.length]; lia).
    apply takeStr_append. }
  assert (Hasc : strings.isASCII (pre +++ a) = true).
  { rewrite isASCII_append, Ha. subst pre. rewrite isASCII_takeStr by exact Hl. reflexivity. }
  assert (Hla : strings.isASCII (ToLower a) = true) by (rewrite isASCII_ToLower; exact Ha).
  assert (Hlow : strings.ToLower (pre +++ a) = "when " +++ part0 +++ " then " +++ ToLower a).
  { rewrite (strings.ToLower_ascii _ Hasc), ToLower_append, Hpre, !append_assoc. reflexivity. }
  assert (Htrim : strings.TrimSpace (ToLower a) = ToLower a).
  { rewrite (strings.TrimSpace_ascii _ Hla).
    apply TrimSpace_noSpace. rewrite noSpace_ToLower. exact Hns. }
  assert (Hup : strings.ToUpper (strings.TrimSpace (ToLower a)) = ToUpper a).
  { rewrite Htrim, (strings.ToUpper_ascii _ Hla). apply ToUpper_ToLower. }
  eexists. split.
  - apply (parseLine_intro (pre +++ a) part0 (ToLower a) p).
    + rewrite Hlow. reflexivity.
    + rewrite Hlow. change (dropStr 5 ("when " +++ part0 +++ " then " +++ ToLower a))
        with (part0 +++ " then " +++ ToLower a).
      apply (Cut_replace_tail " then " part0 part1). rewrite <- Hl2. exact Hcut.
    + rewrite Hup. apply ToUpper_nonempty. exact Hne.
    + exact Hcond.
  - cbn [rules.Profile rules.Predicate rules.Raw]. auto.
Qed.

Lemma parseLine_any_token {lib : strings.Library} {known : strings.OnASCII lib} (a : string) :
  strings.isASCII a = true -> a <> "" -> Spec.noSpace a = true ->
  exists r, rules.parseLine ("when ch_bytes > 100 then " +++ a) = inl r /\
    rules.Profile r = ToUpper a /\
    rules.Raw r = "when ch_bytes > 100 then " +++ a.
Proof.
  intros Ha Hne Hns.
  assert (Hasc : strings.isASCII ("when ch_bytes > 100 then " +++ a) = true)
    by (rewrite isASCII_append, Ha; reflexivity).
  assert (Hla : strings.isASCII (ToLower a) = true) by (rewrite isASCII_ToLower; exact Ha).
  assert (Hlow : strings.ToLower ("when ch_bytes > 100 then " +++ a)
                 = "when " +++ "ch_bytes > 100" +++ " then " +++ ToLower a).
  { rewrite (strings.ToLower_ascii _ Hasc), ToLower_append. reflexivity. }
  assert (Hup : strings.ToUpper (strings.TrimSpace (ToLower a)) = ToUpper a).
  { rewrite (strings.TrimSpace_ascii _ Hla), TrimSpace_noSpace
      by (rewrite noSpace_ToLower; exact Hns).
    rewrite (strings.ToUpper_ascii _ Hla). apply ToUpper_ToLower. }
  eexists. split.
  - apply (parseLine_intro _ "ch_bytes > 100" (ToLower a)
             (fun r => tlsinspect.HandshakeBytes r >? 100)).
    + rewrite Hlow. reflexivity.
    + rewrite Hlow. reflexivity.
    + rewrite Hup. apply ToUpper_nonempty. exact Hne.
    + rewrite (strings.TrimSpace_ascii "ch_bytes > 100" eq_refl).
      change (TrimSpace "ch_bytes > 100") with "ch_bytes > 100".
      unfold rules.parseCondition.
      rewrite (strings.Fields_ascii "ch_bytes > 100" eq_refl). reflexivity.
  - cbn [rules.Profile rules.Raw]. rewrite Hup. auto.
Qed.

(** ** The accept loop *)

Lemma serveParsed_receipt (id now : Z) (clientAddr upstreamAddr : string)
    (state : impair.State) (ruleSet : rules.Set_)
    (dial : option string) (run : proxy.strategy -> option string)
    (parsed : tlsinspect.output) :
  let receipt := snd (pathlab.serveParsed id now clientAddr upstreamAddr state ruleSet dial run parsed) in
  let chosen := pathlab.chooseProfile (impair.Get state) (tlsinspect.res parsed)
                  (tlsinspect.err parsed) ruleSet in
  pathlab.RuleMatched receipt = chosen /\
  pathlab.AppliedProfile receipt = chosen /\
  pathlab.GlobalProfile receipt = impair.Profile (impair.Get state).
Proof.
  unfold pathlab.serveParsed.
  destruct (proxy.HandleConnection _ _ _) as [ran [e|]]; cbn; auto.
Qed.

Lemma serveParsed_strategy (id now : Z) (clientAddr upstreamAddr : string)
    (state : impair.State) (ruleSet : rules.Set_)
    (run : proxy.strategy -> option string) (parsed : tlsinspect.output) :
  fst (pathlab.serveParsed id now clientAddr upstreamAddr state ruleSet None run parsed)
  = Some (proxy.dispatch
            (impair.setProfile (impair.Get state)
               (pathlab.chooseProfile (impair.Get state) (tlsinspect.res parsed)
                  (tlsinspect.err parsed) ruleSet))).
Proof.
  unfold pathlab.serveParsed, proxy.HandleConnection.
  destruct (run _); reflexivity.
Qed.

(** C10: [parseLine] takes whatever follows [then] as the profile, trimmed
    and upper-cased, and never compares it with the defined profile names.
    Of two lines with the same condition, if one is accepted then so is the
    other, with the same predicate, unless its action is empty once trimmed
    and upper-cased.  On ASCII text: an accepted rule stays accepted when
    its action is replaced by any non-empty token without white space, and
    the token, upper-cased, is its profile; after the condition
    [ch_bytes > 100] every such token is accepted.  When a rule with a
    profile outside the defined names matches, the connection is handed to
    the clean passthrough. *)
Theorem rule_action_is_not_validated
    {lib : strings.Library} {known : strings.OnASCII lib} :
  (forall line r, rules.parseLine line = inl r ->
     exists part0 part1,
       SplitN2 (dropStr 5 (strings.ToLower line)) " then " = [part0; part1] /\
       rules.Profile r = strings.ToUpper (strings.TrimSpace part1) /\
       rules.Profile r <> "" /\
       rules.Raw r = line) /\
  (forall line1 line2 part0 a1 a2 r1,
     rules.parseLine line1 = inl r1 ->
     SplitN2 (dropStr 5 (strings.ToLower line1)) " then " = [part0; a1] ->
     HasPrefix (strings.ToLower line2) "when " = true ->
     SplitN2 (dropStr 5 (strings.ToLower line2)) " then " = [part0; a2] ->
     strings.ToUpper (strings.TrimSpace a2) <> "" ->
     exists r2, rules.parseLine line2 = inl r2 /\
       rules.Profile r2 = strings.ToUpper (strings.TrimSpace a2) /\
       rules.Predicate r2 = rules.Predicate r1 /\
       rules.Raw r2 = line2) /\
  (forall line r a,
     strings.isASCII line = true -> rules.parseLine line = inl r ->
     strings.isASCII a = true -> a <> "" -> Spec.noSpace a = true ->
     exists r', rules.parseLine (Spec.withAction line a) = inl r' /\
       rules.Profile r' = ToUpper a /\
       rules.Predicate r' = rules.Predicate r /\
       rules.Raw r' = Spec.withAction line a) /\
  (forall a, strings.isASCII a = true -> a <> "" -> Spec.noSpace a = true ->
     exists r, rules.parseLine ("when ch_bytes > 100 then " +++ a) = inl r /\
       rules.Profile r = ToUpper a /\
       rules.Raw r = "when ch_bytes > 100 then " +++ a) /\
  (forall id now clientAddr upstreamAddr state ruleSet run parsed prof,
     tlsinspect.err parsed = None ->
     rules.Match ruleSet (tlsinspect.res parsed) = (prof, true) ->
     ~ In prof impair.definedProfiles ->
     let served := pathlab.serveParsed id now clientAddr upstreamAddr state ruleSet None run parsed in
     fst served = Some proxy.handleCleanPassthrough /\
     pathlab.AppliedProfile (snd served) = prof).
Proof.
  split; [exact parseLine_profile|].
  split; [exact parseLine_same_condition|].
  split; [exact parseLine_any_action|].
  split; [exact parseLine_any_token|].
  intros id now clientAddr upstreamAddr state ruleSet run parsed prof Herr Hm Hun served.
  assert (Hc : pathlab.chooseProfile (impair.Get state) (tlsinspect.res parsed)
                 (tlsinspect.err parsed) ruleSet = prof).
  { unfold pathlab.chooseProfile. rewrite Herr, Hm. reflexivity. }
  subst served. split.
  - rewrite serveParsed_strategy, Hc. f_equal. apply dispatch_unknown. exact Hun.
  - destruct (serveParsed_receipt id now clientAddr upstreamAddr state ruleSet None run parsed)
      as (_ & Ha & _).
    rewrite Ha. exact Hc.
Qed.

Lemma rule_action_is_not_validated_witness :
  (exists r, rules.parseLine (lib := strings.ascii) ("when ch_bytes > 100 then " +++ "turbo")
             = inl r /\
     rules.Profile r = ToUpper "turbo" /\
     rules.Raw r = "when ch_bytes > 100 then " +++ "turbo") /\
  (exists r r',
     rules.parseLine (lib := strings.ascii) "When SNI_Contains example.com Then clean" = inl r /\
     rules.parseLine (lib := strings.ascii)
       (Spec.withAction "When SNI_Contains example.com Then clean" "turbo") = inl r' /\
     rules.Profile r' = ToUpper "turbo" /\
     rules.Predicate r' = rules.Predicate r /\
     rules.Raw r' = "When SNI_Contains example.com Then turbo").
Proof.
  split.
  - apply (proj1 (proj2 (proj2 (proj2 (rule_action_is_not_validated
                                  (lib := strings.ascii) (known := ascii_OnASCII))))) "turbo").
    + reflexivity.
    + discriminate.
    + reflexivity.
  - destruct (rules.parseLine (lib := strings.ascii) "When SNI_Contains example.com Then clean")
      as [r|e] eqn:E; [|vm_compute in E; discriminate].
    destruct (proj1 (proj2 (proj2 (rule_action_is_not_validated
                              (lib := strings.ascii) (known := ascii_OnASCII))))
                "When SNI_Contains example.com Then clean" r "turbo"
                eq_refl E eq_refl ltac:(discriminate) eq_refl)
      as (r' & Hp & Hprof & Hpred & Hraw).
    exists r, r'. repeat split; assumption.
Defined.

(** C1, on the code: a connection whose ClientHello parses while no rule is
    loaded gets a receipt whose [RuleMatched] is the global profile CLEAN,
    not the empty string. *)
Theorem receipt_rule_matched_without_a_match :
  option_map (fun served => (pathlab.RuleMatched (snd served),
                             pathlab.AppliedProfile (snd served),
                             pathlab.GlobalProfile (snd served)))
    (pathlab.serve Spec.anyDigest 1 0 "198.51.100.7:50000" "127.0.0.1:8443"
       (pathlab.initialState 0) pathlab.initialRuleSet None (fun _ => None)
       Spec.minimalHello)
  = Some ("CLEAN", "CLEAN", "CLEAN").
Proof. vm_compute. reflexivity. Qed.

(** ** More on [ParseClientHello] *)

Lemma len_encodeRecords (recs : list tlsRecord) :
  Forall (fun hb : tlsRecord => List.length (fst hb) = 5%nat) recs ->
  len (encodeRecords recs) = 5 * len recs + len (payload recs).
Proof.
  induction 1 as [|hb recs Hh _ IH]; [reflexivity|].
  unfold encodeRecords, payload in *. cbn [flat_map].
  rewrite !len_app, IH. unfold len in *. cbn [List.length]. lia.
Qed.

(** X1: [ParseClientHello] returns on every finite input; when it returns no
    error, what it has taken from the reader is a prefix of the input of
    exactly [RecordsBytes] bytes, and the bytes after it are left unread. *)
Theorem parse_consumes_records_bytes (md5_hex : string -> string) (r : Reader) :
  exists out, ParseClientHello md5_hex r = Some out /\
    (err out = None ->
     exists consumed, r = consumed ++ rest out /\
       len consumed = RecordsBytes (res out)).
Proof.
  destruct (ParseClientHello_total md5_hex r) as [out Hout].
  exists out. split; [exact Hout|]. intros Herr.
  destruct (ParseClientHello_success md5_hex r out Hout Herr)
    as (recs & surplus & _ & Hall & Hr & _ & _ & _ & Hf).
  apply framing_fields in Hf. destruct Hf as (_ & Hb & _ & _).
  exists (encodeRecords recs). split; [exact Hr|].
  rewrite len_encodeRecords by exact Hall. lia.
Qed.

Lemma readRecords_records (fuel : nat) :
  forall r buf total need res0 raw res' total' r',
  readRecords fuel r buf total need res0 = Some (Assembled raw res' total' r') ->
  exists recs surplus,
    recs <> [] /\
    Forall handshakeRecord recs /\
    r = encodeRecords recs ++ r' /\
    buf ++ payload recs = raw ++ surplus.
Proof.
  induction fuel as [|fuel IH]; intros r buf total need res0 raw res' total' r' H;
    [discriminate|].
  rewrite readRecords_S in H.
  destruct (ReadFull r 5) as [[hdr r1]|[e r0]] eqn:Hhdr; [|discriminate].
  apply ReadFull_ok in Hhdr; [|lia]. destruct Hhdr as [Hr Hlh].
  destruct ((be16 hdr 3 <=? 0) || (be16 hdr 3 >? Z.shiftl 1 14 + 256)) eqn:Hchk; [discriminate|].
  apply orb_false_elim in Hchk. destruct Hchk as [Hpos Hmax].
  apply Z.leb_gt in Hpos. rewrite Z.gtb_ltb in Hmax. apply Z.ltb_ge in Hmax.
  change (Z.shiftl 1 14 + 256) with 16640 in Hmax.
  destruct (ReadFull r1 (be16 hdr 3)) as [[body r2]|[e r0]] eqn:Hbody; [|discriminate].
  apply ReadFull_ok in Hbody; [|lia]. destruct Hbody as [Hr1 Hlb].
  destruct (u8 (at_ hdr 0) =? 22) eqn:Hct; [|discriminate]. cbn [negb] in H.
  apply Z.eqb_eq in Hct.
  assert (Hwf : handshakeRecord (hdr, body)).
  { unfold handshakeRecord. cbn [fst snd]. unfold len in Hlh. repeat split; try lia; assumption. }
  assert (Hstop : forall need1,
    exists recs surplus, recs <> [] /\ Forall handshakeRecord recs /\
      r = encodeRecords recs ++ r2 /\
      buf ++ payload recs = slice (buf ++ body) 0 need1 ++ surplus).
  { intros need1. exists [(hdr, body)], (skipn (Z.to_nat need1) (buf ++ body)).
    split; [discriminate|]. split; [constructor; [exact Hwf | constructor]|].
    split; [unfold encodeRecords; cbn [flat_map fst snd]; rewrite app_nil_r, <- app_assoc; congruence|].
    unfold payload. cbn [flat_map snd]. rewrite app_nil_r. apply slice0_split. }
  assert (Hgo : forall tot1 need1 res1,
    readRecords fuel r2 (buf ++ body) tot1 need1 res1 = Some (Assembled raw res' total' r') ->
    exists recs surplus, recs <> [] /\ Forall handshakeRecord recs /\
      r = encodeRecords recs ++ r' /\ buf ++ payload recs = raw ++ surplus).
  { intros tot1 need1 res1 Hx. apply IH in Hx.
    destruct Hx as (recs & surplus & Hne & Hall & Hr2 & Hbuf).
    exists ((hdr, body) :: recs), surplus.
    split; [discriminate|]. split; [constructor; assumption|].
    split; [unfold encodeRecords in *; cbn [flat_map fst snd]; rewrite <- !app_assoc; congruence|].
    unfold payload in *. cbn [flat_map snd]. rewrite app_assoc. exact Hbuf. }
  repeat match type of H with
         | (if ?c then _ else _) = _ => destruct c
         end;
    try discriminate;
    try (injection H as <- <- <- <-; apply Hstop);
    try (eapply Hgo; exact H).
Qed.

(** X2: When [ParseClientHello] succeeds, the bytes it consumed are one or more
    whole TLS records of content type 0x16 whose bodies are 1 to 16640 bytes
    long, and [raw] is a prefix of the bodies put together. *)
Theorem parse_reads_handshake_records
    (md5_hex : string -> string) (r : Reader) (out : output) :
  ParseClientHello md5_hex r = Some out -> err out = None ->
  exists recs surplus,
    recs <> [] /\
    Forall handshakeRecord recs /\
    r = encodeRecords recs ++ rest out /\
    payload recs = raw out ++ surplus.
Proof.
  unfold ParseClientHello, ParseClientHelloFuel. intros H Herr.
  destruct (readRecords (S (List.length r)) r [] 0 (-1) zeroResult)
    as [[res1 e r1|raw1 res1 total1 r1]|] eqn:Hloop; try discriminate.
  - injection H as <-. discriminate.
  - injection H as <-. unfold finish. cbn [raw rest].
    apply readRecords_records in Hloop. exact Hloop.
Qed.

Lemma parse_reads_handshake_records_witness :
  exists out, ParseClientHello anyDigest minimalHello = Some out /\
    exists recs surplus,
      recs <> [] /\ Forall handshakeRecord recs /\
      minimalHello = encodeRecords recs ++ rest out /\
      payload recs = raw out ++ surplus.
Proof.
  destruct (ParseClientHello anyDigest minimalHello) as [out|] eqn:E.
  - exists out. split; [reflexivity|].
    apply (parse_reads_handshake_records anyDigest minimalHello out E).
    vm_compute in E. injection E as <-. reflexivity.
  - vm_compute in E. discriminate.
Defined.

Lemma readRecords_failed (fuel : nat) :
  forall r buf total need res0 res' e r',
  readRecords fuel r buf total need res0 = Some (Failed res' e r') ->
  res' = setClientHelloLen res0 (ClientHelloLen res').
Proof.
  induction fuel as [|fuel IH]; intros r buf total need res0 res' e r' H; [discriminate|].
  rewrite readRecords_S in H.
  repeat match type of H with
         | match ?x with inl _ => _ | inr _ => _ end = _ => destruct x as [[? ?]|[? ?]]
         | (if ?c then _ else _) = _ => destruct c
         end;
    try discriminate;
    try (injection H as <- <- <-; apply setClientHelloLen_same).
  - apply IH in H. rewrite H. reflexivity.
  - apply IH in H. exact H.
Qed.

Lemma ParseClientHello_error_empty
    (md5_hex : string -> string) (r : Reader) (out : output) :
  ParseClientHello md5_hex r = Some out -> err out <> None ->
  raw out = [] /\
  res out = setClientHelloLen zeroResult (ClientHelloLen (res out)).
Proof.
  unfold ParseClientHello, ParseClientHelloFuel. intros H Herr.
  destruct (readRecords (S (List.length r)) r [] 0 (-1) zeroResult)
    as [[res1 e r1|raw1 res1 total1 r1]|] eqn:Hloop; try discriminate.
  - injection H as <-. cbn [raw res]. split; [reflexivity|].
    apply readRecords_failed in Hloop. exact Hloop.
  - injection H as <-. exfalso. apply Herr. reflexivity.
Qed.

(** X3: When [ParseClientHello] returns an error, [raw] is nil and every field of
    the result is zero, except that [ClientHelloLen] may already have been
    set from the handshake header. *)
Theorem parse_error_leaves_result_empty
    (md5_hex : string -> string) (r : Reader) (out : output) :
  ParseClientHello md5_hex r = Some out -> err out <> None ->
  raw out = [] /\
  res out = setClientHelloLen zeroResult (ClientHelloLen (res out)).
Proof. exact (ParseClientHello_error_empty md5_hex r out). Qed.

Lemma parse_error_leaves_result_empty_witness :
  exists out, ParseClientHello anyDigest applicationDataRecord = Some out /\
    err out <> None /\
    raw out = [] /\
    res out = setClientHelloLen zeroResult (ClientHelloLen (res out)).
Proof.
  destruct (ParseClientHello anyDigest applicationDataRecord) as [out|] eqn:E.
  - exists out. split; [reflexivity|].
    assert (Herr : err out <> None) by (vm_compute in E; injection E as <-; discriminate).
    split; [exact Herr|].
    apply (parse_error_leaves_result_empty anyDigest applicationDataRecord out E Herr).
  - vm_compute in E. discriminate.
Defined.

(** X4: On fewer than five bytes [ParseClientHello] fails with [read record
    header]: wrapping [io.EOF] when the input is empty, [io.ErrUnexpectedEOF]
    otherwise; [raw] is nil and the result is zero. *)
Theorem parse_short_input_is_header_error (md5_hex : string -> string) (r : Reader) :
  len r < 5 ->
  ParseClientHello md5_hex r =
  Some (mkOutput [] zeroResult
          (Some (ErrReadRecordHeader (match r with [] => EOF | _ => ErrUnexpectedEOF end)))
          []).
Proof.
  intros Hl. unfold ParseClientHello, ParseClientHelloFuel.
  rewrite readRecords_S. unfold ReadFull.
  destruct (Z.ltb_spec (len r) 5) as [_|Hge]; [reflexivity | lia].
Qed.

Lemma parse_short_input_is_header_error_witness :
  ParseClientHello anyDigest [B 0x16; B 0x03] =
  Some (mkOutput [] zeroResult (Some (ErrReadRecordHeader ErrUnexpectedEOF)) []).
Proof.
  apply (parse_short_input_is_header_error anyDigest [B 0x16; B 0x03]).
  vm_compute. reflexivity.
Defined.

(** ** The body parse *)

Ltac split_ifs :=
  repeat match goal with
         | |- context [if ?c then _ else _] => destruct c
         end.

Lemma serverNameLoop_CipherSuites (fuel : nat) :
  forall edata listLen p r0,
  CipherSuites (serverNameLoop fuel edata listLen p r0) = CipherSuites r0.
Proof.
  induction fuel as [|fuel IH]; intros; cbn [serverNameLoop]; [reflexivity|].
  split_ifs; try reflexivity; apply IH.
Qed.

Lemma alpnLoop_CipherSuites (fuel : nat) :
  forall edata listLen p r0,
  CipherSuites (alpnLoop fuel edata listLen p r0) = CipherSuites r0.
Proof.
  induction fuel as [|fuel IH]; intros; cbn [alpnLoop]; [reflexivity|].
  split_ifs; try reflexivity; rewrite IH; reflexivity.
Qed.

Lemma handleExtension_CipherSuites (etype : Z) (edata : list byte)
    (r0 : Result) (groups pf : list string) :
  CipherSuites (fst (fst (handleExtension etype edata (r0, groups, pf)))) = CipherSuites r0.
Proof.
  unfold handleExtension. split_ifs; try reflexivity; cbn [fst].
  - apply serverNameLoop_CipherSuites.
  - apply alpnLoop_CipherSuites.
Qed.

Lemma extensionsLoop_CipherSuites (fuel : nat) :
  forall body extEnd off r0 exts groups pf,
  CipherSuites (fst (fst (fst (extensionsLoop fuel body extEnd off r0 exts groups pf))))
  = CipherSuites r0.
Proof.
  induction fuel as [|fuel IH]; intros body extEnd off r0 exts groups pf;
    cbn [extensionsLoop]; [reflexivity|].
  destruct (off + 4 <=? extEnd); [|reflexivity].
  destruct (off + 4 + be16 body (off + 2) >? extEnd); [reflexivity|].
  pose proof (handleExtension_CipherSuites (be16 body off)
                (slice body (off + 4) (off + 4 + be16 body (off + 2))) r0 groups pf) as Hh.
  destruct (handleExtension _ _ _) as [[res1 groups1] pf1].
  cbn [fst] in Hh. rewrite IH. exact Hh.
Qed.

Lemma len_slice {A} (s : list A) (i j : Z) :
  0 <= i <= j -> j <= len s -> len (slice s i j) = j - i.
Proof.
  unfold len, slice. intros Hi Hj. rewrite length_firstn, length_skipn. lia.
Qed.

Lemma parseBody_CipherSuites (md5_hex : string -> string) (raw : list byte) (r0 : Result) :
  CipherSuites (parseBody md5_hex raw r0) = CipherSuites r0 \/
  exists csLen,
    CipherSuites (parseBody md5_hex raw r0) = csLen / 2 /\
    0 <= csLen < 65536 /\ csLen mod 2 = 0 /\ csLen + 41 <= len raw.
Proof.
  unfold parseBody.
  destruct (len raw >=? 4) eqn:H4; [|left; reflexivity].
  apply Z.geb_le in H4.
  set (body := slice raw 4 (len raw)).
  assert (Hbody : len body = len raw - 4) by (apply len_slice; lia).
  destruct (len body >=? 0 + 34); [|left; reflexivity].
  destruct (len body >? 0 + 34); [|left; reflexivity].
  set (sidLen := u8 (at_ body (0 + 34))).
  assert (Hsid : 0 <= sidLen) by (pose proof (u8_range (at_ body (0 + 34))); unfold sidLen; lia).
  destruct (len body >=? 0 + 34 + 1 + sidLen); [|left; reflexivity].
  destruct (len body >=? 0 + 34 + 1 + sidLen + 2); [|left; reflexivity].
  set (csLen := be16 body (0 + 34 + 1 + sidLen)).
  assert (Hcs : 0 <= csLen < 65536) by (unfold csLen; apply be16_range).
  destruct ((csLen mod 2 =? 0) && (len body >=? 0 + 34 + 1 + sidLen + 2 + csLen)) eqn:Hc;
    [|left; reflexivity].
  apply andb_prop in Hc. destruct Hc as [Hev Hfit].
  apply Z.eqb_eq in Hev. apply Z.geb_le in Hfit.
  right. exists csLen. split; [|repeat split; try assumption; lia].
  split_ifs; try reflexivity.
  match goal with
  | |- context [extensionsLoop ?f ?b ?e ?o ?r ?x ?g ?p] =>
      pose proof (extensionsLoop_CipherSuites f b e o r x g p) as Hh;
      destruct (extensionsLoop f b e o r x g p) as [[[res1 exts1] groups1] pf1]
  end.
  cbn [fst] in Hh. exact Hh.
Qed.

(** X5: The cipher suite count that [ParseClientHello] reports is 0, or it is at
    most 32767 and the list it counts (two bytes each, after the 41 bytes
    that precede it) lies inside the handshake message. *)
Theorem cipher_count_fits_in_hello
    (md5_hex : string -> string) (r : Reader) (out : output) :
  ParseClientHello md5_hex r = Some out ->
  CipherSuites (res out) = 0 \/
  (1 <= CipherSuites (res out) <= 32767 /\
   2 * CipherSuites (res out) + 41 <= HandshakeBytes (res out)).
Proof.
  unfold ParseClientHello, ParseClientHelloFuel. intros H.
  destruct (readRecords (S (List.length r)) r [] 0 (-1) zeroResult)
    as [[res1 e r1|raw1 res1 total1 r1]|] eqn:Hloop; try discriminate.
  - injection H as <-. cbn [res]. apply readRecords_failed in Hloop.
    rewrite Hloop. left. reflexivity.
  - injection H as <-. unfold finish. cbn [res].
    assert (Hres1 : CipherSuites res1 = 0).
    { apply readRecords_assembled in Hloop;
        [|left; split; [reflexivity | unfold len; cbn [List.length]; lia]].
      destruct Hloop as (recs & surplus & _ & _ & _ & _ & _ & _ & _ & _ & Hres).
      rewrite Hres. reflexivity. }
    match goal with
    | |- context [parseBody md5_hex raw1 ?r0] =>
        pose proof (parseBody_framing md5_hex raw1 r0) as Hf;
        destruct (parseBody_CipherSuites md5_hex raw1 r0) as [Hsame|(csLen & Hcs & H0 & Hev & Hfit)]
    end.
    + left. rewrite Hsame.
      destruct (bytesContains raw1 [B 17; B 236]); exact Hres1.
    + unfold framing in Hf. injection Hf as Hhb _ _ _.
      assert (Hhb' : HandshakeBytes (parseBody md5_hex raw1
          (setRecordsBytes (setHandshakeBytes
             (if bytesContains raw1 [B 17; B 236] then setPQCHint res1 true else res1)
             (len raw1)) total1)) = len raw1)
        by (rewrite Hhb; destruct (bytesContains raw1 [B 17; B 236]); reflexivity).
      rewrite Hcs, Hhb'.
      destruct (Z.eq_dec csLen 0) as [->|Hnz]; [left; reflexivity|].
      right.
      assert (Hdiv : csLen = 2 * (csLen / 2)) by (rewrite (Z.div_mod csLen 2) at 1 by lia; lia).
      lia.
Qed.

Lemma cipher_count_fits_in_hello_witness :
  exists out, ParseClientHello anyDigest helloWithExtensions = Some out /\
    CipherSuites (res out) = 2 /\
    (CipherSuites (res out) = 0 \/
     (1 <= CipherSuites (res out) <= 32767 /\
      2 * CipherSuites (res out) + 41 <= HandshakeBytes (res out))).
Proof.
  destruct (ParseClientHello anyDigest helloWithExtensions) as [out|] eqn:E.
  - exists out. split; [reflexivity|].
    split; [vm_compute in E; injection E as <-; reflexivity|].
    apply (cipher_count_fits_in_hello anyDigest helloWithExtensions out E).
  - vm_compute in E. discriminate.
Defined.

Lemma toLowerChar_idempotent (c : ascii) : toLowerChar (toLowerChar c) = toLowerChar c.
Proof. destruct c as [[] [] [] [] [] [] [] []]; reflexivity. Qed.

Lemma ToLower_idempotent (s : string) : ToLower (ToLower s) = ToLower s.
Proof.
  induction s as [|c s IH]; cbn [ToLower]; [reflexivity|].
  rewrite toLowerChar_idempotent, IH. reflexivity.
Qed.

Lemma serverNameLoop_SNI (fuel : nat) :
  forall edata listLen p r0,
  ToLower (SNI r0) = SNI r0 ->
  ToLower (SNI (serverNameLoop fuel edata listLen p r0))
  = SNI (serverNameLoop fuel edata listLen p r0).
Proof.
  induction fuel as [|fuel IH]; intros edata listLen p r0 H0; cbn [serverNameLoop];
    [exact H0|].
  split_ifs; try exact H0.
  - cbn [SNI setSNI]. apply ToLower_idempotent.
  - apply IH. exact H0.
Qed.

Lemma alpnLoop_SNI (fuel : nat) :
  forall edata listLen p r0,
  SNI (alpnLoop fuel edata listLen p r0) = SNI r0.
Proof.
  induction fuel as [|fuel IH]; intros; cbn [alpnLoop]; [reflexivity|].
  split_ifs; try reflexivity; rewrite IH; reflexivity.
Qed.

Lemma handleExtension_SNI (etype : Z) (edata : list byte)
    (r0 : Result) (groups pf : list string) :
  ToLower (SNI r0) = SNI r0 ->
  ToLower (SNI (fst (fst (handleExtension etype edata (r0, groups, pf)))))
  = SNI (fst (fst (handleExtension etype edata (r0, groups, pf)))).
Proof.
  intros H0. unfold handleExtension. split_ifs; try exact H0; cbn [fst].
  - apply serverNameLoop_SNI. exact H0.
  - rewrite alpnLoop_SNI. exact H0.
Qed.

Lemma extensionsLoop_SNI (fuel : nat) :
  forall body extEnd off r0 exts groups pf,
  ToLower (SNI r0) = SNI r0 ->
  ToLower (SNI (fst (fst (fst (extensionsLoop fuel body extEnd off r0 exts groups pf)))))
  = SNI (fst (fst (fst (extensionsLoop fuel body extEnd off r0 exts groups pf)))).
Proof.
  induction fuel as [|fuel IH]; intros body extEnd off r0 exts groups pf H0;
    cbn [extensionsLoop]; [exact H0|].
  destruct (off + 4 <=? extEnd); [|exact H0].
  destruct (off + 4 + be16 body (off + 2) >? extEnd); [exact H0|].
  pose proof (handleExtension_SNI (be16 body off)
                (slice body (off + 4) (off + 4 + be16 body (off + 2))) r0 groups pf H0) as Hh.
  destruct (handleExtension _ _ _) as [[res1 groups1] pf1].
  cbn [fst] in Hh. apply IH. exact Hh.
Qed.

Lemma parseBody_SNI (md5_hex : string -> string) (raw : list byte) (r0 : Result) :
  ToLower (SNI r0) = SNI r0 ->
  ToLower (SNI (parseBody md5_hex raw r0)) = SNI (parseBody md5_hex raw r0).
Proof.
  intros H0. unfold parseBody. split_ifs; try exact H0.
  match goal with
  | |- context [extensionsLoop ?f ?b ?e ?o ?r ?x ?g ?p] =>
      pose proof (extensionsLoop_SNI f b e o r x g p H0) as Hh;
      destruct (extensionsLoop f b e o r x g p) as [[[res1 exts1] groups1] pf1]
  end.
  cbn [fst] in Hh. exact Hh.
Qed.

(** What the record loop hands to the lines after it: the zero result with
    the length of the handshake header. *)
Lemma ParseClientHello_cases (md5_hex : string -> string) (r : Reader) (out : output) :
  ParseClientHello md5_hex r = Some out ->
  (err out <> None /\ res out = setClientHelloLen zeroResult (ClientHelloLen (res out))) \/
  (err out = None /\
   exists hl total,
     res out = parseBody md5_hex (raw out)
       (setRecordsBytes
          (setHandshakeBytes
             (if bytesContains (raw out) [B 0x11; B 0xec]
              then setPQCHint (setClientHelloLen zeroResult hl) true
              else setClientHelloLen zeroResult hl)
             (len (raw out)))
          total)).
Proof.
  unfold ParseClientHello, ParseClientHelloFuel. intros H.
  destruct (readRecords (S (List.length r)) r [] 0 (-1) zeroResult)
    as [[res1 e r1|raw1 res1 total1 r1]|] eqn:Hloop; try discriminate.
  - injection H as <-. left. cbn [err res]. split; [discriminate|].
    apply readRecords_failed in Hloop. exact Hloop.
  - injection H as <-. right. unfold finish. cbn [err res raw].
    split; [reflexivity|].
    apply readRecords_assembled in Hloop;
      [|left; split; [reflexivity | unfold len; cbn [List.length]; lia]].
    destruct Hloop as (recs & surplus & _ & _ & _ & _ & _ & _ & _ & _ & Hres).
    exists (ClientHelloLen res1), total1. rewrite <- Hres. reflexivity.
Qed.

(** X6: The SNI that [ParseClientHello] reports is in lower case: [ToLower]
    leaves it as it is. *)
Theorem sni_is_lower_case (md5_hex : string -> string) (r : Reader) (out : output) :
  ParseClientHello md5_hex r = Some out ->
  ToLower (SNI (res out)) = SNI (res out).
Proof.
  intros H.
  destruct (ParseClientHello_cases md5_hex r out H) as [[_ Hres]|[_ (hl & total & Hres)]];
    rewrite Hres.
  - reflexivity.
  - apply parseBody_SNI. destruct (bytesContains (raw out) [B 17; B 236]); reflexivity.
Qed.

Lemma sni_is_lower_case_witness :
  exists out, ParseClientHello anyDigest helloWithExtensions = Some out /\
    SNI (res out) = "example.com" /\
    ToLower (SNI (res out)) = SNI (res out).
Proof.
  destruct (ParseClientHello anyDigest helloWithExtensions) as [out|] eqn:E.
  - exists out. split; [reflexivity|].
    split; [vm_compute in E; injection E as <-; reflexivity|].
    apply (sni_is_lower_case anyDigest helloWithExtensions out E).
  - vm_compute in E. discriminate.
Defined.

(** ALPN *)

Lemma length_string_of_list_byte (l : list byte) :
  String.length (string_of_list_byte l) = List.length l.
Proof.
  unfold string_of_list_byte.
  induction l as [|b l IH]; cbn [map string_of_list_ascii String.length List.length];
    [reflexivity | rewrite IH; reflexivity].
Qed.

Lemma alpnLoop_ALPN (fuel : nat) :
  forall edata listLen p r0,
  0 <= p ->
  Forall (fun s => 1 <= Z.of_nat (String.length s) <= 255) (ALPN r0) ->
  Forall (fun s => 1 <= Z.of_nat (String.length s) <= 255)
         (ALPN (alpnLoop fuel edata listLen p r0)).
Proof.
  induction fuel as [|fuel IH]; intros edata listLen p r0 Hp H0; cbn [alpnLoop];
    [exact H0|].
  destruct ((p <? 2 + listLen) && (p <? len edata)); [|exact H0].
  destruct (p >=? len edata); [exact H0|].
  pose proof (u8_range (at_ edata p)) as Hl.
  destruct (Z.gtb_spec (p + 1 + u8 (at_ edata p)) (len edata)) as [Hgt|Hle]; [exact H0|].
  apply IH; [lia|].
  destruct (Z.gtb_spec (u8 (at_ edata p)) 0) as [Hpos|Hz]; [|exact H0].
  cbn [ALPN setALPN]. apply Forall_app. split; [exact H0|].
  constructor; [|constructor].
  rewrite length_string_of_list_byte.
  assert (Hs : len (slice edata (p + 1) (p + 1 + u8 (at_ edata p))) = u8 (at_ edata p))
    by (rewrite len_slice by lia; lia).
  unfold len in Hs. lia.
Qed.

Lemma serverNameLoop_ALPN (fuel : nat) :
  forall edata listLen p r0,
  ALPN (serverNameLoop fuel edata listLen p r0) = ALPN r0.
Proof.
  induction fuel as [|fuel IH]; intros; cbn [serverNameLoop]; [reflexivity|].
  split_ifs; try reflexivity; apply IH.
Qed.

Lemma handleExtension_ALPN (etype : Z) (edata : list byte)
    (r0 : Result) (groups pf : list string) :
  Forall (fun s => 1 <= Z.of_nat (String.length s) <= 255) (ALPN r0) ->
  Forall (fun s => 1 <= Z.of_nat (String.length s) <= 255)
         (ALPN (fst (fst (handleExtension etype edata (r0, groups, pf))))).
Proof.
  intros H0. unfold handleExtension. split_ifs; try exact H0; cbn [fst].
  - rewrite serverNameLoop_ALPN. exact H0.
  - apply alpnLoop_ALPN; [lia | exact H0].
Qed.

Lemma extensionsLoop_ALPN (fuel : nat) :
  forall body extEnd off r0 exts groups pf,
  Forall (fun s => 1 <= Z.of_nat (String.length s) <= 255) (ALPN r0) ->
  Forall (fun s => 1 <= Z.of_nat (String.length s) <= 255)
         (ALPN (fst (fst (fst (extensionsLoop fuel body extEnd off r0 exts groups pf))))).
Proof.
  induction fuel as [|fuel IH]; intros body extEnd off r0 exts groups pf H0;
    cbn [extensionsLoop]; [exact H0|].
  destruct (off + 4 <=? extEnd); [|exact H0].
  destruct (off + 4 + be16 body (off + 2) >? extEnd); [exact H0|].
  pose proof (handleExtension_ALPN (be16 body off)
                (slice body (off + 4) (off + 4 + be16 body (off + 2))) r0 groups pf H0) as Hh.
  destruct (handleExtension _ _ _) as [[res1 groups1] pf1].
  cbn [fst] in Hh. apply IH. exact Hh.
Qed.

Lemma parseBody_ALPN (md5_hex : string -> string) (raw : list byte) (r0 : Result) :
  Forall (fun s => 1 <= Z.of_nat (String.length s) <= 255) (ALPN r0) ->
  Forall (fun s => 1 <= Z.of_nat (String.length s) <= 255)
         (ALPN (parseBody md5_hex raw r0)).
Proof.
  intros H0. unfold parseBody. split_ifs; try exact H0.
  match goal with
  | |- context [extensionsLoop ?f ?b ?e ?o ?r ?x ?g ?p] =>
      pose proof (extensionsLoop_ALPN f b e o r x g p H0) as Hh;
      destruct (extensionsLoop f b e o r x g p) as [[[res1 exts1] groups1] pf1]
  end.
  cbn [fst] in Hh. exact Hh.
Qed.

(** X7: Every ALPN protocol that [ParseClientHello] reports is 1 to 255 bytes
    long: the empty entries of the extension are skipped. *)
Theorem alpn_entries_are_not_empty (md5_hex : string -> string) (r : Reader) (out : output) :
  ParseClientHello md5_hex r = Some out ->
  Forall (fun s => 1 <= Z.of_nat (String.length s) <= 255) (ALPN (res out)).
Proof.
  intros H.
  destruct (ParseClientHello_cases md5_hex r out H) as [[_ Hres]|[_ (hl & total & Hres)]];
    rewrite Hres.
  - constructor.
  - apply parseBody_ALPN. destruct (bytesContains (raw out) [B 17; B 236]); constructor.
Qed.

Lemma alpn_entries_are_not_empty_witness :
  exists out, ParseClientHello anyDigest helloWithExtensions = Some out /\
    ALPN (res out) = ["h2"] /\
    Forall (fun s => 1 <= Z.of_nat (String.length s) <= 255) (ALPN (res out)).
Proof.
  destruct (ParseClientHello anyDigest helloWithExtensions) as [out|] eqn:E.
  - exists out. split; [reflexivity|].
    split; [vm_compute in E; injection E as <-; reflexivity|].
    apply (alpn_entries_are_not_empty anyDigest helloWithExtensions out E).
  - vm_compute in E. discriminate.
Defined.

(** ** QUIC variable-length integers *)

Lemma lor_shift_byte (v x : Z) :
  0 <= v -> 0 <= x < 256 -> Z.lor (Z.shiftl v 8) x = v * 256 + x.
Proof.
  intros Hv Hx.
  assert (Hland : Z.land (Z.shiftl v 8) x = 0).
  { apply Z.bits_inj'. intros n Hn. rewrite Z.land_spec, Z.bits_0.
    destruct (Z.lt_ge_cases n 8) as [Hlt|Hge].
    - rewrite Z.shiftl_spec_low by lia. reflexivity.
    - assert (Hb : Z.testbit x n = false).
      { destruct (Z.eq_dec x 0) as [->|Hnz]; [apply Z.bits_0|].
        apply Z.bits_above_log2; [lia|].
        assert (Z.log2 x < 8) by (apply Z.log2_lt_pow2; [lia | simpl; lia]). lia. }
      rewrite Hb. apply andb_false_r. }
  pose proof (Z.add_lor_land (Z.shiftl v 8) x) as Hadd.
  rewrite Hland, Z.add_0_r in Hadd. rewrite Hadd.
  rewrite Z.shiftl_mul_pow2 by lia. reflexivity.
Qed.

Lemma varint_step (v x k : Z) :
  0 <= k -> k + 8 <= 64 -> 0 <= v < 2 ^ k -> 0 <= x < 256 ->
  Z.lor ((Z.shiftl v 8) mod 2 ^ 64) x = v * 256 + x /\
  0 <= v * 256 + x < 2 ^ (k + 8).
Proof.
  intros Hk Hk8 Hv Hx.
  assert (Hpow : 2 ^ (k + 8) = 2 ^ k * 256) by (rewrite Z.pow_add_r by lia; reflexivity).
  assert (Hle : 2 ^ (k + 8) <= 2 ^ 64) by (apply Z.pow_le_mono_r; lia).
  assert (Hsh : Z.shiftl v 8 = v * 256) by (rewrite Z.shiftl_mul_pow2 by lia; reflexivity).
  rewrite Z.mod_small by (rewrite Hsh; nia).
  rewrite lor_shift_byte by lia. split; [reflexivity | nia].
Qed.

Lemma shiftr6_cases (x : Z) :
  0 <= x < 256 ->
  Z.shiftr x 6 = 0 \/ Z.shiftr x 6 = 1 \/ Z.shiftr x 6 = 2 \/ Z.shiftr x 6 = 3.
Proof.
  intros Hx. rewrite Z.shiftr_div_pow2 by lia. change (2 ^ 6) with 64.
  assert (0 <= x / 64 < 4) by (split; [apply Z.div_pos; lia | apply Z.div_lt_upper_bound; lia]).
  lia.
Qed.

Lemma readVarint_unfold (b : list byte) :
  quicinspect.readVarint b =
  if len b =? 0 then (0, 0)
  else if len b <? varintLength (at_ b 0) then (0, 0)
  else (quicinspect.varintLoop 8 b (varintLength (at_ b 0)) 1
          (Z.land (u8 (at_ b 0)) 0x3f),
        varintLength (at_ b 0)).
Proof.
  unfold quicinspect.readVarint, varintLength.
  destruct (len b =? 0); [reflexivity|].
  destruct (shiftr6_cases (u8 (at_ b 0)) (u8_range _)) as [H|[H|[H|H]]];
    rewrite H; reflexivity.
Qed.

Lemma land63 (x : Z) : 0 <= x < 256 -> Z.land x 63 = x mod 64.
Proof.
  intros Hx. change 63 with (Z.ones 6). rewrite Z.land_ones by lia. reflexivity.
Qed.

Lemma varintLoop_value (fuel : nat) :
  forall b length i val k,
  (Z.to_nat (length - i) <= fuel)%nat ->
  1 <= i <= length -> length <= 8 ->
  k = 8 * i - 2 -> 0 <= val < 2 ^ k ->
  0 <= quicinspect.varintLoop fuel b length i val < 2 ^ (8 * length - 2) /\
  quicinspect.varintLoop fuel b length i val
  = fold_left (fun a x => a * 256 + u8 x) (slice b i length) val \/
  len b < length.
Proof.
  induction fuel as [|fuel IH]; intros b length i val k Hf Hi Hl Hk Hv.
  - assert (i = length) by lia. subst i. subst k.
    destruct (Z.lt_ge_cases (len b) length) as [Hs|Hs]; [right; exact Hs|left].
    cbn [quicinspect.varintLoop]. split; [exact Hv|].
    unfold slice. rewrite Z.sub_diag. reflexivity.
  - destruct (Z.lt_ge_cases (len b) length) as [Hs|Hs]; [right; exact Hs|left].
    cbn [quicinspect.varintLoop].
    destruct (Z.ltb_spec i length) as [Hlt|Hge].
    + destruct (varint_step val (u8 (at_ b i)) k ltac:(lia) ltac:(lia) Hv (u8_range _))
        as [Hstep Hrange].
      rewrite Hstep.
      destruct (IH b length (i + 1) (val * 256 + u8 (at_ b i)) (k + 8)
                  ltac:(lia) ltac:(lia) Hl ltac:(lia) Hrange) as [[Hr He]|Hbad]; [|lia].
      split; [exact Hr|]. rewrite He.
      assert (Hsl : slice b i length = at_ b i :: slice b (i + 1) length).
      { unfold slice, at_.
        replace (Z.to_nat (length - i)) with (S (Z.to_nat (length - (i + 1)))) by lia.
        replace (Z.to_nat (i + 1)) with (S (Z.to_nat i)) by lia.
        assert (Hn : (Z.to_nat i < List.length b)%nat) by (unfold len in Hs; lia).
        clear - Hn. revert b Hn. generalize (Z.to_nat i) as n.
        induction n as [|n IHn]; intros b Hn; destruct b as [|x b];
          cbn [List.length] in Hn; try lia; [reflexivity|].
        cbn [skipn nth]. apply IHn. lia. }
      rewrite Hsl. reflexivity.
    + assert (i = length) by lia. subst i. subst k. split; [exact Hv|].
      unfold slice. rewrite Z.sub_diag. reflexivity.
Qed.

Lemma varintLength_cases (first : byte) :
  varintLength first = 1 \/ varintLength first = 2 \/
  varintLength first = 4 \/ varintLength first = 8.
Proof.
  unfold varintLength.
  destruct (shiftr6_cases (u8 first) (u8_range _)) as [H|[H|[H|H]]]; rewrite H; cbn; tauto.
Qed.

Lemma readVarint_spec (b : list byte) :
  (len b < varintLength (at_ b 0) -> quicinspect.readVarint b = (0, 0)) /\
  (varintLength (at_ b 0) <= len b ->
   snd (quicinspect.readVarint b) = varintLength (at_ b 0) /\
   In (snd (quicinspect.readVarint b)) [1; 2; 4; 8] /\
   0 <= fst (quicinspect.readVarint b) < 2 ^ (8 * varintLength (at_ b 0) - 2) /\
   fst (quicinspect.readVarint b) < 2 ^ 62).
Proof.
  rewrite readVarint_unfold.
  pose proof (varintLength_cases (at_ b 0)) as Hk.
  split.
  - intros Hs. destruct (len b =? 0); [reflexivity|].
    destruct (Z.ltb_spec (len b) (varintLength (at_ b 0))); [reflexivity | lia].
  - intros Hs.
    destruct (Z.eqb_spec (len b) 0) as [H0|H0]; [lia|].
    destruct (Z.ltb_spec (len b) (varintLength (at_ b 0))) as [Hlt|_]; [lia|].
    cbn [fst snd].
    assert (Hv0 : 0 <= Z.land (u8 (at_ b 0)) 63 < 2 ^ 6).
    { rewrite land63 by apply u8_range. change (2 ^ 6) with 64.
      apply Z.mod_pos_bound. lia. }
    destruct (varintLoop_value 8 b (varintLength (at_ b 0)) 1
                (Z.land (u8 (at_ b 0)) 63) 6 ltac:(lia) ltac:(lia) ltac:(lia) eq_refl Hv0)
      as [[Hr _]|Hbad]; [|lia].
    split; [reflexivity|]. split; [cbn [In]; lia|]. split; [exact Hr|].
    assert (2 ^ (8 * varintLength (at_ b 0) - 2) <= 2 ^ 62)
      by (apply Z.pow_le_mono_r; lia).
    lia.
Qed.

(** X8: [readVarint] returns (0, 0) when the slice is shorter than the length
    that the two top bits of its first byte announce (1, 2, 4 or 8; an empty
    slice included); otherwise it consumes exactly that many bytes and the
    value is below 2^(8*length-2), so below 2^62. *)
Theorem readVarint_length_and_range (b : list byte) :
  (len b < varintLength (at_ b 0) -> quicinspect.readVarint b = (0, 0)) /\
  (varintLength (at_ b 0) <= len b ->
   snd (quicinspect.readVarint b) = varintLength (at_ b 0) /\
   In (snd (quicinspect.readVarint b)) [1; 2; 4; 8] /\
   0 <= fst (quicinspect.readVarint b) < 2 ^ (8 * varintLength (at_ b 0) - 2) /\
   fst (quicinspect.readVarint b) < 2 ^ 62).
Proof. exact (readVarint_spec b). Qed.

Lemma fold_base256 (l : list byte) :
  forall v,
  fold_left (fun a x => a * 256 + u8 x) l v
  = v * 256 ^ len l + fold_left (fun a x => a * 256 + u8 x) l 0 /\
  0 <= fold_left (fun a x => a * 256 + u8 x) l 0 < 256 ^ len l.
Proof.
  induction l as [|x l IH]; intros v.
  - cbn [fold_left]. unfold len. cbn [List.length]. change (256 ^ Z.of_nat 0) with 1. lia.
  - cbn [fold_left].
    assert (Hlen : 256 ^ len (x :: l) = 256 * 256 ^ len l).
    { unfold len. cbn [List.length]. rewrite Nat2Z.inj_succ, Z.pow_succ_r by lia. reflexivity. }
    pose proof (u8_range x) as Hx.
    destruct (IH (v * 256 + u8 x)) as [E1 Hr]. destruct (IH (0 * 256 + u8 x)) as [E2 _].
    rewrite E1, E2, Hlen. split; [ring|]. nia.
Qed.

Lemma slice_cons (b : list byte) (i j : Z) :
  0 <= i < j -> i < len b -> slice b i j = at_ b i :: slice b (i + 1) j.
Proof.
  intros Hi Hb. unfold slice, at_.
  replace (Z.to_nat (j - i)) with (S (Z.to_nat (j - (i + 1)))) by lia.
  replace (Z.to_nat (i + 1)) with (S (Z.to_nat i)) by lia.
  assert (Hn : (Z.to_nat i < List.length b)%nat) by (unfold len in Hb; lia).
  clear - Hn. revert b Hn. generalize (Z.to_nat i) as n.
  induction n as [|n IHn]; intros b Hn; destruct b as [|x b];
    cbn [List.length] in Hn; try lia; [reflexivity|].
  cbn [skipn nth]. apply IHn. lia.
Qed.

Lemma varintLength_pow (first : byte) :
  2 ^ (8 * varintLength first - 2) = 64 * 256 ^ (varintLength first - 1).
Proof.
  destruct (varintLength_cases first) as [H|[H|[H|H]]]; rewrite H; reflexivity.
Qed.

(** X9: When the slice is long enough, the value of [readVarint] is the number
    that its first [length] bytes spell, most significant first, without the
    two length bits. *)
Theorem readVarint_value (b : list byte) :
  varintLength (at_ b 0) <= len b ->
  fst (quicinspect.readVarint b)
  = beValue (slice b 0 (varintLength (at_ b 0))) mod 2 ^ (8 * varintLength (at_ b 0) - 2).
Proof.
  intros Hs.
  pose proof (varintLength_cases (at_ b 0)) as Hk.
  destruct (readVarint_spec b) as [_ Hok].
  destruct (Hok Hs) as (_ & _ & Hrange & _).
  assert (Hv0 : 0 <= Z.land (u8 (at_ b 0)) 63 < 2 ^ 6).
  { rewrite land63 by apply u8_range. change (2 ^ 6) with 64. apply Z.mod_pos_bound. lia. }
  assert (Hfst : fst (quicinspect.readVarint b)
                 = fold_left (fun a x => a * 256 + u8 x)
                     (slice b 1 (varintLength (at_ b 0))) (Z.land (u8 (at_ b 0)) 63)).
  { rewrite readVarint_unfold.
    destruct (Z.eqb_spec (len b) 0) as [H0|H0]; [lia|].
    destruct (Z.ltb_spec (len b) (varintLength (at_ b 0))) as [Hlt|_]; [lia|].
    cbn [fst].
    destruct (varintLoop_value 8 b (varintLength (at_ b 0)) 1
                (Z.land (u8 (at_ b 0)) 63) 6 ltac:(lia) ltac:(lia) ltac:(lia) eq_refl Hv0)
      as [[_ He]|Hbad]; [exact He | lia]. }
  apply Z.mod_unique with (q := u8 (at_ b 0) / 64); [left; exact Hrange|].
  rewrite Hfst. unfold beValue.
  rewrite (slice_cons b 0 (varintLength (at_ b 0))) by lia.
  cbn [fold_left]. change (0 + 1) with 1.
  set (l := slice b 1 (varintLength (at_ b 0))).
  assert (Hl : len l = varintLength (at_ b 0) - 1) by (apply len_slice; lia).
  destruct (fold_base256 l (0 * 256 + u8 (at_ b 0))) as [E1 _].
  destruct (fold_base256 l (Z.land (u8 (at_ b 0)) 63)) as [E2 _].
  rewrite E1, E2, Hl, varintLength_pow, land63 by apply u8_range.
  pose proof (Z.div_mod (u8 (at_ b 0)) 64 ltac:(lia)) as Hdm.
  set (P := 256 ^ (varintLength (at_ b 0) - 1)).
  rewrite Hdm at 1. ring.
Qed.

Lemma readVarint_value_witness :
  fst (quicinspect.readVarint [B 0x7b; B 0xbd])
  = beValue (slice [B 0x7b; B 0xbd] 0 (varintLength (at_ [B 0x7b; B 0xbd] 0)))
    mod 2 ^ (8 * varintLength (at_ [B 0x7b; B 0xbd] 0) - 2).
Proof.
  apply (readVarint_value [B 0x7b; B 0xbd]). vm_compute. discriminate.
Defined.

Lemma slice_app_l {A} (b extra : list A) (i j : Z) :
  0 <= i -> j <= len b -> slice (b ++ extra) i j = slice b i j.
Proof.
  intros Hi Hj. unfold slice, len in *.
  destruct (Z.le_gt_cases i j) as [Hij|Hij].
  - rewrite skipn_app, firstn_app, length_skipn.
    replace (Z.to_nat (j - i) - (List.length b - Z.to_nat i))%nat with 0%nat by lia.
    cbn [firstn]. apply app_nil_r.
  - replace (Z.to_nat (j - i)) with 0%nat by lia. reflexivity.
Qed.

(** X10: [readVarint] looks at the bytes of the integer only: bytes appended to a
    slice that holds the whole integer do not change the result. *)
Theorem readVarint_ignores_trailing_bytes (b extra : list byte) :
  varintLength (at_ b 0) <= len b ->
  quicinspect.readVarint (b ++ extra) = quicinspect.readVarint b.
Proof.
  intros Hs.
  pose proof (varintLength_cases (at_ b 0)) as Hk.
  assert (H0 : at_ (b ++ extra) 0 = at_ b 0) by (apply at_app_l; lia).
  assert (Hs' : varintLength (at_ b 0) <= len (b ++ extra)).
  { rewrite len_app. pose proof (len_nonneg extra). lia. }
  assert (Hv0 : 0 <= Z.land (u8 (at_ b 0)) 63 < 2 ^ 6).
  { rewrite land63 by apply u8_range. change (2 ^ 6) with 64. apply Z.mod_pos_bound. lia. }
  rewrite !readVarint_unfold, H0.
  destruct (Z.eqb_spec (len (b ++ extra)) 0) as [E|_]; [lia|].
  destruct (Z.eqb_spec (len b) 0) as [E|_]; [lia|].
  destruct (Z.ltb_spec (len (b ++ extra)) (varintLength (at_ b 0))) as [E|_]; [lia|].
  destruct (Z.ltb_spec (len b) (varintLength (at_ b 0))) as [E|_]; [lia|].
  f_equal.
  destruct (varintLoop_value 8 b (varintLength (at_ b 0)) 1
              (Z.land (u8 (at_ b 0)) 63) 6 ltac:(lia) ltac:(lia) ltac:(lia) eq_refl Hv0)
    as [[_ He]|Hbad]; [|lia].
  destruct (varintLoop_value 8 (b ++ extra) (varintLength (at_ b 0)) 1
              (Z.land (u8 (at_ b 0)) 63) 6 ltac:(lia) ltac:(lia) ltac:(lia) eq_refl Hv0)
    as [[_ He']|Hbad]; [|lia].
  rewrite He, He', slice_app_l by lia. reflexivity.
Qed.

Lemma readVarint_ignores_trailing_bytes_witness :
  quicinspect.readVarint ([B 0x7b; B 0xbd] ++ [B 0xff])
  = quicinspect.readVarint [B 0x7b; B 0xbd].
Proof.
  apply (readVarint_ignores_trailing_bytes [B 0x7b; B 0xbd] [B 0xff]).
  vm_compute. discriminate.
Defined.

Lemma readVarint_length_and_range_witness :
  snd (quicinspect.readVarint [B 0x7b; B 0xbd]) = varintLength (at_ [B 0x7b; B 0xbd] 0) /\
  In (snd (quicinspect.readVarint [B 0x7b; B 0xbd])) [1; 2; 4; 8] /\
  0 <= fst (quicinspect.readVarint [B 0x7b; B 0xbd])
    < 2 ^ (8 * varintLength (at_ [B 0x7b; B 0xbd] 0) - 2) /\
  fst (quicinspect.readVarint [B 0x7b; B 0xbd]) < 2 ^ 62.
Proof.
  apply (proj2 (readVarint_length_and_range [B 0x7b; B 0xbd])).
  vm_compute. discriminate.
Defined.

(** ** More on [ParseInitial] *)

Ltac initial_cases :=
  repeat match goal with
         | |- context [if ?c then _ else _] => destruct c
         | |- context [let '(_, _) := ?p in _] => destruct p
         end.

(** X11: [ParseInitial] reports [Valid] exactly when it reports no error, and
    [DatagramSize] is the length of the datagram in every case. *)
Theorem initial_valid_iff_no_error (b : list byte) :
  (quicinspect.Valid (quicinspect.ParseInitial b) = true
   <-> quicinspect.Err (quicinspect.ParseInitial b) = "") /\
  quicinspect.DatagramSize (quicinspect.ParseInitial b) = len b.
Proof.
  unfold quicinspect.ParseInitial. initial_cases;
    cbn; (split; [split; intros H; (discriminate || reflexivity) | reflexivity]).
Qed.

Lemma readVarint_result (b : list byte) (v n : Z) :
  quicinspect.readVarint b = (v, n) -> n <> 0 ->
  1 <= n <= len b /\ 0 <= v < 2 ^ 62 /\ quicinspect.int_of_uint64 v = v.
Proof.
  intros H Hn.
  destruct (readVarint_spec b) as [Hshort Hok].
  destruct (Z.lt_ge_cases (len b) (varintLength (at_ b 0))) as [Hs|Hs].
  - rewrite (Hshort Hs) in H. injection H as <- <-. lia.
  - destruct (Hok Hs) as (Hsnd & Hin & Hr & H62). rewrite H in *. cbn [fst snd] in *.
    assert (Hi : 1 <= n <= 8) by (cbn [In] in Hin; lia).
    split; [lia|]. split; [lia|].
    unfold quicinspect.int_of_uint64.
    rewrite Z.mod_small; [lia|].
    change (2 ^ 63) with 9223372036854775808. change (2 ^ 64) with 18446744073709551616.
    change (2 ^ 62) with 4611686018427387904 in H62. lia.
Qed.

(** X12: For a datagram that [ParseInitial] reports valid: the connection id
    lengths are at most 255, the token length and the declared length are
    below 2^62, the packet number length is 1 to 4, and both ids, the token
    and nine bytes of header fit in the datagram. *)
Theorem initial_valid_fields_fit (b : list byte) :
  quicinspect.Valid (quicinspect.ParseInitial b) = true ->
  let s := quicinspect.ParseInitial b in
  0 <= quicinspect.DCIDLen s <= 255 /\
  0 <= quicinspect.SCIDLen s <= 255 /\
  0 <= quicinspect.TokenLen s < 2 ^ 62 /\
  0 <= quicinspect.DeclaredLen s < 2 ^ 62 /\
  1 <= quicinspect.PacketNumber s <= 4 /\
  quicinspect.DCIDLen s + quicinspect.SCIDLen s + quicinspect.TokenLen s + 9
    <= quicinspect.DatagramSize s.
Proof.
  unfold quicinspect.ParseInitial.
  destruct (Z.ltb_spec (len b) 7) as [|H7]; [discriminate|].
  destruct (Z.land (u8 (at_ b 0)) 128 =? 0); [discriminate|].
  pose proof (u8_range (at_ b 5)) as Hd.
  destruct (Z.ltb_spec (len b) (6 + u8 (at_ b 5) + 1)) as [|Hdc]; [discriminate|].
  set (d := u8 (at_ b 5)) in *.
  pose proof (u8_range (at_ b (6 + d))) as Hsc.
  set (sc := u8 (at_ b (6 + d))) in *.
  destruct (Z.ltb_spec (len b) (6 + d + 1 + sc)) as [|Hscid]; [discriminate|].
  destruct (Z.geb_spec (6 + d + 1 + sc) (len b)) as [|Htl]; [discriminate|].
  destruct (quicinspect.readVarint (slice b (6 + d + 1 + sc) (len b))) as [tlen n] eqn:Ht.
  destruct (Z.eqb_spec n 0) as [|Hn]; [discriminate|].
  destruct (readVarint_result _ _ _ Ht Hn) as (Hn1 & Htr & Hti).
  rewrite len_slice in Hn1 by lia.
  rewrite Hti.
  destruct (Z.ltb_spec (len b) (6 + d + 1 + sc + n + tlen)) as [|Htok]; [discriminate|].
  destruct (Z.geb_spec (6 + d + 1 + sc + n + tlen) (len b)) as [|Hdl]; [discriminate|].
  destruct (quicinspect.readVarint (slice b (6 + d + 1 + sc + n + tlen) (len b)))
    as [dlen n2] eqn:Hdv.
  destruct (Z.eqb_spec n2 0) as [|Hn2]; [discriminate|].
  destruct (readVarint_result _ _ _ Hdv Hn2) as (Hn21 & Hdr & Hdi).
  rewrite len_slice in Hn21 by lia.
  rewrite Hdi. intros _. cbn.
  pose proof (land3_range (u8 (at_ b 0))).
  repeat split; lia.
Qed.

Lemma initial_valid_fields_fit_witness :
  let s := quicinspect.ParseInitial minimalInitial in
  0 <= quicinspect.DCIDLen s <= 255 /\
  0 <= quicinspect.SCIDLen s <= 255 /\
  0 <= quicinspect.TokenLen s < 2 ^ 62 /\
  0 <= quicinspect.DeclaredLen s < 2 ^ 62 /\
  1 <= quicinspect.PacketNumber s <= 4 /\
  quicinspect.DCIDLen s + quicinspect.SCIDLen s + quicinspect.TokenLen s + 9
    <= quicinspect.DatagramSize s.
Proof.
  apply (initial_valid_fields_fit minimalInitial). vm_compute. reflexivity.
Defined.

(** ** More on the impairment state *)

Ltac innermost_if :=
  match goal with
  | |- context [if ?c then _ else _] =>
      lazymatch c with
      | context [if _ then _ else _] => fail
      | _ => destruct c
      end
  end.

Ltac config_fields :=
  cbn [impair.curr impair.Profile impair.ThresholdBytes impair.LatencyMs impair.JitterMs
       impair.BandwidthKbps impair.BandwidthDownKbps impair.BlackholeSeconds impair.Notes
       impair.UpdatedAt impair.setProfile impair.setThresholdBytes impair.setLatencyMs
       impair.setJitterMs impair.setBandwidthKbps impair.setBlackholeSeconds
       impair.setUpdatedAt].

(** The stored config, field by field. *)
Lemma Apply_fields (s : impair.State) (cfg : impair.Config) (now : Z) :
  impair.Snapshot (impair.Apply s cfg now) =
  let p := if String.eqb (impair.Profile cfg) "" then impair.ProfileClean
           else impair.Profile cfg in
  impair.mkConfig p
    (if impair.ThresholdBytes cfg =? 0 then 1300 else impair.ThresholdBytes cfg)
    (if String.eqb p impair.ProfileLatencyJitter
     then if impair.LatencyMs cfg =? 0 then 50 else impair.LatencyMs cfg
     else impair.LatencyMs cfg)
    (if String.eqb p impair.ProfileLatencyJitter
     then if impair.JitterMs cfg =? 0 then 10 else impair.JitterMs cfg
     else impair.JitterMs cfg)
    (if String.eqb p impair.ProfileBandwidthLimit
     then if impair.BandwidthKbps cfg =? 0 then 1000 else impair.BandwidthKbps cfg
     else impair.BandwidthKbps cfg)
    (impair.BandwidthDownKbps cfg)
    (if impair.BlackholeSeconds cfg <=? 0 then 30 else impair.BlackholeSeconds cfg)
    (impair.Notes cfg)
    now.
Proof.
  destruct cfg as [p th la ji bw bd bs notes upd].
  unfold impair.Snapshot, impair.Get, impair.Apply. cbv zeta. config_fields.
  destruct (String.eqb p ""); config_fields;
  destruct (th =? 0); config_fields;
  match goal with |- context [String.eqb ?a impair.ProfileLatencyJitter] =>
    destruct (String.eqb a impair.ProfileLatencyJitter) end; config_fields;
  destruct (la =? 0); config_fields;
  destruct (ji =? 0); config_fields;
  match goal with |- context [String.eqb ?a impair.ProfileBandwidthLimit] =>
    destruct (String.eqb a impair.ProfileBandwidthLimit) end; config_fields;
  destruct (bw =? 0); config_fields;
  destruct (bs <=? 0); reflexivity.
Qed.

Ltac innermost_spec :=
  match goal with
  | |- context [if ?c then _ else _] =>
      lazymatch c with
      | context [if _ then _ else _] => fail
      | String.eqb ?a ?b => destruct (String.eqb_spec a b)
      | Z.eqb ?a ?b => destruct (Z.eqb_spec a b)
      | Z.leb ?a ?b => destruct (Z.leb_spec a b)
      end
  end.

Ltac config_cases :=
  unfold impair.ProfileLatencyJitter, impair.ProfileBandwidthLimit, impair.ProfileClean;
  cbv zeta; config_fields;
  repeat (innermost_spec; try (exfalso; first [lia | congruence]); config_fields).

Ltac config_done :=
  repeat split; intros;
  repeat match goal with H : _ \/ _ |- _ => destruct H end;
  first [reflexivity | lia | congruence | discriminate].

(** X13: After [Apply] the stored config has a profile name, a threshold other
    than 0, a positive blackhole duration and the time of the call; under the
    latency profile its latency and jitter are not 0, under the bandwidth
    profile its bandwidth is not 0. *)
Theorem apply_stores_a_complete_config (s : impair.State) (cfg : impair.Config) (now : Z) :
  let c := impair.Snapshot (impair.Apply s cfg now) in
  impair.Profile c <> "" /\
  impair.ThresholdBytes c <> 0 /\
  impair.BlackholeSeconds c > 0 /\
  impair.UpdatedAt c = now /\
  (impair.Profile c = impair.ProfileLatencyJitter ->
   impair.LatencyMs c <> 0 /\ impair.JitterMs c <> 0) /\
  (impair.Profile c = impair.ProfileBandwidthLimit -> impair.BandwidthKbps c <> 0).
Proof.
  rewrite Apply_fields. destruct cfg as [p th la ji bw bd bs notes upd].
  config_cases; config_done.
Qed.

(** X14: Applying a snapshot again changes [UpdatedAt] and nothing else: the
    defaults of [Apply] are stable. *)
Theorem apply_of_snapshot_only_restamps
    (s s' : impair.State) (cfg : impair.Config) (now now' : Z) :
  impair.Snapshot (impair.Apply s' (impair.Snapshot (impair.Apply s cfg now)) now')
  = impair.setUpdatedAt (impair.Snapshot (impair.Apply s cfg now)) now'.
Proof.
  rewrite (Apply_fields s' _ now'), Apply_fields.
  destruct cfg as [p th la ji bw bd bs notes upd].
  config_cases; first [reflexivity | lia | congruence | discriminate].
Qed.

(** X15: [Apply] overwrites nothing that the caller set: the notes and the
    downstream bandwidth are stored as given, and each other field is stored
    as given unless it holds the value that asks for its default. *)
Theorem apply_keeps_what_the_caller_set (s : impair.State) (cfg : impair.Config) (now : Z) :
  let c := impair.Snapshot (impair.Apply s cfg now) in
  impair.Notes c = impair.Notes cfg /\
  impair.BandwidthDownKbps c = impair.BandwidthDownKbps cfg /\
  (impair.Profile cfg <> "" -> impair.Profile c = impair.Profile cfg) /\
  (impair.ThresholdBytes cfg <> 0 -> impair.ThresholdBytes c = impair.ThresholdBytes cfg) /\
  (impair.BlackholeSeconds cfg > 0 -> impair.BlackholeSeconds c = impair.BlackholeSeconds cfg) /\
  (impair.LatencyMs cfg <> 0 \/ impair.Profile cfg <> impair.ProfileLatencyJitter ->
   impair.LatencyMs c = impair.LatencyMs cfg) /\
  (impair.JitterMs cfg <> 0 \/ impair.Profile cfg <> impair.ProfileLatencyJitter ->
   impair.JitterMs c = impair.JitterMs cfg) /\
  (impair.BandwidthKbps cfg <> 0 \/ impair.Profile cfg <> impair.ProfileBandwidthLimit ->
   impair.BandwidthKbps c = impair.BandwidthKbps cfg).
Proof.
  rewrite Apply_fields. destruct cfg as [p th la ji bw bd bs notes upd].
  config_cases; config_done.
Qed.

(** ** More on the rule DSL *)

Lemma parseLine_Raw {lib : strings.Library} (line : string) (r : rules.Rule) :
  rules.parseLine line = inl r -> rules.Raw r = line.
Proof.
  intros H. destruct (parseLine_profile line r H) as (_ & _ & _ & _ & _ & Hr).
  exact Hr.
Qed.

Lemma parseLines_Raw {lib : strings.Library} (lines : list string) :
  forall lineNo acc set,
  rules.parseLines lines lineNo acc = inl set ->
  map rules.Raw set = map rules.Raw acc ++ filter isRuleLine (map strings.TrimSpace lines).
Proof.
  induction lines as [|t lines IH]; intros lineNo acc set H; cbn [rules.parseLines] in H.
  - injection H as <-. cbn [map filter]. rewrite app_nil_r. reflexivity.
  - cbn [map filter]. unfold isRuleLine at 1.
    destruct (String.eqb (strings.TrimSpace t) "" || HasPrefix (strings.TrimSpace t) "#");
      cbn [negb].
    + apply IH in H. exact H.
    + destruct (rules.parseLine (strings.TrimSpace t)) as [rw|e] eqn:Hrw; [|discriminate].
      apply IH in H. rewrite H, map_app. cbn [map].
      rewrite (parseLine_Raw _ _ Hrw), <- app_assoc. reflexivity.
Qed.

(** X16: After a load that parses, the rule listing is the lines of the
    body, trimmed as [strings.TrimSpace] trims them, without the blank lines
    and the comments, in their order. *)
Theorem loaded_rules_are_the_rule_lines_in_order {lib : strings.Library}
    (quote : string -> string) (fmtUnicode : ascii -> string)
    (ruleSet : rules.Set_) (body : TextReader) :
  snd (rules.Parse body) = None ->
  admin.rulesGET (fst (pathlab.rulesPOST quote fmtUnicode ruleSet body))
  = filter isRuleLine (map strings.TrimSpace (fst (rules.scanLines body))).
Proof.
  intros Hok.
  assert (Hpost : pathlab.rulesPOST quote fmtUnicode ruleSet body
                  = (fst (rules.Parse body),
                     pathlab.Loaded (len (rules.Rules (fst (rules.Parse body)))))).
  { unfold pathlab.rulesPOST.
    destruct (rules.Parse body) as [set [e|]]; [discriminate | reflexivity]. }
  rewrite Hpost. cbn [fst]. unfold admin.rulesGET.
  rewrite Parse_unfold in *.
  destruct (rules.parseLines (fst (rules.scanLines body)) 0 []) as [set|e] eqn:Hp;
    [|discriminate].
  destruct (snd (rules.scanLines body)); [discriminate|].
  cbn [fst rules.Rules]. apply parseLines_Raw in Hp. exact Hp.
Qed.

Lemma loaded_rules_are_the_rule_lines_in_order_witness :
  admin.rulesGET
    (fst (pathlab.rulesPOST (lib := strings.ascii) anyQuote anyUnicode rules.emptySet
            (strings.NewReader rulesWithComment)))
  = filter isRuleLine
      (map (strings.TrimSpace (Library := strings.ascii))
         (fst (rules.scanLines (strings.NewReader rulesWithComment)))).
Proof.
  apply (loaded_rules_are_the_rule_lines_in_order (lib := strings.ascii)
           anyQuote anyUnicode rules.emptySet (strings.NewReader rulesWithComment)).
  vm_compute. reflexivity.
Defined.

(** X17: [parseLine] ignores letter case: two lines that [strings.ToLower]
    makes equal are rejected with the same error, or accepted with the same
    profile and the same predicate, each rule keeping its own text as
    [Raw]. *)
Theorem parseLine_ignores_case {lib : strings.Library} (line1 line2 : string) :
  strings.ToLower line1 = strings.ToLower line2 ->
  match rules.parseLine line1, rules.parseLine line2 with
  | inl r1, inl r2 =>
      rules.Profile r1 = rules.Profile r2 /\ rules.Predicate r1 = rules.Predicate r2 /\
      rules.Raw r1 = line1 /\ rules.Raw r2 = line2
  | inr e1, inr e2 => e1 = e2
  | _, _ => False
  end.
Proof.
  intros H. unfold rules.parseLine. rewrite H.
  destruct (negb (HasPrefix (strings.ToLower line2) "when ")); [reflexivity|].
  destruct (SplitN2 _ _) as [|part0 [|part1 [|x l]]]; try reflexivity.
  destruct (String.eqb (strings.ToUpper (strings.TrimSpace part1)) ""); [reflexivity|].
  destruct (rules.parseCondition (strings.TrimSpace part0)); [|reflexivity].
  cbn. auto.
Qed.

Lemma parseLine_ignores_case_witness :
  match rules.parseLine (lib := strings.ascii)
          "WHEN SNI_Contains Example.COM THEN Abort_After_CH",
        rules.parseLine (lib := strings.ascii)
          "when sni_contains example.com then abort_after_ch" with
  | inl r1, inl r2 =>
      rules.Profile r1 = rules.Profile r2 /\ rules.Predicate r1 = rules.Predicate r2 /\
      rules.Raw r1 = "WHEN SNI_Contains Example.COM THEN Abort_After_CH" /\
      rules.Raw r2 = "when sni_contains example.com then abort_after_ch"
  | inr e1, inr e2 => e1 = e2
  | _, _ => False
  end.
Proof.
  apply (parseLine_ignores_case (lib := strings.ascii)
           "WHEN SNI_Contains Example.COM THEN Abort_After_CH"
           "when sni_contains example.com then abort_after_ch").
  reflexivity.
Defined.

(** Hexadecimal literals *)

Lemma wrap64_small (x : Z) : - 2 ^ 63 <= x < 2 ^ 63 -> rules.wrap64 x = x.
Proof.
  intros H. unfold rules.wrap64. rewrite Z.mod_small; lia.
Qed.

Lemma wrap64_step (a b : Z) :
  rules.wrap64 (rules.wrap64 a * 256 + b) = rules.wrap64 (a * 256 + b).
Proof.
  unfold rules.wrap64. f_equal.
  replace ((a + 2 ^ 63) mod 2 ^ 64 - 2 ^ 63) with
    (a - 2 ^ 64 * ((a + 2 ^ 63) / 2 ^ 64))
    by (pose proof (Z.div_mod (a + 2 ^ 63) (2 ^ 64) ltac:(lia)); lia).
  replace ((a - 2 ^ 64 * ((a + 2 ^ 63) / 2 ^ 64)) * 256 + b + 2 ^ 63)
    with (a * 256 + b + 2 ^ 63 + (- (256 * ((a + 2 ^ 63) / 2 ^ 64))) * 2 ^ 64) by ring.
  apply Z.mod_add. lia.
Qed.

Lemma fold_wrap64 (bs : list Z) :
  forall n,
  fold_left (fun n bb => rules.wrap64 (n * 256 + bb)) bs (rules.wrap64 n)
  = rules.wrap64 (fold_left (fun n bb => n * 256 + bb) bs n).
Proof.
  induction bs as [|b bs IH]; intros n; cbn [fold_left]; [reflexivity|].
  rewrite wrap64_step. apply IH.
Qed.

Lemma fromHexChar_range (c : ascii) (d : Z) :
  rules.fromHexChar c = Some d -> 0 <= d < 16.
Proof.
  unfold rules.fromHexChar.
  repeat match goal with
         | |- context [if ?x then _ else _] => destruct x eqn:?
         end; intros H; try discriminate; injection H as <-;
    repeat match goal with
           | H : (_ && _) = true |- _ => apply andb_prop in H; destruct H
           | H : (_ <=? _) = true |- _ => apply Z.leb_le in H
           end; lia.
Qed.

Lemma lor_shift_nibble (a b : Z) :
  0 <= a < 16 -> 0 <= b < 16 -> Z.lor (Z.shiftl a 4) b = a * 16 + b.
Proof.
  intros Ha Hb.
  assert (Hs : forall x y, In x (map Z.of_nat (seq 0 16)) -> In y (map Z.of_nat (seq 0 16)) ->
               Z.lor (Z.shiftl x 4) y = x * 16 + y).
  { intros x y Hx Hy. cbn in Hx, Hy.
    repeat (destruct Hx as [<-|Hx]; [
      repeat (destruct Hy as [<-|Hy]; [reflexivity|]); destruct Hy |]).
    destruct Hx. }
  apply Hs; apply in_map_iff.
  - exists (Z.to_nat a). split; [lia | apply in_seq; lia].
  - exists (Z.to_nat b). split; [lia | apply in_seq; lia].
Qed.

(** Two-step induction on strings. *)
Lemma string_pair_ind (P : string -> Prop) :
  P "" -> (forall c, P (String c "")) ->
  (forall c d s, P s -> P (String c (String d s))) ->
  forall s, P s.
Proof.
  intros H0 H1 H2 s.
  assert (H : P s /\ forall c, P (String c s)).
  { induction s as [|d s [IHs IHc]]; [split; [exact H0 | exact H1]|].
    split; [apply IHc|]. intros c. apply H2. exact IHs. }
  exact (proj1 H).
Qed.

Lemma hexDecodeString_spec (s : string) :
  ((exists bs, rules.hexDecodeString s = inl bs)
   <-> Nat.even (String.length s) = true /\ allHex s = true) /\
  (forall bs, rules.hexDecodeString s = inl bs ->
     (2 * List.length bs = String.length s)%nat /\
     Forall (fun b => 0 <= b < 256) bs /\
     fold_left (fun n bb => n * 256 + bb) bs 0 = hexValue s).
Proof.
  assert (Hgen : forall acc,
    ((exists bs, rules.hexDecodeString s = inl bs)
     <-> Nat.even (String.length s) = true /\ allHex s = true) /\
    (forall bs, rules.hexDecodeString s = inl bs ->
       (2 * List.length bs = String.length s)%nat /\
       Forall (fun b => 0 <= b < 256) bs /\
       fold_left (fun n bb => n * 256 + bb) bs acc = hexValueFrom s acc)).
  { induction s as [| c | c d s IH] using string_pair_ind; intros acc.
    - split.
      + split; [intros _; split; reflexivity | intros _; exists []; reflexivity].
      + intros bs H. cbn in H. injection H as <-. repeat split; constructor.
    - split.
      + split.
        * intros [bs H]. cbn in H. destruct (rules.fromHexChar c); discriminate.
        * intros [H _]. discriminate.
      + intros bs H. cbn in H. destruct (rules.fromHexChar c); discriminate.
    - cbn [rules.hexDecodeString String.length Nat.even allHex hexValueFrom].
      destruct (rules.fromHexChar c) as [a|] eqn:Ha.
      2:{ split; [split; [intros [bs H]; discriminate | intros [_ H]; discriminate]
                 | intros bs H; discriminate]. }
      destruct (rules.fromHexChar d) as [b|] eqn:Hb.
      2:{ split; [split; [intros [bs H]; discriminate | intros [_ H]; discriminate]
                 | intros bs H; discriminate]. }
      pose proof (fromHexChar_range c a Ha) as Hra.
      pose proof (fromHexChar_range d b Hb) as Hrb.
      rewrite lor_shift_nibble by assumption.
      destruct (IH ((acc * 16 + a) * 16 + b)) as [Hiff Hval].
      split.
      + rewrite <- Hiff. split.
        * intros [bs H]. destruct (rules.hexDecodeString s) as [bs'|e]; [|discriminate].
          exists bs'. reflexivity.
        * intros [bs' H]. rewrite H. eexists. reflexivity.
      + intros bs H.
        destruct (rules.hexDecodeString s) as [bs'|e] eqn:Hs; [|discriminate].
        injection H as <-.
        destruct (Hval bs' eq_refl) as (Hlen & Hall & Hfold).
        split; [cbn [List.length]; lia|].
        split; [constructor; [lia | exact Hall]|].
        cbn [fold_left]. rewrite <- Hfold. f_equal. ring. }
  exact (Hgen 0).
Qed.

(** X18: For [0x] followed by an even number of hexadecimal digits, [parseInt]
    returns the value of the digits wrapped to 64 bits: a long literal wraps
    around, it is not an error. *)
Theorem parseInt_hex_wraps (h : string) :
  Nat.even (String.length h) = true -> allHex h = true ->
  rules.parseInt ("0x" +++ h) = inl (rules.wrap64 (hexValue h)).
Proof.
  intros He Hh. unfold rules.parseInt.
  change (HasPrefix ("0x" +++ h) "0x") with true. cbv iota.
  change (TrimPrefix ("0x" +++ h) "0x") with h.
  destruct (hexDecodeString_spec h) as [Hiff Hval].
  destruct (proj2 Hiff (conj He Hh)) as [bs Hbs]. rewrite Hbs.
  destruct (Hval bs Hbs) as (_ & _ & Hfold). f_equal.
  rewrite <- Hfold.
  change 0 with (rules.wrap64 0) at 1. apply fold_wrap64.
Qed.

Lemma parseInt_hex_wraps_witness :
  rules.parseInt ("0x" +++ "05DC") = inl (rules.wrap64 (hexValue "05DC")).
Proof.
  apply (parseInt_hex_wraps "05DC"); reflexivity.
Defined.

(** The scanner *)

Lemma fold_revString (l : list ascii) :
  forall acc, fold_left (fun acc c => String c acc) l acc = revString l +++ acc.
Proof.
  unfold revString. induction l as [|c l IH]; intros acc; cbn [fold_left]; [reflexivity|].
  rewrite (IH (String c acc)), (IH (String c "")), append_assoc. reflexivity.
Qed.

Lemma revString_cons (c : ascii) (l : list ascii) :
  revString (c :: l) = revString l +++ String c "".
Proof. unfold revString at 1. cbn [fold_left]. apply fold_revString. Qed.

Lemma scanFrom_line (a : string) :
  forall b cur n,
  noLineFeed a = true ->
  n + Z.of_nat (String.length a) < rules.MaxScanTokenSize ->
  rules.scanFrom (a +++ String "010" b) cur n
  = (rules.dropCR (revString cur +++ a) :: fst (rules.scanFrom b [] 0),
     snd (rules.scanFrom b [] 0)).
Proof.
  induction a as [|c a IH]; intros b cur n Hlf Hlen.
  - cbn [String.append rules.scanFrom]. rewrite Ascii.eqb_refl, append_nil_r.
    destruct (rules.scanFrom b [] 0) as [ls e]. reflexivity.
  - cbn [noLineFeed] in Hlf. apply andb_prop in Hlf. destruct Hlf as [Hc Hlf].
    cbn [String.append rules.scanFrom].
    destruct (Ascii.eqb c "010"); [discriminate|].
    cbn [String.length] in Hlen.
    destruct (Z.geb_spec (n + 1) rules.MaxScanTokenSize) as [Hbig|_]; [lia|].
    rewrite IH by (try exact Hlf; lia).
    rewrite revString_cons, append_assoc. reflexivity.
Qed.

(** The model of [bufio.Scanner]: a line ends at the first line feed, and a
    carriage return before it is dropped. *)
Lemma scanner_ends_a_line_at_a_line_feed (a b : string) :
  noLineFeed a = true ->
  Z.of_nat (String.length a) < rules.MaxScanTokenSize ->
  rules.scanFrom (a +++ String "010" b) [] 0
  = (rules.dropCR a :: fst (rules.scanFrom b [] 0), snd (rules.scanFrom b [] 0)).
Proof.
  intros Hlf Hlen. rewrite scanFrom_line by (try exact Hlf; lia). reflexivity.
Qed.

(** X19: [Match] on one list of rules followed by another answers as the first
    list when a rule of the first list matches, and as the second list when
    none does. *)
Theorem earlier_rules_take_precedence (rs more : list rules.Rule) (res : tlsinspect.Result) :
  rules.Match (rules.mkSet (rs ++ more)) res
  = if snd (rules.Match (rules.mkSet rs) res)
    then rules.Match (rules.mkSet rs) res
    else rules.Match (rules.mkSet more) res.
Proof.
  unfold rules.Match. cbn [rules.Rules].
  induction rs as [|r rs IH]; cbn [app rules.matchRules snd]; [reflexivity|].
  destruct (rules.Predicate r res); [reflexivity | exact IH].
Qed.

Lemma parseLines_error {lib : strings.Library} (lines : list string) :
  forall lineNo acc e,
  rules.parseLines lines lineNo acc = inr e ->
  exists k t e',
    e = rules.ErrLine (lineNo + Z.of_nat k + 1) e' /\
    nth_error lines k = Some t /\
    isRuleLine (strings.TrimSpace t) = true /\
    rules.parseLine (strings.TrimSpace t) = inr e'.
Proof.
  induction lines as [|t lines IH]; intros lineNo acc e H; cbn [rules.parseLines] in H;
    [discriminate|].
  destruct (String.eqb (strings.TrimSpace t) "" || HasPrefix (strings.TrimSpace t) "#")
    eqn:Hskip.
  - destruct (IH _ _ _ H) as (k & t' & e' & -> & Hn & Hr & Hp).
    exists (S k), t', e'. repeat split; try assumption. f_equal. lia.
  - destruct (rules.parseLine (strings.TrimSpace t)) as [rw|e1] eqn:Hp.
    + destruct (IH _ _ _ H) as (k & t' & e' & -> & Hn & Hr & Hp').
      exists (S k), t', e'. repeat split; try assumption. f_equal. lia.
    + injection H as <-. exists 0%nat, t, e1.
      repeat split; [f_equal; lia | unfold isRuleLine; rewrite Hskip; reflexivity | exact Hp].
Qed.

(** X20: An error of [Parse] is the error of [parseLine] on a rule line,
    wrapped with the position of that line counted from 1; or it is the
    error of the scanner as it is, a line too long for its buffer or the
    error the reader ended with, and then every line scanned parsed. *)
Theorem parse_errors_name_their_line {lib : strings.Library}
    (body : TextReader) (e : rules.error) :
  snd (rules.Parse body) = Some e ->
  (exists k t e',
     e = rules.ErrLine (Z.of_nat k + 1) e' /\
     nth_error (fst (rules.scanLines body)) k = Some t /\
     isRuleLine (strings.TrimSpace t) = true /\
     rules.parseLine (strings.TrimSpace t) = inr e') \/
  (exists se,
     e = rules.ErrScanner se /\
     snd (rules.scanLines body) = Some se /\
     (se = rules.ScannerErrTooLong \/
      exists message, failure body = Some message /\ se = rules.ReaderError message) /\
     Forall (fun t => lineFails t = false) (fst (rules.scanLines body))).
Proof.
  rewrite Parse_unfold.
  destruct (rules.parseLines (fst (rules.scanLines body)) 0 []) as [set|e1] eqn:Hp.
  - destruct (snd (rules.scanLines body)) as [se|] eqn:Hs; [|discriminate].
    cbn [snd]. intros H. injection H as <-. right. exists se.
    split; [reflexivity|]. split; [reflexivity|].
    split; [exact (scanLines_error body se Hs)|].
    apply Forall_forall. intros t Hin.
    destruct (lineFails t) eqn:Hf; [|reflexivity]. exfalso.
    destruct (first_failing_line _ (ex_intro _ t (conj Hin Hf)))
      as (before & t' & after & Hl & Hb & Ht').
    destruct (parseLines_first_failure before t' after 0 [] Hb Ht') as [e' [_ Hpe]].
    rewrite Hl in Hp. congruence.
  - cbn [snd]. intros H. injection H as <-. left.
    destruct (parseLines_error _ _ _ _ Hp) as (k & t & e' & He & Hn & Hr & Hpl).
    exists k, t, e'. repeat split; assumption.
Qed.

Lemma parse_errors_name_their_line_witness :
  (exists k t e',
     rules.ErrScanner (rules.ReaderError "unexpected EOF")
       = rules.ErrLine (Z.of_nat k + 1) e' /\
     nth_error (fst (rules.scanLines rulesCutShort)) k = Some t /\
     isRuleLine (strings.TrimSpace (Library := strings.ascii) t) = true /\
     rules.parseLine (lib := strings.ascii) (strings.TrimSpace (Library := strings.ascii) t)
       = inr e') \/
  (exists se,
     rules.ErrScanner (rules.ReaderError "unexpected EOF") = rules.ErrScanner se /\
     snd (rules.scanLines rulesCutShort) = Some se /\
     (se = rules.ScannerErrTooLong \/
      exists message, failure rulesCutShort = Some message /\ se = rules.ReaderError message) /\
     Forall (fun t => lineFails (lib := strings.ascii) t = false)
       (fst (rules.scanLines rulesCutShort))).
Proof.
  apply (parse_errors_name_their_line (lib := strings.ascii) rulesCutShort
           (rules.ErrScanner (rules.ReaderError "unexpected EOF"))).
  vm_compute. reflexivity.
Defined.

(** ** More on the connection engine *)

(** X21: [HandleConnection] runs each shaping strategy for its own profile name
    and for no other string, and clean passthrough for every string that is
    not one of the four names. *)
Theorem dispatch_selects_by_exact_name (cfg : impair.Config) :
  (proxy.dispatch cfg = proxy.handleAbortAfterCH
   <-> impair.Profile cfg = impair.ProfileAbortAfterCH) /\
  (proxy.dispatch cfg = proxy.handleMTUBlackhole
   <-> impair.Profile cfg = impair.ProfileMTUBlackhole) /\
  (proxy.dispatch cfg = proxy.handleLatencyJitter
   <-> impair.Profile cfg = impair.ProfileLatencyJitter) /\
  (proxy.dispatch cfg = proxy.handleBandwidthLimit
   <-> impair.Profile cfg = impair.ProfileBandwidthLimit) /\
  (proxy.dispatch cfg = proxy.handleCleanPassthrough
   <-> ~ In (impair.Profile cfg) shapingProfiles).
Proof.
  unfold proxy.dispatch, shapingProfiles.
  destruct (String.eqb_spec (impair.Profile cfg) impair.ProfileAbortAfterCH) as [E1|E1];
    [rewrite E1; repeat split; intros H; try discriminate; try reflexivity;
     try (exfalso; apply H; cbn; tauto)|].
  destruct (String.eqb_spec (impair.Profile cfg) impair.ProfileMTUBlackhole) as [E2|E2];
    [rewrite E2; repeat split; intros H; try discriminate; try reflexivity;
     try (exfalso; apply H; cbn; tauto)|].
  destruct (String.eqb_spec (impair.Profile cfg) impair.ProfileLatencyJitter) as [E3|E3];
    [rewrite E3; repeat split; intros H; try discriminate; try reflexivity;
     try (exfalso; apply H; cbn; tauto)|].
  destruct (String.eqb_spec (impair.Profile cfg) impair.ProfileBandwidthLimit) as [E4|E4];
    [rewrite E4; repeat split; intros H; try discriminate; try reflexivity;
     try (exfalso; apply H; cbn; tauto)|].
  repeat split; intros H; try discriminate; try congruence; try reflexivity.
  cbn [In]. intuition congruence.
Qed.

(** X22: When the ClientHello does not parse, the rules are not consulted: the
    receipt has the global profile in its three profile fields, and its
    handshake metadata is zero or empty. *)
Theorem failed_parse_skips_the_rules
    (md5_hex : string -> string) (id now : Z) (clientAddr upstreamAddr : string)
    (state : impair.State) (ruleSet : rules.Set_)
    (dial : option string) (run : proxy.strategy -> option string)
    (conn : Reader) (parsed : tlsinspect.output) :
  tlsinspect.ParseClientHello md5_hex conn = Some parsed ->
  tlsinspect.err parsed <> None ->
  let receipt := snd (pathlab.serveParsed id now clientAddr upstreamAddr state ruleSet
                        dial run parsed) in
  pathlab.AppliedProfile receipt = impair.Profile (impair.Get state) /\
  pathlab.GlobalProfile receipt = impair.Profile (impair.Get state) /\
  pathlab.RuleMatched receipt = impair.Profile (impair.Get state) /\
  pathlab.HandshakeBytes receipt = 0 /\
  pathlab.CipherCount receipt = 0 /\
  pathlab.PQCHint receipt = false /\
  pathlab.SNI receipt = "" /\
  pathlab.ALPN receipt = [] /\
  pathlab.JA3 receipt = "".
Proof.
  intros Hp Herr receipt.
  destruct (ParseClientHello_error_empty md5_hex conn parsed Hp Herr) as [_ Hres].
  destruct (serveParsed_receipt id now clientAddr upstreamAddr state ruleSet dial run parsed)
    as (Hrm & Hap & Hgp).
  fold receipt in Hrm, Hap, Hgp.
  assert (Hc : pathlab.chooseProfile (impair.Get state) (tlsinspect.res parsed)
                 (tlsinspect.err parsed) ruleSet = impair.Profile (impair.Get state)).
  { unfold pathlab.chooseProfile. destruct (tlsinspect.err parsed); [reflexivity | congruence]. }
  rewrite Hc in Hrm, Hap.
  split; [exact Hap|]. split; [exact Hgp|]. split; [exact Hrm|].
  subst receipt. unfold pathlab.serveParsed.
  destruct (proxy.HandleConnection _ _ _) as [ran [e|]];
    cbn [snd pathlab.HandshakeBytes pathlab.CipherCount pathlab.PQCHint pathlab.SNI
         pathlab.ALPN pathlab.JA3];
    rewrite Hres; repeat split; reflexivity.
Qed.

Lemma failed_parse_skips_the_rules_witness :
  exists parsed,
    tlsinspect.ParseClientHello anyDigest applicationDataRecord = Some parsed /\
    let receipt := snd (pathlab.serveParsed 1 0 "c" "u" (pathlab.initialState 0)
                          pathlab.initialRuleSet None (fun _ => None) parsed) in
    pathlab.AppliedProfile receipt = impair.Profile (impair.Get (pathlab.initialState 0)) /\
    pathlab.GlobalProfile receipt = impair.Profile (impair.Get (pathlab.initialState 0)) /\
    pathlab.RuleMatched receipt = impair.Profile (impair.Get (pathlab.initialState 0)) /\
    pathlab.HandshakeBytes receipt = 0 /\
    pathlab.CipherCount receipt = 0 /\
    pathlab.PQCHint receipt = false /\
    pathlab.SNI receipt = "" /\
    pathlab.ALPN receipt = [] /\
    pathlab.JA3 receipt = "".
Proof.
  destruct (tlsinspect.ParseClientHello anyDigest applicationDataRecord) as [parsed|] eqn:E.
  - exists parsed. split; [reflexivity|].
    apply (failed_parse_skips_the_rules anyDigest 1 0 "c" "u" (pathlab.initialState 0)
             pathlab.initialRuleSet None (fun _ => None) applicationDataRecord parsed E).
    vm_compute in E. injection E as <-. discriminate.
  - vm_compute in E. discriminate.
Defined.

(** X23: The bytes replayed to a strategy are [raw], the handshake message
    without its record headers, followed by whatever else was buffered.
    [ParseClientHello] on them fails whenever the first parse succeeded. *)
Theorem replayed_hello_does_not_parse_again
    (md5_hex : string -> string) (conn : Reader) (parsed : tlsinspect.output)
    (buffered : list byte) (again : tlsinspect.output) :
  tlsinspect.ParseClientHello md5_hex conn = Some parsed ->
  tlsinspect.err parsed = None ->
  tlsinspect.ParseClientHello md5_hex (tlsinspect.raw parsed ++ buffered) = Some again ->
  tlsinspect.err again <> None.
Proof.
  intros Hp Herr Hagain.
  destruct (ParseClientHello_success md5_hex conn parsed Hp Herr)
    as (recs & surplus & _ & _ & _ & _ & Hlen & Hty & _).
  pose proof (headerLength_nonneg (tlsinspect.raw parsed)) as Hhl.
  revert Hagain. unfold tlsinspect.ParseClientHello, tlsinspect.ParseClientHelloFuel.
  rewrite readRecords_S.
  destruct (ReadFull (tlsinspect.raw parsed ++ buffered) 5) as [[hdr r1]|[e r0]] eqn:Hh.
  2:{ intros H. injection H as <-. discriminate. }
  apply ReadFull_ok in Hh; [|lia]. destruct Hh as [Hsplit Hl5].
  assert (H0 : at_ hdr 0 = at_ (tlsinspect.raw parsed) 0).
  { rewrite <- (at_app_l hdr r1 0) by lia. rewrite <- Hsplit.
    apply at_app_l. lia. }
  destruct ((be16 hdr 3 <=? 0) || (be16 hdr 3 >? Z.shiftl 1 14 + 256)).
  { intros H. injection H as <-. discriminate. }
  destruct (ReadFull r1 (be16 hdr 3)) as [[body r2]|[e r0]].
  2:{ intros H. injection H as <-. discriminate. }
  rewrite H0, Hty. cbn [Z.eqb Pos.eqb negb].
  intros H. injection H as <-. discriminate.
Qed.

Lemma replayed_hello_does_not_parse_again_witness :
  exists parsed again,
    tlsinspect.ParseClientHello anyDigest minimalHello = Some parsed /\
    tlsinspect.ParseClientHello anyDigest (tlsinspect.raw parsed ++ []) = Some again /\
    tlsinspect.err again <> None.
Proof.
  destruct (tlsinspect.ParseClientHello anyDigest minimalHello) as [parsed|] eqn:E;
    [|vm_compute in E; discriminate].
  destruct (tlsinspect.ParseClientHello anyDigest (tlsinspect.raw parsed ++ []))
    as [again|] eqn:E2.
  - exists parsed, again. split; [reflexivity|]. split; [exact E2|].
    apply (replayed_hello_does_not_parse_again anyDigest minimalHello parsed [] again E).
    + vm_compute in E. injection E as <-. reflexivity.
    + exact E2.
  - destruct (ParseClientHello_total anyDigest (tlsinspect.raw parsed ++ [])) as [out Hout].
    congruence.
Defined.

(** ** The shaping strategies *)

Lemma slice0_app_next {A} (s : list A) (j k : Z) :
  0 <= j <= k -> j <= len s -> slice s 0 j ++ slice s j k = slice s 0 k.
Proof.
  intros Hjk Hj. unfold slice, len in *. simpl skipn. rewrite !Z.sub_0_r.
  rewrite <- (firstn_skipn (Z.to_nat j) s) at 3.
  rewrite firstn_app, firstn_firstn, length_firstn.
  replace (Nat.min (Z.to_nat k) (Z.to_nat j)) with (Z.to_nat j) by lia.
  replace (Z.to_nat k - Nat.min (Z.to_nat j) (List.length s))%nat
    with (Z.to_nat (k - j)) by lia.
  reflexivity.
Qed.

Lemma slice0_all {A} (s : list A) : slice s 0 (len s) = s.
Proof.
  unfold slice, len. simpl skipn. rewrite Z.sub_0_r, Nat2Z.id. apply firstn_all.
Qed.

(** X24: [handleMTUBlackhole] writes to upstream the first bytes of [raw], as
    many as the threshold allows, and drops the others; the threshold is the
    configured one, or 1300 when that is 0 or negative. *)
Theorem blackhole_forwards_a_bounded_prefix (cfg : impair.Config) (raw : list byte) :
  let sent := shaping.blackholeToSend cfg raw in
  let th := shaping.blackholeThreshold cfg in
  (th = if impair.ThresholdBytes cfg <=? 0 then 1300 else impair.ThresholdBytes cfg) /\
  1 <= th /\
  len sent = Z.min (len raw) th /\
  sent = slice raw 0 (len sent) /\
  exists dropped, raw = sent ++ dropped /\ len dropped = Z.max 0 (len raw - th).
Proof.
  intros sent th. subst sent th.
  unfold shaping.blackholeToSend, shaping.blackholeThreshold.
  pose proof (len_nonneg raw) as Hn.
  set (th := if impair.ThresholdBytes cfg <=? 0 then 1300 else impair.ThresholdBytes cfg).
  assert (Hth : 1 <= th).
  { subst th. destruct (Z.leb_spec (impair.ThresholdBytes cfg) 0); lia. }
  split; [reflexivity|]. split; [exact Hth|].
  cbv zeta. destruct (len raw >? th) eqn:Hgt; rewrite Z.gtb_ltb in Hgt.
  - apply Z.ltb_lt in Hgt.
    assert (Hl : len (slice raw 0 th) = th) by (apply len_slice0; lia).
    split; [lia|]. split; [rewrite Hl; reflexivity|].
    exists (skipn (Z.to_nat th) raw). split; [apply slice0_split|].
    unfold len in *. rewrite length_skipn. lia.
  - apply Z.ltb_ge in Hgt. split; [lia|]. split; [symmetry; apply slice0_all|].
    exists []. split; [symmetry; apply app_nil_r|]. cbn. lia.
Qed.

Lemma refillLoop_spec (bucketCap : Z) (buf : list byte) (start : Z) :
  0 < bucketCap ->
  forall (fuel : nat) (n toSend bucket : Z) (done : shaping.forwarded),
    0 <= n -> 0 <= toSend -> toSend + n = len buf ->
    (Z.to_nat n < fuel)%nat ->
    0 <= bucket <= bucketCap ->
    (0 < n -> bucket = 0) ->
    List.concat (shaping.writes done) = slice buf 0 toSend ->
    Forall (withinBucket bucketCap) (shaping.writes done) ->
    bucket + toSend = start + shaping.ticks done * bucketCap ->
    exists f,
      shaping.refillLoop fuel bucketCap buf n toSend bucket done = Some f /\
      List.concat (shaping.writes f) = buf /\
      Forall (withinBucket bucketCap) (shaping.writes f) /\
      0 <= shaping.bucketAfter f <= bucketCap /\
      shaping.bucketAfter f + len buf = start + shaping.ticks f * bucketCap /\
      shaping.ticks done <= shaping.ticks f.
Proof.
  intros Hcap. induction fuel as [|fuel IH]; intros n toSend bucket done
    Hn Hts Hsum Hfuel Hb Hzero Hcat Hall Hcons; [lia|].
  cbn [shaping.refillLoop].
  destruct (n >? 0) eqn:Hgt; rewrite Z.gtb_ltb in Hgt.
  - apply Z.ltb_lt in Hgt. cbv zeta.
    set (w := if n >? bucketCap then bucketCap else n).
    assert (Hw : 0 < w <= bucketCap /\ w <= n /\ (w < n -> w = bucketCap)).
    { subst w. destruct (n >? bucketCap) eqn:E; rewrite Z.gtb_ltb in E;
        [apply Z.ltb_lt in E | apply Z.ltb_ge in E]; lia. }
    destruct Hw as (Hw1 & Hw2 & Hw3).
    specialize (Hzero Hgt).
    destruct (IH (n - w) (toSend + w) (bucketCap - w)
                (shaping.mkForwarded
                   (shaping.writes done ++ [slice buf toSend (toSend + w)])
                   (bucketCap - w) (shaping.ticks done + 1)))
      as (f & Hf & H1 & H2 & H3 & H4 & H5); try lia.
    + cbn [shaping.writes]. rewrite List.concat_app, Hcat. cbn [List.concat].
      rewrite app_nil_r. apply slice0_app_next; lia.
    + cbn [shaping.writes]. apply Forall_app. split; [exact Hall|].
      constructor; [|constructor]. unfold withinBucket.
      rewrite len_slice by lia. lia.
    + cbn [shaping.ticks]. lia.
    + exists f. cbn [shaping.ticks] in H5. repeat split; try assumption; try lia.
  - apply Z.ltb_ge in Hgt. assert (n = 0) by lia. subst n.
    eexists. split; [reflexivity|]. cbn [shaping.writes shaping.bucketAfter shaping.ticks].
    replace toSend with (len buf) in Hcat by lia. rewrite slice0_all in Hcat.
    repeat split; try assumption; try lia.
Qed.

Lemma forwardRead_spec (bucketCap bucket : Z) (buf : list byte) :
  0 < bucketCap ->
  0 <= bucket <= bucketCap ->
  exists f,
    shaping.forwardRead bucketCap bucket buf = Some f /\
    List.concat (shaping.writes f) = buf /\
    Forall (withinBucket bucketCap) (shaping.writes f) /\
    0 <= shaping.bucketAfter f <= bucketCap /\
    0 <= shaping.ticks f /\
    shaping.bucketAfter f + len buf = bucket + shaping.ticks f * bucketCap.
Proof.
  intros Hcap Hb. unfold shaping.forwardRead.
  pose proof (len_nonneg buf) as Hn.
  destruct (bucket <=? 0) eqn:Hz; [apply Z.leb_le in Hz | apply Z.leb_gt in Hz].
  - assert (bucket = 0) by lia. subst bucket.
    destruct (len buf >? 0) eqn:Hpos; rewrite Z.gtb_ltb in Hpos;
      [apply Z.ltb_lt in Hpos | apply Z.ltb_ge in Hpos].
    + destruct (len buf >? bucketCap) eqn:Hbig; rewrite Z.gtb_ltb in Hbig;
        [apply Z.ltb_lt in Hbig | apply Z.ltb_ge in Hbig].
      * replace (bucketCap >? 0) with true by (symmetry; apply Z.gtb_lt; lia).
        destruct (refillLoop_spec bucketCap buf 0 Hcap (S (List.length buf))
                    (len buf - bucketCap) bucketCap 0
                    (shaping.mkForwarded [slice buf 0 bucketCap] 0 1))
          as (f & Hf & H1 & H2 & H3 & H4 & H5);
          try (cbn [shaping.writes shaping.ticks List.concat]; unfold len in *; lia).
        -- cbn [shaping.writes List.concat]. apply app_nil_r.
        -- cbn [shaping.writes]. constructor; [|constructor]. unfold withinBucket.
           rewrite len_slice0 by lia. lia.
        -- exists f. cbn [shaping.ticks] in H5. repeat split; try assumption; lia.
      * eexists. split; [reflexivity|].
        cbn [shaping.writes shaping.bucketAfter shaping.ticks List.concat].
        rewrite app_nil_r, slice0_all. repeat split; try lia.
        constructor; [|constructor]. unfold withinBucket. lia.
    + assert (Hl : len buf = 0) by lia.
      eexists. split; [reflexivity|].
      cbn [shaping.writes shaping.bucketAfter shaping.ticks List.concat].
      destruct buf; [|cbn in Hl; lia]. repeat split; try lia. constructor.
  - destruct (len buf >? 0) eqn:Hpos; rewrite Z.gtb_ltb in Hpos;
      [apply Z.ltb_lt in Hpos | apply Z.ltb_ge in Hpos].
    + destruct (len buf >? bucket) eqn:Hbig; rewrite Z.gtb_ltb in Hbig;
        [apply Z.ltb_lt in Hbig | apply Z.ltb_ge in Hbig].
      * replace (bucket >? 0) with true by (symmetry; apply Z.gtb_lt; lia).
        destruct (refillLoop_spec bucketCap buf bucket Hcap (S (List.length buf))
                    (len buf - bucket) bucket 0
                    (shaping.mkForwarded [slice buf 0 bucket] 0 0))
          as (f & Hf & H1 & H2 & H3 & H4 & H5);
          try (cbn [shaping.writes shaping.ticks List.concat]; unfold len in *; lia).
        -- cbn [shaping.writes List.concat]. apply app_nil_r.
        -- cbn [shaping.writes]. constructor; [|constructor]. unfold withinBucket.
           rewrite len_slice0 by lia. lia.
        -- exists f. cbn [shaping.ticks] in H5. repeat split; try assumption; lia.
      * eexists. split; [reflexivity|].
        cbn [shaping.writes shaping.bucketAfter shaping.ticks List.concat].
        rewrite app_nil_r, slice0_all. repeat split; try lia.
        constructor; [|constructor]. unfold withinBucket. lia.
    + assert (Hl : len buf = 0) by lia.
      eexists. split; [reflexivity|].
      cbn [shaping.writes shaping.bucketAfter shaping.ticks List.concat].
      destruct buf; [|cbn in Hl; lia]. repeat split; try lia. constructor.
Qed.

(** X25: With a positive capacity, one turn of the upload loop of
    [handleBandwidthLimit] ends; it writes every byte that was read, once and
    in order, in writes that are not empty and not larger than the capacity;
    the bucket stays between 0 and the capacity, and what it holds afterwards
    plus the bytes sent is what it held before plus one capacity per tick. *)
Theorem bandwidth_limit_forwards_every_byte
    (bucketCap bucket : Z) (buf : list byte) :
  0 < bucketCap ->
  0 <= bucket <= bucketCap ->
  exists f,
    shaping.forwardRead bucketCap bucket buf = Some f /\
    List.concat (shaping.writes f) = buf /\
    Forall (withinBucket bucketCap) (shaping.writes f) /\
    0 <= shaping.bucketAfter f <= bucketCap /\
    0 <= shaping.ticks f /\
    shaping.bucketAfter f + len buf = bucket + shaping.ticks f * bucketCap.
Proof. exact (forwardRead_spec bucketCap bucket buf). Qed.

Lemma bandwidth_limit_forwards_every_byte_witness :
  exists f,
    shaping.forwardRead 8 3 (repeat x00 20) = Some f /\
    List.concat (shaping.writes f) = repeat x00 20 /\
    Forall (withinBucket 8) (shaping.writes f) /\
    0 <= shaping.bucketAfter f <= 8 /\
    0 <= shaping.ticks f /\
    shaping.bucketAfter f + len (repeat x00 20) = 3 + shaping.ticks f * 8.
Proof.
  apply (bandwidth_limit_forwards_every_byte 8 3 (repeat x00 20)); lia.
Defined.

Lemma shaping_wrap64_small (x : Z) : - 2 ^ 63 <= x < 2 ^ 63 -> shaping.wrap64 x = x.
Proof.
  intros H. unfold shaping.wrap64. rewrite Z.mod_small; lia.
Qed.

(** X26: For a bandwidth below 2^56 kbps, [handleBandwidthLimit] allows 125
    bytes per second and 25 bytes per tick for each kbps (1000 kbps when the
    setting is 0 or negative) and reads at most 8192 bytes at a time; every
    turn of the upload loop then ends with all bytes written, and the ticks
    it waited for carry at most the bytes sent and one capacity more. *)
Theorem bandwidth_params_keep_the_limiter_running (cfg : impair.Config) :
  impair.BandwidthKbps cfg < 2 ^ 56 ->
  let p := shaping.bandwidthParams cfg in
  let kbps := if impair.BandwidthKbps cfg <=? 0 then 1000 else impair.BandwidthKbps cfg in
  shaping.bytesPerSec p = 125 * kbps /\
  shaping.bucketCap p = 25 * kbps /\
  shaping.chunk p = Z.min 8192 (125 * kbps) /\
  forall (bucket : Z) (buf : list byte),
    0 <= bucket <= shaping.bucketCap p ->
    exists f,
      shaping.forwardRead (shaping.bucketCap p) bucket buf = Some f /\
      List.concat (shaping.writes f) = buf /\
      shaping.ticks f * (25 * kbps) <= len buf + 25 * kbps.
Proof.
  intros Hbound p kbps. subst p. unfold shaping.bandwidthParams. fold kbps.
  assert (Hk : 0 < kbps < 2 ^ 56).
  { subst kbps. destruct (Z.leb_spec (impair.BandwidthKbps cfg) 0); lia. }
  cbv zeta. rewrite shaping_wrap64_small by lia.
  replace (kbps * 125 <=? 0) with false by (symmetry; apply Z.leb_gt; lia).
  cbn [shaping.bytesPerSec shaping.bucketCap shaping.chunk].
  assert (Hq : Z.quot (kbps * 125) 5 = 25 * kbps).
  { rewrite Z.quot_div_nonneg by lia.
    replace (kbps * 125) with (25 * kbps * 5) by lia. apply Z.div_mul. lia. }
  rewrite Hq.
  split; [lia|]. split; [reflexivity|]. split.
  - change (8 * 1024) with 8192.
    destruct (8192 >? kbps * 125) eqn:E; rewrite Z.gtb_ltb in E;
      [apply Z.ltb_lt in E | apply Z.ltb_ge in E]; lia.
  - intros bucket buf Hb.
    destruct (forwardRead_spec (25 * kbps) bucket buf) as (f & Hf & H1 & _ & H3 & H4 & H5);
      [lia | exact Hb |].
    exists f. split; [exact Hf|]. split; [exact H1|]. lia.
Qed.

Lemma bandwidth_params_keep_the_limiter_running_witness :
  let cfg := impair.setBandwidthKbps impair.zeroConfig 64 in
  let p := shaping.bandwidthParams cfg in
  let kbps := if impair.BandwidthKbps cfg <=? 0 then 1000 else impair.BandwidthKbps cfg in
  shaping.bytesPerSec p = 125 * kbps /\
  shaping.bucketCap p = 25 * kbps /\
  shaping.chunk p = Z.min 8192 (125 * kbps) /\
  forall (bucket : Z) (buf : list byte),
    0 <= bucket <= shaping.bucketCap p ->
    exists f,
      shaping.forwardRead (shaping.bucketCap p) bucket buf = Some f /\
      List.concat (shaping.writes f) = buf /\
      shaping.ticks f * (25 * kbps) <= len buf + 25 * kbps.
Proof.
  apply (bandwidth_params_keep_the_limiter_running
           (impair.setBandwidthKbps impair.zeroConfig 64)).
  vm_compute. reflexivity.
Defined.

(** X27: For a latency of 0 to 2^40 ms and a jitter of at most 2^40 ms,
    [handleLatencyJitter] sleeps the latency when the jitter is 0 or
    negative; otherwise it sleeps the latency moved by the clock modulo the
    jitter less half the jitter, never less than 0: at least the latency less
    half the jitter and less than the latency plus half the jitter. *)
Theorem latency_delay_stays_within_the_jitter (cfg : impair.Config) (now : Z) :
  0 <= impair.LatencyMs cfg <= 2 ^ 40 ->
  impair.JitterMs cfg <= 2 ^ 40 ->
  0 <= now < 2 ^ 63 ->
  let base := impair.LatencyMs cfg * 1000000 in
  let half := impair.JitterMs cfg * 500000 in
  exists d,
    shaping.latencyDelay cfg now = Some d /\
    (impair.JitterMs cfg <= 0 -> d = base) /\
    (0 < impair.JitterMs cfg ->
       d = Z.max 0 (base + now mod (impair.JitterMs cfg * 1000000) - half) /\
       Z.max 0 (base - half) <= d < base + half).
Proof.
  intros HL HJ Hnow base half. unfold shaping.latencyDelay, shaping.Millisecond.
  cbv zeta. rewrite (shaping_wrap64_small (impair.LatencyMs cfg * 1000000)) by lia.
  destruct (impair.JitterMs cfg >? 0) eqn:Hj; rewrite Z.gtb_ltb in Hj;
    [apply Z.ltb_lt in Hj | apply Z.ltb_ge in Hj].
  - rewrite (shaping_wrap64_small (impair.JitterMs cfg * 1000000)) by lia.
    set (j := impair.JitterMs cfg * 1000000).
    assert (Hjpos : 0 < j) by (subst j; lia).
    replace (j =? 0) with false by (symmetry; apply Z.eqb_neq; lia).
    rewrite Z.rem_mod_nonneg by lia.
    assert (Hq : Z.quot j 2 = half).
    { rewrite Z.quot_div_nonneg by lia. subst j half.
      replace (impair.JitterMs cfg * 1000000) with (impair.JitterMs cfg * 500000 * 2) by lia.
      apply Z.div_mul. lia. }
    rewrite Hq.
    pose proof (Z.mod_pos_bound now j Hjpos) as Hm.
    assert (Hh : 2 * half = j) by (subst j half; lia).
    rewrite (shaping_wrap64_small (now mod j - half)) by lia.
    rewrite shaping_wrap64_small by lia.
    eexists. split; [reflexivity|]. split; [lia|]. intros _.
    fold base.
    destruct (Z.ltb_spec (base + (now mod j - half)) 0); lia.
  - exists base. split; [reflexivity|]. split; [reflexivity|]. lia.
Qed.

Lemma latency_delay_stays_within_the_jitter_witness :
  let cfg := impair.setJitterMs (impair.setLatencyMs impair.zeroConfig 50) 10 in
  exists d,
    shaping.latencyDelay cfg 1234567891 = Some d /\
    (impair.JitterMs cfg <= 0 -> d = impair.LatencyMs cfg * 1000000) /\
    (0 < impair.JitterMs cfg ->
       d = Z.max 0 (impair.LatencyMs cfg * 1000000
                    + 1234567891 mod (impair.JitterMs cfg * 1000000)
                    - impair.JitterMs cfg * 500000) /\
       Z.max 0 (impair.LatencyMs cfg * 1000000 - impair.JitterMs cfg * 500000) <= d
         < impair.LatencyMs cfg * 1000000 + impair.JitterMs cfg * 500000).
Proof.
  apply (latency_delay_stays_within_the_jitter
           (impair.setJitterMs (impair.setLatencyMs impair.zeroConfig 50) 10) 1234567891);
    cbn; lia.
Defined.

(** ** Replaying the bytes already read *)

Lemma readMany_empty {Conn : Type} (connRead : Conn -> Z -> list byte * Conn)
    (sizes : list Z) (c : Conn) :
  replay.readMany Conn connRead sizes (replay.mkPrepend Conn [] c) =
  (fst (connReadMany connRead sizes c),
   replay.mkPrepend Conn [] (snd (connReadMany connRead sizes c))).
Proof.
  revert c. induction sizes as [|n sizes IH]; intros c; [reflexivity|].
  cbn [replay.readMany connReadMany]. unfold replay.Read.
  cbn [replay.prefix replay.rest len List.length Z.of_nat Z.gtb Z.compare].
  destruct (connRead c n) as [chunk c1]. rewrite IH.
  destruct (connReadMany connRead sizes c1) as [chunks c2]. reflexivity.
Qed.

(** X28: A run of [Read]s on a [prependReader] delivers the prefix first, in
    order and whole; the live connection is read only when the prefix is used
    up, and from then on each [Read] is a [Read] of the connection. *)
Theorem replay_delivers_the_prefix_first {Conn : Type}
    (connRead : Conn -> Z -> list byte * Conn)
    (sizes : list Z) (p : replay.prependReader Conn) :
  let chunks := fst (replay.readMany Conn connRead sizes p) in
  let p' := snd (replay.readMany Conn connRead sizes p) in
  exists k : nat,
    (k <= List.length sizes)%nat /\
    List.concat (firstn k chunks) ++ replay.prefix Conn p' = replay.prefix Conn p /\
    connReadMany connRead (skipn k sizes) (replay.rest Conn p)
      = (skipn k chunks, replay.rest Conn p') /\
    (replay.prefix Conn p' <> [] -> k = List.length sizes).
Proof.
  revert p. induction sizes as [|n sizes IH]; intros p.
  - exists 0%nat. cbn. repeat split; auto.
  - cbn [replay.readMany]. unfold replay.Read.
    destruct (len (replay.prefix Conn p) >? 0) eqn:Hpos.
    + set (copied := if n <? len (replay.prefix Conn p) then n
                     else len (replay.prefix Conn p)).
      set (p1 := replay.mkPrepend Conn
                   (skipn (Z.to_nat copied) (replay.prefix Conn p)) (replay.rest Conn p)).
      destruct (IH p1) as (k & Hk & Hcat & Hrest & Hlast).
      destruct (replay.readMany Conn connRead sizes p1) as [chunks p2] eqn:E.
      cbn [fst snd] in *.
      exists (S k). cbn [firstn skipn List.concat List.length].
      split; [lia|]. split.
      * rewrite <- app_assoc, Hcat. subst p1. cbn [replay.prefix].
        symmetry. apply slice0_split.
      * split; [exact Hrest|]. intros H. rewrite (Hlast H). reflexivity.
    + assert (Hnil : replay.prefix Conn p = []).
      { rewrite Z.gtb_ltb in Hpos. apply Z.ltb_ge in Hpos.
        destruct (replay.prefix Conn p); [reflexivity|]. cbn in Hpos. lia. }
      destruct (connRead (replay.rest Conn p) n) as [chunk c1] eqn:Ec.
      rewrite Hnil, readMany_empty.
      destruct (connReadMany connRead sizes c1) as [chunks c2] eqn:E.
      cbn [fst snd replay.prefix replay.rest].
      exists 0%nat. cbn [firstn skipn List.concat app connReadMany].
      rewrite Ec, E. repeat split; try lia. intros H. congruence.
Qed.

End Proofs.
